(** * lang-gen: the generation / validation / repair pipeline of [index.js]

    A shallow embedding of the pipeline stages of [src/index.js] and the
    properties its specification states about them.

    Conventions of the embedding.
    - JavaScript strings are Rocq [string]s.  The embedding is exact for
      ASCII text; a character above 127 is carried as the bytes of its
      UTF-8 encoding (the form in which [hash.update] consumes it).
      [trim] strips the white space of JavaScript, the characters above
      127 included; the classes of the expressions and [toLowerCase]
      are those of ASCII, and the properties that depend on what they do
      above 127 are stated for ASCII texts ([ascii_text]).
    - [path.join] is the concatenation with a slash, which it is for the
      directory names in normal form ([normal_dir]); the properties that
      state a path are stated for such names.
    - Regular-expression literals are terms of [regex], run by a
      backtracking matcher with JavaScript's priorities (greedy and lazy
      repetition, ordered alternation, look-around, one capture group).
    - Effects (cache files, the synthesis service, the compiler
      subprocess, the module loader and the operator's console) are
      threaded through an explicit [World]; the external collaborators
      are oracles stored in an [Env]. *)

From stdpp Require Import base option gmap strings list.
From Stdlib Require Import String Ascii NArith ZArith Lia Bool.

Open Scope string_scope.
Open Scope list_scope.

(* ================================================================= *)
(** ** Characters and strings *)

Definition code (c : ascii) : nat := nat_of_ascii c.

Definition in_range (lo hi : nat) (c : ascii) : bool :=
  (lo <=? code c)%nat && (code c <=? hi)%nat.

Definition is_char (a c : ascii) : bool := Ascii.eqb a c.
Definition not_char (a c : ascii) : bool := negb (Ascii.eqb a c).

(** The two quote characters and the other characters the source spells
    with an escape. *)
Definition DQ : ascii := "034"%char.
Definition SQ : ascii := "039"%char.
Definition LF : ascii := "010"%char.
Definition CR : ascii := "013"%char.
Definition dq : string := String DQ "".
Definition sq : string := String SQ "".
Definition nl : string := String LF "".

(** [\s] on ASCII: tab, line feed, vertical tab, form feed, carriage
    return and space. *)
Definition is_space (c : ascii) : bool :=
  in_range 9 13 c || (code c =? 32)%nat.

(** [[a-z_]], [[a-z0-9_]], [[A-Z_]], [[A-Z0-9_]] and [[\s\S]]. *)
Definition lc_start (c : ascii) : bool := in_range 97 122 c || is_char "_" c.
Definition lc_rest (c : ascii) : bool :=
  in_range 97 122 c || in_range 48 57 c || is_char "_" c.
Definition uc_start (c : ascii) : bool := in_range 65 90 c || is_char "_" c.
Definition uc_rest (c : ascii) : bool :=
  in_range 65 90 c || in_range 48 57 c || is_char "_" c.
Definition any_char (c : ascii) : bool := true.

(** The white space and the line terminators above 127, by the bytes of
    their UTF-8 encoding: U+00A0 (C2 A0); U+1680 (E1 9A 80); U+2000 to
    U+200A, U+2028, U+2029 and U+202F (E2 80 80 to 8A, A8, A9, AF); U+205F
    (E2 81 9F); U+3000 (E3 80 80); U+FEFF (EF BB BF). *)
Definition is_space2 (a b : ascii) : bool :=
  (code a =? 194)%nat && (code b =? 160)%nat.

Definition is_space3 (a b c : ascii) : bool :=
  ((code a =? 225)%nat && (code b =? 154)%nat && (code c =? 128)%nat)
  || ((code a =? 226)%nat && (code b =? 128)%nat
      && (in_range 128 138 c || in_range 168 169 c || (code c =? 175)%nat))
  || ((code a =? 226)%nat && (code b =? 129)%nat && (code c =? 159)%nat)
  || ((code a =? 227)%nat && (code b =? 128)%nat && (code c =? 128)%nat)
  || ((code a =? 239)%nat && (code b =? 187)%nat && (code c =? 191)%nat).

(** [String.prototype.trim]: the white space and the line terminators of
    JavaScript are stripped from both ends, those above 127 included. *)
Fixpoint trim_start (s : string) : string :=
  match s with
  | String a s1 =>
      if is_space a then trim_start s1
      else
        match s1 with
        | String b s2 =>
            if is_space2 a b then trim_start s2
            else
              match s2 with
              | String c s3 => if is_space3 a b c then trim_start s3 else s
              | EmptyString => s
              end
        | EmptyString => s
        end
  | EmptyString => EmptyString
  end.

(** Is [s] made of white space only? *)
Definition blank (s : string) : bool :=
  match trim_start s with
  | EmptyString => true
  | _ => false
  end.

Fixpoint trim_end (s : string) : string :=
  match s with
  | String c s' => if blank s then EmptyString else String c (trim_end s')
  | EmptyString => EmptyString
  end.

Definition trim (s : string) : string := trim_end (trim_start s).

(** [a.includes(b)]. *)
Fixpoint includes (s sub : string) : bool :=
  String.prefix sub s ||
  match s with
  | String _ s' => includes s' sub
  | EmptyString => false
  end.

(** [xs.join(sep)]. *)
Definition join (sep : string) (xs : list string) : string :=
  String.concat sep xs.

(** Truthiness of a string: only the empty string is falsy. *)
Definition truthy (s : string) : bool :=
  match s with EmptyString => false | _ => true end.

(** [a || b] on strings. *)
Definition or_else (a b : string) : string := if truthy a then a else b.

(** Decimal rendering of a number inside a template literal. *)
Fixpoint digits_fuel (fuel n : nat) (acc : string) : string :=
  match fuel with
  | O => acc
  | S f =>
      let d := String (ascii_of_nat (48 + n mod 10)) acc in
      if (n <? 10)%nat then d else digits_fuel f (n / 10) d
  end.

Definition show_nat (n : nat) : string := digits_fuel (S n) n "".

(* ================================================================= *)
(** ** Regular expressions *)

(** The constructs used by the regular-expression literals of the
    source.  Repetition only occurs over character classes there. *)
Inductive regex : Type :=
| RChar (c : ascii)                  (* a literal character *)
| RLit (s : string)                  (* a literal run of characters *)
| RClass (p : ascii -> bool)         (* [...] *)
| RStar (p : ascii -> bool)          (* [...]*  greedy *)
| RStarLazy (p : ascii -> bool)      (* [...]*? lazy *)
| RSeq (r1 r2 : regex)
| RAlt (r1 r2 : regex)               (* r1|r2, left first *)
| RBol                               (* ^ under the m flag *)
| RNotBehind (p : ascii -> bool)     (* (?<![...]) *)
| RNotAhead (r : regex)              (* (?!r) *)
| RGroup (r : regex).                (* ( r ), capture group 1 *)

(** A position of the matcher inside the subject: the character before
    it, the text from it on, the number of characters consumed since the
    start of the match, and the capture. *)
Record mstate : Type := MState {
  ms_prev : option ascii;
  ms_rest : string;
  ms_len : nat;
  ms_cap : option string
}.

Definition is_line_terminator (c : ascii) : bool :=
  Ascii.eqb c LF || Ascii.eqb c CR.

Definition at_line_start (prev : option ascii) : bool :=
  match prev with
  | None => true
  | Some c => is_line_terminator c
  end.

Fixpoint lit_match (s : string) (st : mstate) : option mstate :=
  match s with
  | EmptyString => Some st
  | String c s' =>
      match ms_rest st with
      | String a rest =>
          if Ascii.eqb a c
          then lit_match s' (MState (Some a) rest (S (ms_len st)) (ms_cap st))
          else None
      | EmptyString => None
      end
  end.

Fixpoint star_greedy (p : ascii -> bool) (k : mstate -> option mstate)
    (prev : option ascii) (len : nat) (cap : option string) (rest : string)
    : option mstate :=
  match rest with
  | String a rest' =>
      if p a then
        match star_greedy p k (Some a) (S len) cap rest' with
        | Some r => Some r
        | None => k (MState prev rest len cap)
        end
      else k (MState prev rest len cap)
  | EmptyString => k (MState prev rest len cap)
  end.

Fixpoint star_lazy (p : ascii -> bool) (k : mstate -> option mstate)
    (prev : option ascii) (len : nat) (cap : option string) (rest : string)
    : option mstate :=
  match k (MState prev rest len cap) with
  | Some r => Some r
  | None =>
      match rest with
      | String a rest' =>
          if p a then star_lazy p k (Some a) (S len) cap rest' else None
      | EmptyString => None
      end
  end.

(** The backtracking matcher, in continuation-passing style: [rmatch r st k]
    is the first way, in JavaScript's order, of matching [r] at [st] such
    that the continuation [k] accepts the position reached. *)
Fixpoint rmatch (r : regex) (st : mstate) (k : mstate -> option mstate)
    : option mstate :=
  match r with
  | RChar c =>
      match ms_rest st with
      | String a rest =>
          if Ascii.eqb a c
          then k (MState (Some a) rest (S (ms_len st)) (ms_cap st))
          else None
      | EmptyString => None
      end
  | RLit s =>
      match lit_match s st with
      | Some st' => k st'
      | None => None
      end
  | RClass p =>
      match ms_rest st with
      | String a rest =>
          if p a
          then k (MState (Some a) rest (S (ms_len st)) (ms_cap st))
          else None
      | EmptyString => None
      end
  | RStar p => star_greedy p k (ms_prev st) (ms_len st) (ms_cap st) (ms_rest st)
  | RStarLazy p => star_lazy p k (ms_prev st) (ms_len st) (ms_cap st) (ms_rest st)
  | RSeq r1 r2 => rmatch r1 st (fun st' => rmatch r2 st' k)
  | RAlt r1 r2 =>
      match rmatch r1 st k with
      | Some res => Some res
      | None => rmatch r2 st k
      end
  | RBol => if at_line_start (ms_prev st) then k st else None
  | RNotBehind p =>
      match ms_prev st with
      | Some a => if p a then None else k st
      | None => k st
      end
  | RNotAhead r' =>
      match rmatch r' st Some with
      | Some _ => None
      | None => k st
      end
  | RGroup r' =>
      rmatch r' st (fun st' =>
        k (MState (ms_prev st') (ms_rest st') (ms_len st')
             (Some (String.substring 0 (ms_len st' - ms_len st) (ms_rest st)))))
  end.

(** One successful match: the matched text [m[0]] and the capture [m[1]]. *)
Record rmatch_result : Type := RMatch {
  m_text : string;
  m_group : option string
}.

(** An attempt to match at one position of the subject. *)
Definition match_here (r : regex) (prev : option ascii) (s : string)
    : option mstate :=
  rmatch r (MState prev s 0 None) Some.

Definition result_of (s : string) (st : mstate) : rmatch_result :=
  RMatch (String.substring 0 (ms_len st) s) (ms_cap st).

(** All matches of a [g]-flagged expression from left to right, as
    [String.prototype.match] and a [while ((m = re.exec(s)))] loop visit
    them: the search resumes where the previous match ended ([skip]
    counts the characters of the subject still covered by it). *)
Fixpoint scan (r : regex) (prev : option ascii) (skip : nat) (s : string)
    : list rmatch_result :=
  let here :=
    match skip with
    | O => match_here r prev s
    | S _ => None
    end in
  match here with
  | Some st =>
      result_of s st ::
      match s with
      | String a s' => scan r (Some a) (pred (ms_len st)) s'
      | EmptyString => []
      end
  | None =>
      match s with
      | String a s' => scan r (Some a) (pred skip) s'
      | EmptyString => []
      end
  end.

Definition match_all (r : regex) (s : string) : list rmatch_result :=
  scan r None 0 s.

(** [s.match(re)] for a [g]-flagged [re]: the matched texts, or [null]. *)
Definition js_match (r : regex) (s : string) : option (list string) :=
  match match_all r s with
  | [] => None
  | ms => Some (map m_text ms)
  end.

(** The first match from the left, as an expression without [g] finds it:
    the text before it and the match state. *)
Fixpoint search (r : regex) (prev : option ascii) (before : string)
    (s : string) : option (string * mstate) :=
  match match_here r prev s with
  | Some st => Some (before, st)
  | None =>
      match s with
      | String a s' => search r (Some a) (before ++ String a "") s'
      | EmptyString => None
      end
  end.

(** [s.replace(re, by)] for an expression without [g] and a replacement
    text without [$] patterns: the first match is replaced. *)
Definition js_replace (r : regex) (by_ : string) (s : string) : string :=
  match search r None "" s with
  | Some (before, st) =>
      before ++ by_ ++
      String.substring (String.length before + ms_len st)
        (String.length s) s
  | None => s
  end.


(* ================================================================= *)
(** ** Step 3: [extractASTSchema] *)

(** [ruleRe], line 523: [^], the group [[a-z_][a-z0-9_]*], then [\s*:];
    flags [gm]. *)
Definition ruleRe : regex :=
  RSeq RBol
    (RSeq (RGroup (RSeq (RClass lc_start) (RStar lc_rest)))
       (RSeq (RStar is_space) (RChar ":"))).

(** [tokenRe], line 524: [^], the group [[A-Z_][A-Z0-9_]*], then [\s*:];
    flags [gm]. *)
Definition tokenRe : regex :=
  RSeq RBol
    (RSeq (RGroup (RSeq (RClass uc_start) (RStar uc_rest)))
       (RSeq (RStar is_space) (RChar ":"))).

(** [aliasRe], line 525: [->\s*], then the group [[a-z_][a-z0-9_]*];
    flag [g]. *)
Definition aliasRe : regex :=
  RSeq (RLit "->")
    (RSeq (RStar is_space)
       (RGroup (RSeq (RClass lc_start) (RStar lc_rest)))).

(** [set.add(x)] on a [Set], kept in insertion order as [Array.from]
    lists it. *)
Definition set_add (xs : list string) (x : string) : list string :=
  if bool_decide (x ∈ xs) then xs else xs ++ [x].

(** [while ((match = re.exec(grammarText))) set.add(match[1]);] *)
Definition collect (r : regex) (grammarText : string) : list string :=
  fold_left
    (fun acc m =>
       match m_group m with
       | Some name => set_add acc name
       | None => acc
       end)
    (match_all r grammarText) [].

Record Schema : Type := MkSchema {
  rules : list string;
  tokens : list string;
  aliases : list string;
  nodeTypes : list string
}.

Definition extractASTSchema (grammarText : string) : Schema :=
  let rules := collect ruleRe grammarText in
  let tokens := collect tokenRe grammarText in
  let aliases := collect aliasRe grammarText in
  MkSchema rules tokens aliases
    (if (0 <? List.length aliases)%nat then aliases else rules).

(* ================================================================= *)
(** ** SHA-256 ([crypto.createHash('sha256')], FIPS 180-4) *)

Module SHA256.

Open Scope N_scope.

Definition mask32 : N := 0xFFFFFFFF.
Definition add32 (a b : N) : N := N.land (a + b) mask32.
Definition not32 (a : N) : N := N.lxor a mask32.
Definition rotr (n x : N) : N :=
  N.lor (N.shiftr x n) (N.land (N.shiftl x (32 - n)) mask32).

Definition Ch (x y z : N) : N := N.lxor (N.land x y) (N.land (not32 x) z).
Definition Maj (x y z : N) : N :=
  N.lxor (N.land x y) (N.lxor (N.land x z) (N.land y z)).
Definition bsig0 (x : N) : N := N.lxor (rotr 2 x) (N.lxor (rotr 13 x) (rotr 22 x)).
Definition bsig1 (x : N) : N := N.lxor (rotr 6 x) (N.lxor (rotr 11 x) (rotr 25 x)).
Definition ssig0 (x : N) : N := N.lxor (rotr 7 x) (N.lxor (rotr 18 x) (N.shiftr x 3)).
Definition ssig1 (x : N) : N := N.lxor (rotr 17 x) (N.lxor (rotr 19 x) (N.shiftr x 10)).

(** The round constants and the initial hash value are the first 32
    bits of the fractional parts of the cube roots of the first 64 primes
    and of the square roots of the first 8 primes. *)
Definition is_prime (n : nat) : bool :=
  (1 <? n)%nat && forallb (fun d => negb (n mod d =? 0)%nat) (seq 2 (n - 2)).

Definition primes (count : nat) : list N :=
  map N.of_nat (firstn count (filter is_prime (seq 2 400))).

(** The integer cube root, bit by bit from bit [bits - 1] down. *)
Fixpoint cube_root (bits : nat) (n root : N) : N :=
  match bits with
  | O => root
  | S b =>
      let candidate := root + N.shiftl 1 (N.of_nat b) in
      cube_root b n (if candidate * candidate * candidate <=? n then candidate else root)
  end.

Definition K : list N :=
  map (fun p => N.land (cube_root 40 (N.shiftl p 96) 0) mask32) (primes 64).

Definition H0 : list N :=
  map (fun p => N.land (N.sqrt (N.shiftl p 64)) mask32) (primes 8).

(** The message as bytes, padded to a multiple of 64 bytes: a [0x80]
    byte, zero bytes, and the bit length as a 64-bit big-endian number. *)
Fixpoint bytes_of (s : string) : list N :=
  match s with
  | EmptyString => []
  | String c s' => N_of_ascii c :: bytes_of s'
  end.

Fixpoint be_bytes (count : nat) (x : N) : list N :=
  match count with
  | O => []
  | S c => be_bytes c (N.shiftr x 8) ++ [N.land x 0xFF]
  end.

Definition pad (msg : list N) : list N :=
  let len := List.length msg in
  let zeros := ((64 - (len + 9) mod 64) mod 64)%nat in
  msg ++ [0x80] ++ repeat 0 zeros ++ be_bytes 8 (8 * N.of_nat len).

Fixpoint words_of (fuel : nat) (bs : list N) : list N :=
  match fuel, bs with
  | S f, b0 :: b1 :: b2 :: b3 :: rest =>
      (N.shiftl b0 24 + N.shiftl b1 16 + N.shiftl b2 8 + b3) :: words_of f rest
  | _, _ => []
  end.

(** The message schedule, latest word first while it is built. *)
Fixpoint schedule (n : nat) (rev_w : list N) : list N :=
  match n with
  | O => rev_w
  | S n' =>
      let w := add32 (add32 (ssig1 (nth 1 rev_w 0)) (nth 6 rev_w 0))
                 (add32 (ssig0 (nth 14 rev_w 0)) (nth 15 rev_w 0)) in
      schedule n' (w :: rev_w)
  end.

Definition round (h : list N) (kw : N * N) : list N :=
  match h with
  | [a; b; c; d; e; f; g; hh] =>
      let t1 := add32 (add32 (add32 hh (bsig1 e)) (add32 (Ch e f g) (fst kw)))
                  (snd kw) in
      let t2 := add32 (bsig0 a) (Maj a b c) in
      [add32 t1 t2; a; b; c; add32 d t1; e; f; g]
  | _ => h
  end.

Definition compress (h : list N) (block : list N) : list N :=
  let w := rev (schedule 48 (rev block)) in
  let h' := fold_left round (combine K w) h in
  map (fun p => add32 (fst p) (snd p)) (combine h h').

Fixpoint blocks (fuel : nat) (ws : list N) (h : list N) : list N :=
  match fuel with
  | O => h
  | S f =>
      match ws with
      | [] => h
      | _ => blocks f (skipn 16 ws) (compress h (firstn 16 ws))
      end
  end.

Definition hex_digit (d : N) : ascii :=
  ascii_of_N (if d <? 10 then 48 + d else 87 + d).

Fixpoint hex (digits : nat) (x : N) (acc : string) : string :=
  match digits with
  | O => acc
  | S d => hex d (N.shiftr x 4) (String (hex_digit (N.land x 0xF)) acc)
  end.

(** [createHash('sha256').update(s).digest('hex')] *)
Definition digest_hex (s : string) : string :=
  let bs := pad (bytes_of s) in
  let ws := words_of (List.length bs) bs in
  let h := blocks (List.length ws) ws H0 in
  fold_right (fun x acc => hex 8 x acc) EmptyString h.

End SHA256.

(* ================================================================= *)
(** ** JSON values and [JSON.stringify] *)

(** The values the pipeline serialises: strings, arrays and objects.  An
    object lists its fields in insertion order, which is the order in
    which [JSON.stringify] visits them (no key here is an array index). *)
#[warnings="-register-all"]
Inductive json : Type :=
| JString (s : string)
| JArray (items : list json)
| JObject (fields : list (string * json)).

Definition backslash : ascii := "092"%char.

(** The escape of one character inside a JSON string. *)
Definition esc_char (c : ascii) : string :=
  let n := code c in
  if (n =? 34)%nat then String backslash dq
  else if (n =? 92)%nat then String backslash (String backslash "")
  else if (n =? 8)%nat then String backslash "b"
  else if (n =? 12)%nat then String backslash "f"
  else if (n =? 10)%nat then String backslash "n"
  else if (n =? 13)%nat then String backslash "r"
  else if (n =? 9)%nat then String backslash "t"
  else if (n <? 32)%nat then
    String backslash
      ("u00" +:+ String (SHA256.hex_digit (N.of_nat (n / 16)))
                  (String (SHA256.hex_digit (N.of_nat (n mod 16))) ""))
  else String c "".

Fixpoint esc (s : string) : string :=
  match s with
  | EmptyString => EmptyString
  | String c s' => esc_char c +:+ esc s'
  end.

Definition quote (s : string) : string := dq +:+ esc s +:+ dq.

(** The items of an array or the members of an object, each rendered by
    [f] and separated by [sep]. *)
Section Separated.
Context {A : Type} (f : A -> string) (sep : string).

Fixpoint separated (xs : list A) : string :=
  match xs with
  | [] => ""
  | x :: xs' => f x +:+ match xs' with [] => "" | _ => sep +:+ separated xs' end
  end.

End Separated.

(** [JSON.stringify(v)]: the compact form. *)
Fixpoint JSON_stringify (v : json) : string :=
  match v with
  | JString s => quote s
  | JArray items => "[" +:+ separated JSON_stringify "," items +:+ "]"
  | JObject fields =>
      "{" +:+
      separated (fun kv : string * json =>
                   let (k, x) := kv in quote k +:+ ":" +:+ JSON_stringify x)
        "," fields +:+ "}"
  end.

(** [JSON.stringify(v, null, 2)]: the indented form, [ind] being the
    current indentation. *)
Fixpoint JSON_pretty (ind : string) (v : json) : string :=
  match v with
  | JString s => quote s
  | JArray [] => "[]"
  | JArray items =>
      "[" +:+ nl +:+ ind +:+ "  " +:+
      separated (JSON_pretty (ind +:+ "  ")) ("," +:+ nl +:+ ind +:+ "  ") items
      +:+ nl +:+ ind +:+ "]"
  | JObject [] => "{}"
  | JObject fields =>
      "{" +:+ nl +:+ ind +:+ "  " +:+
      separated (fun kv : string * json =>
                   let (k, x) := kv in
                   quote k +:+ ": " +:+ JSON_pretty (ind +:+ "  ") x)
        ("," +:+ nl +:+ ind +:+ "  ") fields
      +:+ nl +:+ ind +:+ "}"
  end.

Definition strings_json (xs : list string) : json := JArray (map JString xs).

(* ================================================================= *)
(** ** The cache key *)

(** [getCacheKey(type, input)]: SHA-256 over the stage type followed by
    [JSON.stringify(input)], in hexadecimal. *)
Definition getCacheKey (type : string) (input : json) : string :=
  SHA256.digest_hex (type +:+ JSON_stringify input).

(* ================================================================= *)
(** ** Errors, outcomes, the environment and the world *)

(** A JavaScript [Error]: its message and the properties the pipeline
    attaches to it ([output], [grammarText], [lastError]). *)
#[warnings="-register-all"]
Inductive JsError : Type :=
| MkError (message : string) (output : option string)
    (grammarText : option string) (lastError : option JsError).

Definition message (e : JsError) : string :=
  match e with MkError m _ _ _ => m end.
Definition err_output (e : JsError) : option string :=
  match e with MkError _ o _ _ => o end.
Definition err_grammarText (e : JsError) : option string :=
  match e with MkError _ _ g _ => g end.
Definition err_lastError (e : JsError) : option JsError :=
  match e with MkError _ _ _ l => l end.

(** [new Error(msg)] *)
Definition Error (msg : string) : JsError := MkError msg None None None.

(** How a computation ends: it returns, throws, ends the process with
    [process.exit], or waits for a console line that never comes. *)
Inductive Outcome (A : Type) : Type :=
| Returned (a : A)
| Thrown (e : JsError)
| Exited (status : nat)
| Blocked.

Arguments Returned {A} a.
Arguments Thrown {A} e.
Arguments Exited {A} status.
Arguments Blocked {A}.

(** One record of the cache directory: [{input, output, timestamp}]. *)
Record CacheEntry : Type := MkEntry {
  ce_input : json;
  ce_output : string;
  ce_timestamp : string
}.

(** A file.  A file written by [saveCache] is kept as the entry its JSON
    text stands for, so that [JSON.parse] gives the entry back; any other
    file is text, and [JSON.parse] of it fails. *)
Inductive FileData : Type :=
| Text (content : string)
| CacheJson (entry : CacheEntry).

Definition entry_json (e : CacheEntry) : json :=
  JObject [("input", ce_input e); ("output", JString (ce_output e));
           ("timestamp", JString (ce_timestamp e))].

Definition file_text (d : FileData) : string :=
  match d with
  | Text s => s
  | CacheJson e => JSON_pretty "" (entry_json e)
  end.

(** The custom tool of a request: name, description and the Lark
    definition constraining the output. *)
Record Tool : Type := MkTool {
  tool_name : string;
  tool_description : string;
  tool_definition : string
}.

(** The argument of [client.responses.create]. *)
Record Request : Type := MkRequest {
  req_model : string;
  req_stream : bool;
  req_instructions : string;
  req_input : string;
  req_tool : option Tool
}.

(** [event.delta]: a text, or an object that may carry [output_text]. *)
Inductive Delta : Type :=
| DeltaText (s : string)
| DeltaObject (output_text : option string).

(** An object event of a streamed response, with the properties the
    pipeline inspects.  [ev_error] is the message of [event.error] (empty
    when the error carries none). *)
Record EventObj : Type := MkEvent {
  ev_error : option string;
  ev_type : option string;
  ev_delta : option Delta;
  ev_tool_delta : option string;
  ev_output_text : option string
}.

Inductive event : Type :=
| EvString (s : string)
| EvObject (o : EventObj).

(** How the compiler subprocess ends: it cannot be started (the [error]
    event, with [err.code] and [err.message]), or it exits with a status,
    having written [sp_stderr] and possibly the parser file. *)
Inductive SpawnResult : Type :=
| SpawnError (err_code : string) (err_message : string)
| SpawnExit (status : nat) (sp_stderr : string) (sp_parser : option string).

(** The mutable state the pipeline works on. *)
Record World : Type := MkWorld {
  files : gmap string FileData;          (* the file system *)
  GLOBAL_SAMPLE : string;                (* the module-level variable *)
  requests : list Request;               (* requests sent so far *)
  spawns : list (string * list string);  (* subprocesses started so far *)
  require_cache : gmap string string;    (* require.cache: path to source *)
  esm_cache : gmap string string;        (* import(): specifier to source *)
  clock_reads : nat;                     (* readings of the clock so far *)
  runs : list (string * string * string) (* runs of a sample so far *)
}.

(** The collaborators and the configuration, fixed during a run.  The
    oracles of the service and of the compiler take the number of earlier
    calls, so that a call can be answered differently each time. *)
Record Env : Type := MkEnv {
  environ : gmap string string;          (* process.env *)
  package_dir : string;                  (* the directory of index.js *)
  cwd : string;                          (* process.cwd() *)
  service_stream : nat -> Request -> string + list event;
  service_text : nat -> Request -> string + string * string;
  lark_js : nat -> string -> list string -> gmap string FileData -> SpawnResult;
  can_mkdir : string -> bool;            (* does fs.mkdir succeed *)
  can_write : string -> bool;            (* does fs.writeFile succeed *)
  date_now : nat -> nat;                 (* the n-th reading of the clock *)
  toISOString : nat -> string;
  parser_load : string -> string + bool; (* require: throws, or has get_parser? *)
  interp_import : string -> option string;   (* import(): the error, if any *)
  run_sample : string -> string -> string -> string + string
                                         (* makeRunner(get_parser) and run(sample):
                                            by parser source, interpreter
                                            source and sample *)
}.

Definition set_files (f : gmap string FileData) (w : World) : World :=
  MkWorld f (GLOBAL_SAMPLE w) (requests w) (spawns w) (require_cache w)
    (esm_cache w) (clock_reads w) (runs w).
Definition set_requests (r : list Request) (w : World) : World :=
  MkWorld (files w) (GLOBAL_SAMPLE w) r (spawns w) (require_cache w)
    (esm_cache w) (clock_reads w) (runs w).
Definition set_spawns (s : list (string * list string)) (w : World) : World :=
  MkWorld (files w) (GLOBAL_SAMPLE w) (requests w) s (require_cache w)
    (esm_cache w) (clock_reads w) (runs w).
Definition set_require_cache (c : gmap string string) (w : World) : World :=
  MkWorld (files w) (GLOBAL_SAMPLE w) (requests w) (spawns w) c
    (esm_cache w) (clock_reads w) (runs w).
Definition set_esm_cache (c : gmap string string) (w : World) : World :=
  MkWorld (files w) (GLOBAL_SAMPLE w) (requests w) (spawns w) (require_cache w)
    c (clock_reads w) (runs w).
Definition set_clock_reads (n : nat) (w : World) : World :=
  MkWorld (files w) (GLOBAL_SAMPLE w) (requests w) (spawns w) (require_cache w)
    (esm_cache w) n (runs w).
Definition set_runs (r : list (string * string * string)) (w : World) : World :=
  MkWorld (files w) (GLOBAL_SAMPLE w) (requests w) (spawns w) (require_cache w)
    (esm_cache w) (clock_reads w) r.

(** The state-and-outcome monad of the pipeline. *)
Definition M (A : Type) : Type := World -> Outcome A * World.

Definition ret {A} (a : A) : M A := fun w => (Returned a, w).
Definition throw {A} (e : JsError) : M A := fun w => (Thrown e, w).
Definition process_exit {A} (status : nat) : M A := fun w => (Exited status, w).
Definition bind {A B} (m : M A) (k : A -> M B) : M B :=
  fun w =>
    match m w with
    | (Returned a, w') => k a w'
    | (Thrown e, w') => (Thrown e, w')
    | (Exited s, w') => (Exited s, w')
    | (Blocked, w') => (Blocked, w')
    end.

(** [try { body } catch (error) { handler }] *)
Definition try_catch {A} (body : M A) (handler : JsError -> M A) : M A :=
  fun w =>
    match body w with
    | (Thrown e, w') => handler e w'
    | other => other
    end.

Notation "x <- m ;; k" := (bind m (fun x => k))
  (at level 62, m at next level, right associativity).
Notation "m ;;; k" := (bind m (fun _ => k))
  (at level 62, right associativity).

Definition get_world : M World := fun w => (Returned w, w).
Definition modify (f : World -> World) : M unit := fun w => (Returned tt, f w).

(** [path.join(dir, name)], without the normalisation of the result. *)
Definition path_join (dir name : string) : string := dir +:+ "/" +:+ name.

(** [Date.now()] *)
Definition Date_now (env : Env) : M nat :=
  fun w => (Returned (date_now env (clock_reads w)),
            set_clock_reads (S (clock_reads w)) w).

(** [fs.mkdir(dir, { recursive: true })] *)
Definition fs_mkdir (env : Env) (dir : string) : M unit :=
  if can_mkdir env dir then ret tt
  else throw (Error ("EACCES: permission denied, mkdir '" +:+ dir +:+ "'")).

(** [fs.readFile(path, 'utf8')] *)
Definition fs_readFile (path : string) : M FileData :=
  fun w =>
    match files w !! path with
    | Some d => (Returned d, w)
    | None =>
        (Thrown (Error ("ENOENT: no such file or directory, open '"
                        +:+ path +:+ "'")), w)
    end.

(** [fs.writeFile(path, data, 'utf8')] *)
Definition fs_writeFile (env : Env) (path : string) (d : FileData) : M unit :=
  if can_write env path then modify (fun w => set_files (<[path := d]> (files w)) w)
  else throw (Error ("EACCES: permission denied, open '" +:+ path +:+ "'")).

(** [fs.access(path)] as a test. *)
Definition fs_exists (path : string) : M bool :=
  fun w => (Returned (bool_decide (is_Some (files w !! path))), w).

(** [client.responses.create] with [stream: true] and with [stream: false]. *)
Definition create_stream (env : Env) (rq : Request) : M (list event) :=
  fun w =>
    let w' := set_requests (requests w ++ [rq]) w in
    match service_stream env (List.length (requests w)) rq with
    | inl msg => (Thrown (Error msg), w')
    | inr events => (Returned events, w')
    end.

Definition create_text (env : Env) (rq : Request) : M (string * string) :=
  fun w =>
    let w' := set_requests (requests w ++ [rq]) w in
    match service_text env (List.length (requests w)) rq with
    | inl msg => (Thrown (Error msg), w')
    | inr r => (Returned r, w')
    end.

(* ================================================================= *)
(** ** Configuration and cache helpers (lines 31-80) *)

Definition READ_FROM_CACHE (env : Env) : bool :=
  bool_decide (environ env !! "LANG_GEN_READ_CACHE" = Some "true").

Definition WRITE_TO_CACHE (env : Env) : bool :=
  negb (bool_decide (environ env !! "LANG_GEN_WRITE_CACHE" = Some "false")).

Definition CACHE_DIR (env : Env) : string :=
  or_else (default "" (environ env !! "LANG_GEN_CACHE_DIR"))
    (path_join (package_dir env) ".cache").

(** [process.env.OPENAI_MODEL || 'gpt-5'] *)
Definition model_of (env : Env) : string :=
  or_else (default "" (environ env !! "OPENAI_MODEL")) "gpt-5".

Definition cachePath (env : Env) (type : string) (input : json) : string :=
  path_join (CACHE_DIR env) (type +:+ "-" +:+ getCacheKey type input +:+ ".json").

(** [JSON.parse(data)] of a cache file. *)
Definition JSON_parse (d : FileData) : M CacheEntry :=
  match d with
  | CacheJson e => ret e
  | Text _ => throw (Error "Unexpected token in JSON")
  end.

Definition getCached (env : Env) (type : string) (input : json)
    : M (option CacheEntry) :=
  if negb (READ_FROM_CACHE env) then ret None
  else
    try_catch
      (fs_mkdir env (CACHE_DIR env) ;;;
       data <- fs_readFile (cachePath env type input) ;;
       e <- JSON_parse data ;;
       ret (Some e))
      (fun _ => ret None).

Definition saveCache (env : Env) (type : string) (input : json)
    (output : string) : M unit :=
  if negb (WRITE_TO_CACHE env) then ret tt
  else
    try_catch
      (fs_mkdir env (CACHE_DIR env) ;;;
       now <- Date_now env ;;
       fs_writeFile env (cachePath env type input)
         (CacheJson (MkEntry input output (toISOString env now))))
      (fun _ => ret tt).

(* ================================================================= *)
(** ** The fixed texts of the prompts *)

(** The strict Lark subset handed to the service as the output constraint
    (lines 84-130, a [String.raw] literal). *)
Definition LARK_SUBSET_STRICT : string :=
  "start: statement+

?statement: rule
          | token_rule
          | import_common
          | ignore_stmt

import_common: " +:+ dq +:+ "%import" +:+ dq +:+ " " +:+ dq +:+ "common" +:+ dq +:+ " " +:+ dq +:+ "." +:+ dq +:+ " NAME_UC          -> import_common
ignore_stmt: " +:+ dq +:+ "%ignore" +:+ dq +:+ " expansion

rule: NAME_LC " +:+ dq +:+ ":" +:+ dq +:+ " expansions                           -> rule
token_rule: NAME_UC " +:+ dq +:+ ":" +:+ dq +:+ " expansions                     -> token_rule

expansions: aliasable_expansion (" +:+ dq +:+ "|" +:+ dq +:+ " aliasable_expansion)*   -> alts
aliasable_expansion: expansion (" +:+ dq +:+ "->" +:+ dq +:+ " NAME_LC)?               -> alias
expansion: expr+                                             -> seq

?expr: atom quantifier*                                     -> quanted

quantifier: " +:+ dq +:+ "*" +:+ dq +:+ "
          | " +:+ dq +:+ "+" +:+ dq +:+ "
          | " +:+ dq +:+ "?" +:+ dq +:+ "
          | BOUNDED_REPEAT

?atom: NAME_LC                        -> ruleref
     | NAME_UC                        -> tokref
     | STRING                         -> literal
     | REGEXP                         -> pattern
     | " +:+ dq +:+ "(" +:+ dq +:+ " expansions " +:+ dq +:+ ")" +:+ dq +:+ "             -> group
     | " +:+ dq +:+ "[" +:+ dq +:+ " expansions " +:+ dq +:+ "]" +:+ dq +:+ "             -> opt_group
     | " +:+ dq +:+ "{" +:+ dq +:+ " expansions " +:+ dq +:+ "}" +:+ dq +:+ "             -> rep_group
     | " +:+ dq +:+ "." +:+ dq +:+ "                            -> any_terminal

NAME_LC: /[a-z_][a-z0-9_]*/
NAME_UC: /[A-Z_][A-Z0-9_]*/

STRING: /" +:+ dq +:+ "([^" +:+ dq +:+ "\\]|\\.)*" +:+ dq +:+ "|'([^'\\]|\\.)*'/
REGEXP: /\/(?:\\\/|\\.|[^\/\n])+\/[imslux]*/
BOUNDED_REPEAT: /~(?:[0-9]+)?\.\.(?:[0-9]+)?/

%import common.WS
%import common.CPP_COMMENT
%import common.C_COMMENT
%ignore WS
%ignore CPP_COMMENT
%ignore C_COMMENT
".

(** The fixed head of the instructions of [generateGrammar] (lines 231-263). *)
Definition grammar_instructions_base : string :=
  "
You are a CFG designer.

Task: Output EXACTLY ONE Lark grammar that defines a context-free grammar for the language described in the input.
The output MUST conform to a strict subset of Lark (validator provided via tool):
- Only: rules/tokens, groups (), optionals [], repetitions {}, postfix + ? * and bounded repeats ~min..max.
- Only " +:+ dq +:+ "%import common.*" +:+ dq +:+ " and " +:+ dq +:+ "%ignore" +:+ dq +:+ ".
- NO %declare, NO templates, NO terminal priorities.
- Regex terminals must avoid lookaround and lazy quantifiers; flags like i,m,s,l,u,x are fine.

Formatting requirements:
- Output ONLY the grammar text (no code fences, no prose).
- Provide a single entry rule named " +:+ dq +:+ "start" +:+ dq +:+ ".
- Use lowercase names for rules, UPPERCASE for tokens.
- Include " +:+ dq +:+ "%import common.WS" +:+ dq +:+ " and " +:+ dq +:+ "%ignore WS" +:+ dq +:+ " unless whitespace is significant.
- Prefer using aliases " +:+ dq +:+ "-> name" +:+ dq +:+ " on meaningful alternatives to guide AST shape.

CRITICAL for operator handling:
- Define operators as separate UPPERCASE tokens (e.g., ADD_OP: " +:+ dq +:+ "+" +:+ dq +:+ ", MUL_OP: " +:+ dq +:+ "*" +:+ dq +:+ ")
- DO NOT use inline literals like (" +:+ dq +:+ "+" +:+ dq +:+ " | " +:+ dq +:+ "-" +:+ dq +:+ ") in rules - these get discarded by the parser
- Example: Instead of: sum: product ((" +:+ dq +:+ "+" +:+ dq +:+ " | " +:+ dq +:+ "-" +:+ dq +:+ ") product)*
           Use: sum: product (ADD_OP product | SUB_OP product)*
                ADD_OP: " +:+ dq +:+ "+" +:+ dq +:+ "
                SUB_OP: " +:+ dq +:+ "-" +:+ dq +:+ "
- This ensures operators are preserved in the AST for the interpreter to handle

If the spec is underspecified, choose a reasonable minimal design rather than asking questions.

CRITICAL SYNTAX RULES:
- ALL string literals MUST use double quotes: " +:+ dq +:+ "string" +:+ dq +:+ " (NOT 'string')
- Quotes must be properly matched: " +:+ dq +:+ "^" +:+ dq +:+ " not " +:+ dq +:+ "^'
- Use standard operators: " +:+ dq +:+ "-" +:+ dq +:+ " for negation (not " +:+ dq +:+ "_" +:+ dq +:+ ")
- In patterns like (expr " +:+ dq +:+ "," +:+ dq +:+ " expr)*, use double quotes for the comma".

(** The requirements closing the instructions of [generateInterpreter]
    (lines 1090-1107) and, character for character, of both regeneration
    functions (lines 847-864 and 970-987). *)
Definition interpreter_requirements : string :=
  "Requirements for your output:
- Define ONLY an `evaluate(ast)` function that interprets the AST
- DO NOT include the run function or parser setup - that's handled by the prelude
- DO NOT try to parse or call get_parser - you only work with the AST
- The evaluate function should handle all node types from the grammar
- Use the node.type field to determine which rule/alias is being evaluated
- Token nodes have { type, value } structure
- Tree nodes have { type, children } structure
- No eval(), no network, deterministic, side-effect free (unless SEMANTICS says otherwise).
- Include helpful error messages for unknown node types.

CRITICAL for handling operators:
- Operators appear as token nodes in the children array between operands
- Check token.type (not token.value) for operator tokens like ADD_OP, SUB_OP, MUL_OP, DIV_OP
- Example: For " +:+ dq +:+ "1 + 2" +:+ dq +:+ ", the sum node will have children: [operand1, ADD_OP token, operand2]
- When processing binary operations, iterate through children finding alternating operands and operators

Keep the code idiomatic, readable, with small helpers for walking the AST.".

(** The list of common issues of both regeneration functions (lines
    838-846 and 961-969). *)
Definition common_issues : string :=
  "Common issues to avoid:
- The parser may not accept options like 'strict' or 'ordered_sets' - don't pass them
- Make sure to only pass supported options to get_parser: propagate_positions, transformer, tree_class, debug
- Ensure the evaluate function handles all AST node types properly
- Token nodes have { type, value } structure
- Tree nodes have { type, children } structure
- If the grammar requires semicolons at statement end, consider auto-adding them for convenience
- The evaluate function must return the final result, not undefined

".

(** The head of the instructions of [generateInterpreter] (lines 1081-1089). *)
Definition interpreter_instructions_head : string :=
  "
You write a self-contained JavaScript module that INTERPRETS programs written in a DSL.
Do NOT restate or explain anything; output ONLY code.

Input context:
- A Lark grammar (strict subset) that defines the DSL's syntax.
- An auto-derived AST shape description.
- A SEMANTICS description that defines what programs should DO.

".

(** The head of the instructions of [regenerateInterpreterWithFix] (lines
    952-960). *)
Definition fix_instructions_head (errorMessage sampleCode : string) : string :=
  "
You write a self-contained JavaScript module that INTERPRETS programs written in a DSL.
Do NOT restate or explain anything; output ONLY code.

CRITICAL: The previous interpreter failed with this error:
" +:+ errorMessage +:+ "

When testing with sample input: " +:+ dq +:+ sampleCode +:+ dq +:+ "

".

(** The head of the instructions of [regenerateInterpreterWithUserFix]
    (lines 819-837). *)
Definition user_fix_instructions_head (errorMessage sampleCode userInstructions currentCode : string) : string :=
  "
You write a self-contained JavaScript module that INTERPRETS programs written in a DSL.
Do NOT restate or explain anything; output ONLY code.

CRITICAL: The previous interpreter failed with this error:
" +:+ errorMessage +:+ "

When testing with sample input: " +:+ dq +:+ sampleCode +:+ dq +:+ "

USER'S FIX INSTRUCTIONS:
" +:+ userInstructions +:+ "

CURRENT INTERPRETER CODE THAT FAILED:
<<<CURRENT_CODE
" +:+ currentCode +:+ "
CURRENT_CODE>>>

The user has specifically requested the above fixes. Make sure to address their concerns while fixing the error.

".

(** The prompt of [generateInterpreter] (lines 1126-1144) and of both
    regeneration functions (lines 883-901 and 1006-1024). *)
Definition interpreter_prompt (grammarText astNotes semantics : string) : string :=
  "
GRAMMAR:
<<<LARK
" +:+ grammarText +:+ "
LARK>>>

AST NOTES (structure only):
" +:+ astNotes +:+ "

SEMANTICS (what the language should DO):
<<<SEM
" +:+ semantics +:+ "
SEM>>>

Write ONLY the evaluate function now. Output ONLY code. 
The function signature must be: function evaluate(ast) { ... }
DO NOT export anything - the prelude handles exports.
DO NOT create a run function - the prelude handles that.
Use AST node `type` strings from the notes above (prefer alias names if present).".

(** The prelude put before the synthesised code (lines 1160-1188, 916-944
    and 1039-1067). *)
Definition prelude : string :=
  "/* PRELUDE injected by lang-gen */
export function makeRunner(get_parser) {
  const parser = get_parser({ propagate_positions: true });
  
  function treeToJSON(node) {
    if (!node) return node;
    // Token (has type and value, but not data)
    if (node && node.type && 'value' in node && !('data' in node)) {
      return { type: node.type, value: node.value };
    }
    // Tree (has data and children)
    if (node && node.data && Array.isArray(node.children)) {
      const children = node.children.map(treeToJSON).filter(x => x !== undefined);
      return { type: node.data, children };
    }
    return node;
  }
  
  return async function run(input) {
    const cst = parser.parse(input);
    const ast = treeToJSON(cst);
    // User code below will define evaluate()
    const result = await evaluate(ast);
    return result;
  }
}

/* USER CODE BELOW */
".

(** The input of [generateExampleProgram] (lines 560-573). *)
Definition example_input (spec grammarText semantics : string) : string :=
  "Given this language specification and grammar, write a good example program.

Language specification: " +:+ spec +:+ "

Grammar:
" +:+ grammarText +:+ "

Semantics: " +:+ semantics +:+ "

The example should be:
- Clear and well-commented (if the language supports comments)
- Demonstrate the main features
- Be relatively short but meaningful
- Include expected output or result as a comment if possible".

(** The replacement for [get_parser] written by [compileGrammar] (lines
    447-463). *)
Definition newGetParser : string :=
  "function get_parser(options = {}) {
  if (
    options.transformer &&
    options.transformer.constructor.name === " +:+ dq +:+ "object" +:+ dq +:+ "
  ) {
    options.transformer = Transformer.fromObj(options.transformer);
  }

  // Filter out unsupported options from DATA
  const filteredData = JSON.parse(JSON.stringify(DATA));
  if (filteredData.options) {
    delete filteredData.options.strict;
    delete filteredData.options.ordered_sets;
  }

  return Lark._load_from_dict({ data: filteredData, memo: MEMO, ...options });
}".


(* ================================================================= *)
(** ** Consuming a streamed response (lines 301-328 and 597-619) *)

Definition delta_truthy (d : option Delta) : bool :=
  match d with
  | Some (DeltaText s) => truthy s
  | Some (DeltaObject _) => true
  | None => false
  end.

(** [text += event.delta] *)
Definition delta_string (d : option Delta) : string :=
  match d with
  | Some (DeltaText s) => s
  | Some (DeltaObject _) => "[object Object]"
  | None => ""
  end.

(** [event?.delta?.output_text] *)
Definition delta_output_text (d : option Delta) : string :=
  match d with
  | Some (DeltaObject (Some s)) => s
  | _ => ""
  end.

(** The text one object event contributes: the [if ... else if] chain of
    the loop body. *)
Definition chunk_of (o : EventObj) : string :=
  if bool_decide (ev_type o = Some "response.custom_tool_call_input.delta")
     && delta_truthy (ev_delta o)
  then delta_string (ev_delta o)
  else if truthy (default "" (ev_tool_delta o)) then default "" (ev_tool_delta o)
  else if truthy (default "" (ev_output_text o)) then default "" (ev_output_text o)
  else if truthy (delta_output_text (ev_delta o)) then delta_output_text (ev_delta o)
  else "".

(** [for await (const event of stream)]: the accumulated text, or the
    message of the error thrown at the first error event. *)
Fixpoint accumulate (fallback : string) (events : list event) (text : string)
    : string + string :=
  match events with
  | [] => inr text
  | EvString s :: rest => accumulate fallback rest (text +:+ s)
  | EvObject o :: rest =>
      match ev_error o with
      | Some msg => inl (or_else msg fallback)
      | None => accumulate fallback rest (text +:+ chunk_of o)
      end
  end.

(* ================================================================= *)
(** ** Step 1: [generateGrammar] (lines 211-377) *)

(** [singleQuotePattern], line 339: [(?<![/])] and the group ['[^']*'];
    flag [g]. *)
Definition singleQuotePattern : regex :=
  RSeq (RNotBehind (is_char "/"))
    (RGroup (RSeq (RChar SQ) (RSeq (RStar (not_char SQ)) (RChar SQ)))).

(** [mismatchedQuotes], line 346.  First alternative: a double quote, any
    run of characters other than a double quote, a single quote, and the
    negative look-ahead for such a run followed by a double quote.  Second
    alternative: the same with the two quotes exchanged.  Flag [g]. *)
Definition mismatchedQuotes : regex :=
  RAlt
    (RSeq (RChar DQ)
       (RSeq (RStar (not_char DQ))
          (RSeq (RChar SQ)
             (RNotAhead (RSeq (RStar (not_char DQ)) (RChar DQ))))))
    (RSeq (RChar SQ)
       (RSeq (RStar (not_char SQ))
          (RSeq (RChar DQ)
             (RNotAhead (RSeq (RStar (not_char SQ)) (RChar SQ)))))).

(** The quick syntax checks of lines 336-350. *)
Definition syntaxErrors (grammarText : string) : list string :=
  match js_match singleQuotePattern grammarText with
  | Some matches =>
      ["Found single quotes in grammar: " +:+ join ", " (firstn 3 matches)
       +:+ (if (3 <? List.length matches)%nat then "..." else "")
       +:+ ". Use double quotes instead."]
  | None => []
  end ++
  match js_match mismatchedQuotes grammarText with
  | Some mismatches =>
      ["Found mismatched quotes: " +:+ join ", " (firstn 3 mismatches)]
  | None => []
  end.

(** The local validation of lines 334-361: the message of the error it
    throws, if any. *)
Definition validateGrammar (grammarText : string) : option string :=
  if truthy grammarText then
    match syntaxErrors grammarText with
    | [] => None
    | errs => Some ("Grammar syntax errors: " +:+ join "; " errs)
    end
  else Some "Generated grammar is empty".

(** [previousErrors.forEach((err, i) => ...)], lines 273-275. *)
Fixpoint attempts_text (i : nat) (previousErrors : list string) : string :=
  match previousErrors with
  | [] => ""
  | err :: rest =>
      "Attempt " +:+ show_nat (i + 1) +:+ ": " +:+ err +:+ nl
      +:+ attempts_text (S i) rest
  end.

(** The instructions of one attempt, lines 231-277. *)
Definition grammar_instructions (sample : string) (previousErrors : list string)
    : string :=
  grammar_instructions_base
  +:+ (if truthy sample then
         nl +:+ nl +:+ "EXAMPLE PROGRAM TO SUPPORT:" +:+ nl
         +:+ "The grammar must be able to parse this example:" +:+ nl
         +:+ sample +:+ nl
         +:+ "Make sure your grammar handles all the constructs shown in this example."
       else "")
  +:+ (if (0 <? List.length previousErrors)%nat then
         nl +:+ nl +:+ "PREVIOUS ATTEMPTS FAILED WITH THESE ERRORS:" +:+ nl
         +:+ attempts_text 0 previousErrors
         +:+ nl +:+ "Please fix these specific issues in your grammar."
       else "").

Definition grammar_input (spec sample : string) : string :=
  "Language description:" +:+ nl +:+ spec
  +:+ (if truthy sample then
         nl +:+ nl +:+ "Example program that must be parseable:" +:+ nl +:+ sample
       else "").

Definition lark_grammar_tool : Tool :=
  MkTool "lark_grammar"
    "Emit exactly one Lark grammar (strict subset) for the described language."
    LARK_SUBSET_STRICT.

Definition grammar_request (env : Env) (spec sample : string)
    (previousErrors : list string) : Request :=
  MkRequest (model_of env) true (grammar_instructions sample previousErrors)
    (grammar_input spec sample) (Some lark_grammar_tool).

(** The cache input [{ spec }]. *)
Definition grammar_cache_input (spec : string) : json :=
  JObject [("spec", JString spec)].

(** The [try] block of one attempt, lines 279-361. *)
Definition grammar_attempt (env : Env) (spec : string)
    (previousErrors : list string) : M string :=
  w <- get_world ;;
  stream <- create_stream env
              (grammar_request env spec (GLOBAL_SAMPLE w) previousErrors) ;;
  match accumulate "Grammar generation failed" stream "" with
  | inl msg => throw (Error msg)
  | inr text =>
      let grammarText := trim text in
      match validateGrammar grammarText with
      | Some msg => throw (Error msg)
      | None =>
          saveCache env "grammar" (grammar_cache_input spec) grammarText ;;;
          ret grammarText
      end
  end.

(** The loop [while (attempts < maxRetries)], lines 222-374, followed by
    the [throw] of line 376.  [remaining] is [maxRetries - attempts], the
    number of iterations the loop condition still allows; the one-second
    pause before a retry has no effect on the world. *)
Fixpoint grammar_loop (env : Env) (spec : string) (maxRetries remaining : nat)
    (attempts : nat) (previousErrors : list string) : M string :=
  match remaining with
  | O => throw (Error "Failed to generate grammar: max retries exceeded")
  | S remaining' =>
      let attempts := S attempts in
      try_catch (grammar_attempt env spec previousErrors)
        (fun error =>
           let previousErrors := previousErrors ++ [message error] in
           if (maxRetries <=? attempts)%nat then
             throw (Error ("Failed to generate valid grammar after "
                           +:+ show_nat maxRetries
                           +:+ " attempts. Last error: " +:+ message error))
           else
             grammar_loop env spec maxRetries remaining' attempts previousErrors)
  end.

Definition generateGrammar (env : Env) (spec : string) (maxRetries : nat)
    : M string :=
  cached <- getCached env "grammar" (grammar_cache_input spec) ;;
  match cached with
  | Some entry => ret (ce_output entry)
  | None => grammar_loop env spec maxRetries maxRetries 0 []
  end.

(* ================================================================= *)
(** ** Step 4: [generateExampleProgram] (lines 545-632) *)

Definition example_cache_input (spec grammarText semantics : string) : json :=
  JObject [("spec", JString spec); ("grammarText", JString grammarText);
           ("semantics", JString semantics)].

Definition example_instructions (sample : string) : string :=
  "You are a code example writer." +:+ nl
  +:+ "Output ONLY example code that conforms to the provided grammar." +:+ nl
  +:+ "The example should demonstrate the key features of the language."
  +:+ (if truthy sample then
         nl +:+ nl +:+ "USE THIS AS INSPIRATION:" +:+ nl
         +:+ "Here's an example of the kind of program this language should support:"
         +:+ nl +:+ sample
       else "").

Definition example_request (env : Env) (spec grammarText semantics sample : string)
    : Request :=
  MkRequest (model_of env) true (example_instructions sample)
    (example_input spec grammarText semantics)
    (Some (MkTool "example_program"
             "Generate an example program that conforms to the provided grammar"
             grammarText)).

Definition example_fallback (spec : string) : string :=
  "// Example program for " +:+ spec +:+ nl
  +:+ "// (Auto-generation failed, using fallback)" +:+ nl +:+ nl
  +:+ "// Add your code here" +:+ nl.

Definition generateExampleProgram (env : Env) (spec grammarText semantics : string)
    : M string :=
  let cacheInput := example_cache_input spec grammarText semantics in
  cached <- getCached env "example" cacheInput ;;
  match cached with
  | Some entry => ret (ce_output entry)
  | None =>
      try_catch
        (w <- get_world ;;
         stream <- create_stream env
                     (example_request env spec grammarText semantics
                        (GLOBAL_SAMPLE w)) ;;
         match accumulate "Example generation failed" stream "" with
         | inl msg => throw (Error msg)
         | inr text =>
             let exampleCode := trim text in
             saveCache env "example" cacheInput exampleCode ;;;
             ret exampleCode
         end)
        (fun _ => ret (example_fallback spec))
  end.

(* ================================================================= *)
(** ** Step 5: [generateInterpreter] and the two regenerations *)

Definition schema_json (schema : Schema) : json :=
  JObject [("rules", strings_json (rules schema));
           ("tokens", strings_json (tokens schema));
           ("aliases", strings_json (aliases schema));
           ("nodeTypes", strings_json (nodeTypes schema))].

Definition interpreter_cache_input (grammarText : string) (schema : Schema)
    (semantics : string) : json :=
  JObject [("grammarText", JString grammarText); ("schema", schema_json schema);
           ("semantics", JString semantics)].

(** [astNotes], lines 1114-1124 (and 871-881, 994-1004). *)
Definition astNotes (schema : Schema) : json :=
  JObject
    [("node_kinds",
      strings_json
        ["Tree nodes use rule or alias names as `type`";
         "Token leaves use `{ type: TOKEN_NAME, value: '...' }`";
         "Sequences appear as `children: [...]` in order"]);
     ("entry", JString "start");
     ("rules", strings_json (rules schema));
     ("tokens", strings_json (tokens schema));
     ("preferred_node_types", strings_json (nodeTypes schema))].

(** [instructions += ...] on a binding declared with [const]: reached
    when [GLOBAL_SAMPLE] is not empty, it throws a [TypeError] (lines
    867-869, 990-992 and 1110-1112). *)
Definition append_sample_to_const : M unit :=
  w <- get_world ;;
  if truthy (GLOBAL_SAMPLE w)
  then throw (Error "Assignment to constant variable.")
  else ret tt.

(** [response.output_text || response.output || ''] followed by
    [prelude + '\n' + code]. *)
Definition with_prelude (response : string * string) : string :=
  let code := or_else (fst response) (or_else (snd response) "") in
  prelude +:+ nl +:+ code.

Definition interpreter_request (env : Env) (instructions grammarText : string)
    (schema : Schema) (semantics : string) : Request :=
  MkRequest (model_of env) false instructions
    (interpreter_prompt grammarText (JSON_pretty "" (astNotes schema)) semantics)
    None.

Definition generateInterpreter (env : Env) (grammarText : string)
    (schema : Schema) (semantics : string) : M string :=
  let cacheInput := interpreter_cache_input grammarText schema semantics in
  cached <- getCached env "interpreter" cacheInput ;;
  match cached with
  | Some entry => ret (ce_output entry)
  | None =>
      append_sample_to_const ;;;
      response <- create_text env
                    (interpreter_request env
                       (interpreter_instructions_head +:+ interpreter_requirements)
                       grammarText schema semantics) ;;
      let fullCode := with_prelude response in
      saveCache env "interpreter" cacheInput fullCode ;;;
      ret fullCode
  end.

(** The request of [regenerateInterpreterWithUserFix] (lines 816-910). *)
Definition user_fix_request (env : Env) (grammarText : string) (schema : Schema)
    (semantics errorMessage sampleCode currentCode userInstructions : string)
    : Request :=
  interpreter_request env
    (user_fix_instructions_head errorMessage sampleCode userInstructions currentCode
     +:+ common_issues +:+ interpreter_requirements)
    grammarText schema semantics.

Definition regenerateInterpreterWithUserFix (env : Env) (grammarText : string)
    (schema : Schema)
    (semantics errorMessage sampleCode currentCode userInstructions : string)
    : M string :=
  append_sample_to_const ;;;
  response <- create_text env
                (user_fix_request env grammarText schema semantics errorMessage
                   sampleCode currentCode userInstructions) ;;
  ret (with_prelude response).

(** The request of [regenerateInterpreterWithFix] (lines 949-1033). *)
Definition fix_request (env : Env) (grammarText : string) (schema : Schema)
    (semantics errorMessage sampleCode : string) : Request :=
  interpreter_request env
    (fix_instructions_head errorMessage sampleCode
     +:+ common_issues +:+ interpreter_requirements)
    grammarText schema semantics.

Definition regenerateInterpreterWithFix (env : Env) (grammarText : string)
    (schema : Schema) (semantics errorMessage sampleCode : string) : M string :=
  append_sample_to_const ;;;
  response <- create_text env
                (fix_request env grammarText schema semantics errorMessage
                   sampleCode) ;;
  ret (with_prelude response).

(* ================================================================= *)
(** ** Step 2: [compileGrammar] (lines 380-519) *)

(** [getParserRegex], line 446: the text [function get_parser(options = {}) {],
    a lazy run of any characters, the text of the [return] statement, a
    lazy run of any characters, and a closing brace. *)
Definition getParserRegex : regex :=
  RSeq (RLit "function get_parser(options = {}) {")
    (RSeq (RStarLazy any_char)
       (RSeq (RLit "return Lark._load_from_dict({ data: DATA, memo: MEMO, ...options });")
          (RSeq (RStarLazy any_char) (RChar "}")))).

Record CompileResult : Type := MkCompileResult {
  grammarFile : string;
  parserFile : string
}.

(** The rewrite of the parser after a successful compile, lines 442-470:
    a failure to read or write the file is reported and swallowed. *)
Definition rewrite_parser (content : string) : string :=
  js_replace getParserRegex newGetParser content.

Definition fix_parser (env : Env) (parserFile : string) : M unit :=
  try_catch
    (data <- fs_readFile parserFile ;;
     fs_writeFile env parserFile (Text (rewrite_parser (file_text data))))
    (fun _ => ret tt).

(** One run of the compiler, lines 424-488: the promise resolves with the
    two paths or rejects with an error carrying the grammar text. *)
Definition run_lark_js (env : Env) (larkJsCommand : string)
    (paths : CompileResult) (grammarText : string) : M CompileResult :=
  fun w =>
    let args := [grammarFile paths; "-o"; parserFile paths] in
    let w1 := set_spawns (spawns w ++ [(larkJsCommand, args)]) w in
    match lark_js env (List.length (spawns w)) larkJsCommand args (files w) with
    | SpawnError err_code err_message =>
        (Thrown (MkError
                   (if String.eqb err_code "ENOENT"
                    then "lark-js not found. Run: npm run postinstall (or ./setup.sh)"
                    else err_message)
                   None (Some grammarText) None), w1)
    | SpawnExit status sp_stderr sp_parser =>
        let w2 :=
          match sp_parser with
          | Some c => set_files (<[parserFile paths := Text c]> (files w1)) w1
          | None => w1
          end in
        if (status =? 0)%nat then
          (fix_parser env (parserFile paths) ;;; ret paths) w2
        else
          (Thrown (MkError ("lark-js exited with code " +:+ show_nat status)
                     (Some sp_stderr) (Some grammarText) None), w2)
    end.

(** The retry loop, lines 416-512, and the final error, lines 514-518.
    [remaining] is [maxRetries - attempts]. *)
Fixpoint compile_loop (env : Env) (larkJsCommand : string)
    (paths : CompileResult) (grammarText : string) (maxRetries remaining : nat)
    (lastError : option JsError) : M CompileResult :=
  match remaining with
  | O =>
      match lastError with
      | Some e =>
          throw (MkError ("Grammar compilation failed after "
                          +:+ show_nat maxRetries
                          +:+ " attempts. Last error: " +:+ message e)
                   None (Some grammarText) (Some e))
      | None =>
          throw (Error "Cannot read properties of null (reading 'message')")
      end
  | S remaining' =>
      try_catch (run_lark_js env larkJsCommand paths grammarText)
        (fun error =>
           compile_loop env larkJsCommand paths grammarText maxRetries
             remaining' (Some error))
  end.

(** The choice of the command, lines 389-411. *)
Definition choose_lark_js (env : Env) : M string :=
  let venvPath := path_join (path_join (path_join (cwd env) "venv") "bin") "lark-js" in
  let packageVenvPath :=
    path_join (path_join (path_join (package_dir env) "venv") "bin") "lark-js" in
  here <- fs_exists venvPath ;;
  if here : bool then ret venvPath
  else
    there <- fs_exists packageVenvPath ;;
    if there : bool then ret packageVenvPath else ret "lark-js".

Definition compileGrammar (env : Env) (grammarText outputDir : string)
    (maxRetries : nat) : M CompileResult :=
  let paths := MkCompileResult (path_join outputDir "grammar.lark")
                 (path_join outputDir "parser.cjs") in
  fs_mkdir env outputDir ;;;
  fs_writeFile env (grammarFile paths) (Text grammarText) ;;;
  larkJsCommand <- choose_lark_js env ;;
  compile_loop env larkJsCommand paths grammarText maxRetries maxRetries None.

(* ================================================================= *)
(** ** Step 5: [testGeneratedCode] (lines 635-799) *)

(** What [testGeneratedCode] resolves to: [{ success: true, result }],
    [{ success: false, error }] with or without [continued: true], or
    [undefined] when the function body ends without a [return]. *)
Inductive TestResult : Type :=
| Success (result : string)
| Failure (error : string) (continued : bool)
| Undefined.

(** [delete require.cache[path]] *)
Definition delete_require_cache (path : string) : M unit :=
  modify (fun w => set_require_cache (delete path (require_cache w)) w).

(** [require(path)]: the cached instance if there is one, else the file
    is loaded and cached.  A module instance is identified by the source
    it was loaded from. *)
Definition require_module (env : Env) (path : string) : M (string * bool) :=
  fun w =>
    let load (src : string) (w' : World) : Outcome (string * bool) * World :=
      match parser_load env src with
      | inl msg => (Thrown (Error msg), w')
      | inr has_get_parser => (Returned (src, has_get_parser), w')
      end in
    match require_cache w !! path with
    | Some src => load src w
    | None =>
        match files w !! path with
        | Some d =>
            load (file_text d)
              (set_require_cache (<[path := file_text d]> (require_cache w)) w)
        | None => (Thrown (Error ("Cannot find module '" +:+ path +:+ "'")), w)
        end
    end.

(** [await import(path + '?t=' + Date.now())]: the module registry is
    keyed by the whole specifier. *)
Definition import_module (env : Env) (path : string) : M string :=
  now <- Date_now env ;;
  let specifier := path +:+ "?t=" +:+ show_nat now in
  fun w =>
    match esm_cache w !! specifier with
    | Some src => (Returned src, w)
    | None =>
        match files w !! path with
        | Some d =>
            match interp_import env (file_text d) with
            | Some msg => (Thrown (Error msg), w)
            | None =>
                (Returned (file_text d),
                 set_esm_cache (<[specifier := file_text d]> (esm_cache w)) w)
            end
        | None => (Thrown (Error ("Cannot find module '" +:+ path +:+ "'")), w)
        end
    end.

(** [makeRunner(get_parser)] followed by [await run(sampleCode)]. *)
Definition run_modules (env : Env) (parser_src interp_src sampleCode : string)
    : M string :=
  fun w =>
    let w' := set_runs (runs w ++ [(parser_src, interp_src, sampleCode)]) w in
    match run_sample env parser_src interp_src sampleCode with
    | inl msg => (Thrown (Error msg), w')
    | inr result => (Returned result, w')
    end.

Definition absolute (env : Env) (file : string) : string :=
  if String.prefix "/" file then file else path_join (cwd env) file.

(** The [try] block of lines 642-666. *)
Definition first_test (env : Env) (absoluteParserFile absoluteInterpreterFile
    sampleCode : string) : M TestResult :=
  delete_require_cache absoluteParserFile ;;;
  parserModule <- require_module env absoluteParserFile ;;
  (if snd parserModule : bool then ret tt
   else throw (Error "Parser module missing get_parser function")) ;;;
  interp <- import_module env absoluteInterpreterFile ;;
  result <- run_modules env (fst parserModule) interp sampleCode ;;
  ret (Success result).

(** The evaluation of [makeRunnerFixed(get_parser)] in the [catch] block
    (lines 721 and 775).  [get_parser] is declared with [const] inside
    the [try] block (line 652) and no enclosing scope binds that name, so
    evaluating the argument throws a [ReferenceError]; the two statements
    after it ([runFixed(sampleCode)] and the [return] of the success) are
    never reached. *)
Definition makeRunnerFixed_get_parser {A} : M A :=
  throw (Error "get_parser is not defined").

(** The [try] block of one fix attempt, lines 698-725 and 754-779, after
    the regeneration that [regenerate] stands for. *)
Definition fix_attempt (env : Env) (regenerate : M string)
    (absoluteParserFile absoluteInterpreterFile : string) : M TestResult :=
  fixedCode <- regenerate ;;
  fs_writeFile env absoluteInterpreterFile (Text fixedCode) ;;;
  delete_require_cache absoluteParserFile ;;;
  import_module env absoluteInterpreterFile ;;;
  makeRunnerFixed_get_parser.

(** [for (let attempt = 1; attempt <= maxRetries; attempt++)] around a fix
    attempt: [on_exhausted] is what the [catch] block does when
    [attempt === maxRetries].  [remaining] is [maxRetries - attempt + 1];
    a loop that ends without a [return] leaves the function result
    [undefined].  [stdin] holds the console lines not yet read. *)
Fixpoint fix_loop (env : Env) (regenerate : M string)
    (absoluteParserFile absoluteInterpreterFile : string)
    (stdin : list string) (remaining : nat)
    (on_exhausted : JsError -> M (TestResult * list string))
    : M (TestResult * list string) :=
  match remaining with
  | O => ret (Undefined, stdin)
  | S remaining' =>
      try_catch
        (r <- fix_attempt env regenerate absoluteParserFile
                absoluteInterpreterFile ;;
         ret (r, stdin))
        (fun fixError =>
           match remaining' with
           | O => on_exhausted fixError
           | S _ =>
               fix_loop env regenerate absoluteParserFile absoluteInterpreterFile
                 stdin remaining' on_exhausted
           end)
  end.

(** [testGeneratedCode].  [stdin] holds the lines the operator will type;
    [promptUser] takes the next one and trims it (line 811), and blocks
    when there is none.  The function returns the lines left with its
    result. *)
Fixpoint testGeneratedCode (env : Env) (stdin : list string)
    (parserFile interpreterFile sampleCode spec grammarText : string)
    (schema : Schema) (semantics : string) (maxRetries : nat)
    : M (TestResult * list string) :=
  let absoluteParserFile := absolute env parserFile in
  let absoluteInterpreterFile := absolute env interpreterFile in
  try_catch
    (r <- first_test env absoluteParserFile absoluteInterpreterFile sampleCode ;;
     ret (r, stdin))
    (fun error =>
       current <- fs_readFile absoluteInterpreterFile ;;
       let currentInterpreterCode := file_text current in
       match stdin with
       | [] => fun w => (Blocked, w)
       | line1 :: stdin1 =>
           let choice := trim line1 in
           if String.eqb choice "1" then
             match stdin1 with
             | [] => fun w => (Blocked, w)
             | line2 :: stdin2 =>
                 let userInstructions := trim line2 in
                 fix_loop env
                   (regenerateInterpreterWithUserFix env grammarText schema
                      semantics (message error) sampleCode
                      currentInterpreterCode userInstructions)
                   absoluteParserFile absoluteInterpreterFile stdin2 maxRetries
                   (fun fixError =>
                      match stdin2 with
                      | [] => fun w => (Blocked, w)
                      | line3 :: stdin3 =>
                          let retryChoice := trim line3 in
                          if String.eqb retryChoice "1" then
                            testGeneratedCode env stdin3 parserFile
                              interpreterFile sampleCode spec grammarText
                              schema semantics maxRetries
                          else if String.eqb retryChoice "2" then
                            ret (Failure (message fixError) true, stdin3)
                          else process_exit 1
                      end)
             end
           else if String.eqb choice "2" then
             fix_loop env
               (regenerateInterpreterWithFix env grammarText schema semantics
                  (message error) sampleCode)
               absoluteParserFile absoluteInterpreterFile stdin1 maxRetries
               (fun fixError => ret (Failure (message fixError) false, stdin1))
           else if String.eqb choice "3" then
             ret (Failure (message error) true, stdin1)
           else process_exit 1
       end).

(* ================================================================= *)
(** ** The first two steps of [main] (lines 1221-1228 and 1376-1382) *)

(** [main] generates the grammar and then compiles it, both with the
    default retry bound; any error ends the process with status 1. *)
Definition main_grammar_then_parser (env : Env) (spec outputDir : string)
    : M CompileResult :=
  try_catch
    (grammarText <- generateGrammar env spec 3 ;;
     compileGrammar env grammarText outputDir 3)
    (fun _ => process_exit 1).

(* ================================================================= *)
(** ** The command line: [parseArgs] and [readStdin] (lines 133-208) *)

(** What the process is started with: [process.argv]; whether the
    standard input is a terminal; what the standard input delivers (the
    lines the operator types at a terminal, or the chunks of a piped
    input up to its end); and whether [fs.chmod] succeeds on a file. *)
Record Process : Type := MkProcess {
  argv : list string;
  stdin_isTTY : bool;
  stdin_data : list string;
  can_chmod : string -> bool
}.

(** The object [result] of [parseArgs]. *)
Record Args : Type := MkArgs {
  args_spec : string;
  args_semantics : string;
  args_sample : string;
  args_output : string;
  args_vscode : bool;
  args_languageId : string;
  args_languageName : string;
  args_fileExtension : string
}.

Definition set_spec (v : string) (r : Args) : Args :=
  MkArgs v (args_semantics r) (args_sample r) (args_output r) (args_vscode r)
    (args_languageId r) (args_languageName r) (args_fileExtension r).
Definition set_semantics (v : string) (r : Args) : Args :=
  MkArgs (args_spec r) v (args_sample r) (args_output r) (args_vscode r)
    (args_languageId r) (args_languageName r) (args_fileExtension r).
Definition set_sample (v : string) (r : Args) : Args :=
  MkArgs (args_spec r) (args_semantics r) v (args_output r) (args_vscode r)
    (args_languageId r) (args_languageName r) (args_fileExtension r).
Definition set_output (v : string) (r : Args) : Args :=
  MkArgs (args_spec r) (args_semantics r) (args_sample r) v (args_vscode r)
    (args_languageId r) (args_languageName r) (args_fileExtension r).
Definition set_vscode (v : bool) (r : Args) : Args :=
  MkArgs (args_spec r) (args_semantics r) (args_sample r) (args_output r) v
    (args_languageId r) (args_languageName r) (args_fileExtension r).
Definition set_languageId (v : string) (r : Args) : Args :=
  MkArgs (args_spec r) (args_semantics r) (args_sample r) (args_output r)
    (args_vscode r) v (args_languageName r) (args_fileExtension r).
Definition set_languageName (v : string) (r : Args) : Args :=
  MkArgs (args_spec r) (args_semantics r) (args_sample r) (args_output r)
    (args_vscode r) (args_languageId r) v (args_fileExtension r).
Definition set_fileExtension (v : string) (r : Args) : Args :=
  MkArgs (args_spec r) (args_semantics r) (args_sample r) (args_output r)
    (args_vscode r) (args_languageId r) (args_languageName r) v.

(** The initial [result], lines 135-144. *)
Definition initial_args : Args := MkArgs "" "" "" "./output" false "" "" "".

(** The loop of lines 146-195 from index [i] on, [args] being the
    arguments from that index.  A flag that takes a value is recognised
    only when an argument follows it ([i + 1 < args.length]), and that
    argument is consumed ([args[++i]]); [--help] and [-h] print the usage
    and end the process with status 0. *)
Fixpoint parse_from (args : list string) (result : Args) : M Args :=
  match args with
  | [] => ret result
  | arg :: rest =>
      match String.eqb arg "--spec", rest with
      | true, value :: rest' => parse_from rest' (set_spec value result)
      | _, _ =>
      match String.eqb arg "--semantics", rest with
      | true, value :: rest' => parse_from rest' (set_semantics value result)
      | _, _ =>
      match String.eqb arg "--sample", rest with
      | true, value :: rest' => parse_from rest' (set_sample value result)
      | _, _ =>
      match String.eqb arg "--output", rest with
      | true, value :: rest' => parse_from rest' (set_output value result)
      | _, _ =>
      if String.eqb arg "--vscode" then parse_from rest (set_vscode true result)
      else
      match String.eqb arg "--lang-id", rest with
      | true, value :: rest' => parse_from rest' (set_languageId value result)
      | _, _ =>
      match String.eqb arg "--lang-name", rest with
      | true, value :: rest' => parse_from rest' (set_languageName value result)
      | _, _ =>
      match String.eqb arg "--file-ext", rest with
      | true, value :: rest' => parse_from rest' (set_fileExtension value result)
      | _, _ =>
      if String.eqb arg "--help" || String.eqb arg "-h" then process_exit 0
      else parse_from rest result
      end end end end end end end
  end.

(** [parseArgs]: the loop over [process.argv.slice(2)]. *)
Definition parseArgs (p : Process) : M Args :=
  parse_from (skipn 2 (argv p)) initial_args.

(** [readStdin]: nothing at a terminal; otherwise the whole input, read
    to its end and trimmed. *)
Definition readStdin (p : Process) : string :=
  if stdin_isTTY p then "" else trim (String.concat "" (stdin_data p)).

(** The lines left for [promptUser] once [readStdin] is done: those typed
    at a terminal, none after a piped input has been read to its end. *)
Definition console_lines (p : Process) : list string :=
  if stdin_isTTY p then stdin_data p else [].

(* ================================================================= *)
(** ** [main] (lines 1199-1384) *)

(** [s.toLowerCase()] on ASCII letters. *)
Definition lower_char (c : ascii) : ascii :=
  if in_range 65 90 c then ascii_of_nat (code c + 32) else c.

Fixpoint toLowerCase (s : string) : string :=
  match s with
  | EmptyString => EmptyString
  | String c s' => String (lower_char c) (toLowerCase s')
  end.

(** [s.replace(re, by)] for a [g]-flagged expression [re] that is one
    character class: every character of the class is replaced, [by c]
    being the replacement for the character [c]. *)
Fixpoint replace_chars (class : ascii -> bool) (by_ : ascii -> string) (s : string)
    : string :=
  match s with
  | EmptyString => EmptyString
  | String c s' =>
      (if class c then by_ c else String c EmptyString) +:+ replace_chars class by_ s'
  end.

(** [s.split(c)] for a separator of one character. *)
Fixpoint split_on (sep : ascii) (s : string) : list string :=
  match s with
  | EmptyString => [EmptyString]
  | String c s' =>
      if Ascii.eqb c sep then EmptyString :: split_on sep s'
      else
        match split_on sep s' with
        | piece :: pieces => String c piece :: pieces
        | [] => [String c EmptyString]
        end
  end.

(** [s.slice(0, n)] and [s.slice(0, -n)]. *)
Definition slice_to (n : nat) (s : string) : string := String.substring 0 n s.
Definition slice_but_last (n : nat) (s : string) : string :=
  String.substring 0 (String.length s - n) s.

(** The identifiers derived from the specification when the command line
    gives none (lines 1241-1243). *)
Definition derived_languageId (spec : string) : string :=
  slice_to 10
    (replace_chars (fun c => negb (in_range 97 122 c || in_range 48 57 c))
       (fun _ => "") (toLowerCase spec)).

Definition derived_languageName (spec : string) : string :=
  join " " (firstn 3 (split_on " " spec)).

(** The timestamp of the extension folder (line 1246). *)
Definition folder_timestamp (iso : string) : string :=
  slice_but_last 5
    (replace_chars (fun c => is_char ":" c || is_char "." c) (fun _ => "-") iso).

(** The argument and the result of [generateVSCodeExtension], which
    [main] imports from [vscode-extension.js].  A property that the
    caller may leave out is optional. *)
Record ExtensionOptions : Type := MkExtensionOptions {
  opt_grammarText : string;
  opt_languageId : string;
  opt_languageName : string;
  opt_fileExtension : string;
  opt_outputDir : string;
  opt_description : option string;
  opt_version : option string;
  opt_exampleProgram : option string;
  opt_interpreterPath : option string;
  opt_parserPath : option string;
  opt_spec : option string
}.

Record ExtensionFiles : Type := MkExtensionFiles {
  ef_packageJson : string;
  ef_grammar : string;
  ef_languageConfig : string;
  ef_readme : string;
  ef_launchJson : string
}.

Record ExtensionResult : Type := MkExtensionResult {
  extensionDir : string;
  exampleFile : option string;
  ext_files : ExtensionFiles
}.

(** The text of the command-line runner written by [main] (lines
    1310-1358). *)
Definition runnerCode (spec fileExtension : string) : string :=
  "#!/usr/bin/env node
// Standalone CLI runner for " +:+ spec +:+ "
// Usage: ./run.mjs " +:+ dq +:+ "code" +:+ dq +:+ " or ./run.mjs file." +:+ or_else fileExtension "txt" +:+ "

import { createRequire } from 'module';
import { readFileSync, existsSync } from 'fs';
import { resolve } from 'path';

const require = createRequire(import.meta.url);
const parserModule = require('./parser.cjs');
const { makeRunner } = await import('./interpreter.mjs');

const get_parser = parserModule.get_parser || parserModule.default?.get_parser;
if (!get_parser) {
  console.error('Error: Parser module missing get_parser function');
  process.exit(1);
}

const run = makeRunner(get_parser);

// Get input from command line
let input;
if (process.argv.length < 3) {
  console.error('Usage: ./run.mjs " +:+ dq +:+ "code" +:+ dq +:+ " or ./run.mjs file.ext');
  process.exit(1);
}

const arg = process.argv[2];
// Check if it's a file
if (existsSync(arg)) {
  input = readFileSync(arg, 'utf8');
  console.error(`Running file: ${arg}`);
} else {
  // Treat as inline code
  input = arg;
  console.error(`Running code: ${arg}`);
}

try {
  const result = await run(input);
  console.log(JSON.stringify(result, null, 2));
} catch (error) {
  console.error('Error:', error.message);
  if (error.stack) {
    console.error(error.stack);
  }
  process.exit(1);
}
".

(** [GLOBAL_SAMPLE = ...] *)
Definition set_GLOBAL_SAMPLE (s : string) (w : World) : World :=
  MkWorld (files w) s (requests w) (spawns w) (require_cache w) (esm_cache w)
    (clock_reads w) (runs w).

(** [fs.chmod(path, mode)]; the mode of a file is not part of the world. *)
Definition fs_chmod (p : Process) (path : string) : M unit :=
  fun w =>
    match files w !! path with
    | Some _ =>
        if can_chmod p path then (Returned tt, w)
        else (Thrown (Error ("EPERM: operation not permitted, chmod '"
                             +:+ path +:+ "'")), w)
    | None =>
        (Thrown (Error ("ENOENT: no such file or directory, chmod '"
                        +:+ path +:+ "'")), w)
    end.

(** The reading of [testResult.success] (line 1294), which throws when
    the test resolved to [undefined]. *)
Definition read_success (r : TestResult) : M bool :=
  match r with
  | Success _ => ret true
  | Failure _ _ => ret false
  | Undefined =>
      throw (Error "Cannot read properties of undefined (reading 'success')")
  end.

Section Main.

(** [generateVSCodeExtension], imported from [vscode-extension.js]. *)
Variable generateVSCodeExtension : ExtensionOptions -> M ExtensionResult.

(** Step 4 of [main], lines 1237-1271, when [--vscode] is given. *)
Definition main_vscode (env : Env) (args : Args)
    (spec semantics outputDir grammarText : string) : M ExtensionResult :=
  let languageId := or_else (args_languageId args) (derived_languageId spec) in
  let languageName := or_else (args_languageName args) (derived_languageName spec) in
  let fileExtension := or_else (args_fileExtension args) (slice_to 3 languageId) in
  now <- Date_now env ;;
  let timestamp := folder_timestamp (toISOString env now) in
  let extensionsDir := path_join (cwd env) "extensions" in
  let extensionOutputDir := path_join extensionsDir ("vscode-" +:+ timestamp) in
  exampleProgram <- generateExampleProgram env spec grammarText semantics ;;
  generateVSCodeExtension
    (MkExtensionOptions grammarText languageId languageName fileExtension
       extensionOutputDir
       (Some (languageName +:+ " language support (generated)"))
       None
       (Some exampleProgram)
       (Some (path_join outputDir "interpreter.mjs"))
       (Some (path_join outputDir "parser.cjs"))
       (Some spec)).

(** [main].  The messages it prints are not part of the world. *)
Definition main (env : Env) (p : Process) : M unit :=
  args <- parseArgs p ;;
  let stdinContent := readStdin p in
  let spec :=
    or_else (args_spec args)
      "A tiny calculator (integers, + - * /, parentheses, unary minus)" in
  let semantics :=
    or_else (args_semantics args)
      (or_else stdinContent "Evaluate expressions to a number") in
  let outputDir := args_output args in
  modify (set_GLOBAL_SAMPLE (or_else (args_sample args) "")) ;;;
  if negb (truthy (default "" (environ env !! "OPENAI_API_KEY"))) then process_exit 1
  else
    try_catch
      (grammarText <- generateGrammar env spec 3 ;;
       paths <- compileGrammar env grammarText outputDir 3 ;;
       let schema := extractASTSchema grammarText in
       (if args_vscode args
        then main_vscode env args spec semantics outputDir grammarText ;;; ret tt
        else ret tt) ;;;
       interpreterCode <- generateInterpreter env grammarText schema semantics ;;
       let interpreterFile := path_join outputDir "interpreter.mjs" in
       fs_writeFile env interpreterFile (Text interpreterCode) ;;;
       let testSample := or_else (args_sample args) "1+2*3;" in
       testResult <- testGeneratedCode env (console_lines p) (parserFile paths)
                       interpreterFile testSample spec grammarText schema
                       semantics 3 ;;
       read_success (fst testResult) ;;;
       let runnerFile := path_join outputDir "run.mjs" in
       fs_writeFile env runnerFile
         (Text (runnerCode spec (args_fileExtension args))) ;;;
       fs_chmod p runnerFile)
      (fun _ => process_exit 1).

End Main.

(* ================================================================= *)
(** ** [vscode-extension.js]: the fallback grammar (lines 1458-1626) *)

(** [.], [\w], and the assertions [$] under the [m] flag, [^] and [$]
    without it, written with the look-around of the matcher. *)
Definition dot (c : ascii) : bool := negb (is_line_terminator c).
Definition word_char (c : ascii) : bool :=
  in_range 97 122 c || in_range 65 90 c || in_range 48 57 c || is_char "_" c.
Definition REol : regex := RNotAhead (RClass dot).
Definition RStart : regex := RNotBehind any_char.
Definition REnd : regex := RNotAhead (RClass any_char).

(** The two expressions of lines 1467 and 1495: [^], a name, [\s*:\s*],
    the group [(.+)] and [$]; flags [gm].  The matcher keeps one capture,
    so the expression is written once with its first group capturing
    ([on_name]) and once with its second. *)
Definition definition_line (first more : ascii -> bool) (on_name : bool) : regex :=
  let name := RSeq (RClass first) (RStar more) in
  let definition := RSeq (RClass dot) (RStar dot) in
  RSeq RBol
    (RSeq (if on_name then RGroup name else name)
       (RSeq (RStar is_space)
          (RSeq (RChar ":")
             (RSeq (RStar is_space)
                (RSeq (if on_name then definition else RGroup definition) REol))))).

(** The captures of the successive matches of an [exec] loop. *)
Definition captures (r : regex) (text : string) : list string :=
  map (fun m => default "" (m_group m)) (match_all r text).

(** [const [, name, definition] = match] for each match of the loop. *)
Definition definitions_of (first more : ascii -> bool) (text : string)
    : list (string * string) :=
  combine (captures (definition_line first more true) text)
    (captures (definition_line first more false) text).

(** [s.lastIndexOf(c)] for a character that occurs in [s]. *)
Fixpoint lastIndexOf_from (c : ascii) (s : string) (i last : nat) : nat :=
  match s with
  | EmptyString => last
  | String a s' => lastIndexOf_from c s' (S i) (if Ascii.eqb a c then i else last)
  end.

Definition lastIndexOf (c : ascii) (s : string) : nat := lastIndexOf_from c s 0 0.

(** [s.substring(a, b)], which exchanges its arguments when [a > b]. *)
Definition js_substring (a b : nat) (s : string) : string :=
  String.substring (Nat.min a b) (Nat.max a b - Nat.min a b) s.

(** [s.slice(1, -1)] *)
Definition slice_middle (s : string) : string :=
  String.substring 1 (String.length s - 2) s.

(** [s.replace(/\\\//g, '/')]: every backslash followed by a slash
    becomes a slash. *)
Fixpoint unescape_slashes (s : string) : string :=
  match s with
  | EmptyString => EmptyString
  | String c s' =>
      match s' with
      | String c' rest =>
          if Ascii.eqb c backslash && Ascii.eqb c' "/"
          then String "/" (unescape_slashes rest)
          else String c (unescape_slashes s')
      | EmptyString => String c EmptyString
      end
  end.

(** The class of lines 1488, 1589 and 1602: the characters
    [. * + ? ^ $ { } ( ) | [ ] \]. *)
Definition regex_special (c : ascii) : bool :=
  is_char "." c || is_char "*" c || is_char "+" c || is_char "?" c
  || is_char "^" c || is_char "$" c || is_char "{" c || is_char "}" c
  || is_char "(" c || is_char ")" c || is_char "|" c || is_char "[" c
  || is_char "]" c || is_char backslash c.

(** [s.replace(/[.*+?^${}()|[\]\\]/g, '\\$&')] *)
Definition escape_regex (s : string) : string :=
  replace_chars regex_special (fun c => String backslash (String c EmptyString)) s.

(** The pattern kept for a token, lines 1474-1489. *)
Definition token_pattern (definition : string) : string :=
  let pattern := trim definition in
  if String.prefix "/" pattern && includes pattern "/" then
    let endIdx := lastIndexOf "/" pattern in
    unescape_slashes (js_substring 1 endIdx pattern)
  else if String.prefix dq pattern || String.prefix sq pattern then
    escape_regex (slice_middle pattern)
  else pattern.

(** [tokens], as pairs of a name and a pattern. *)
Definition tm_tokens (grammarText : string) : list (string * string) :=
  map (fun nd : string * string => (fst nd, token_pattern (snd nd)))
    (definitions_of uc_start uc_rest grammarText).

(** [stringRe], line 1501: a double-quoted or a single-quoted run of at
    least one character; flag [g].  Only one of its two groups takes part
    in a match, and [stringMatch[1] || stringMatch[2]] is that one. *)
Definition stringRe : regex :=
  RAlt
    (RSeq (RChar DQ)
       (RSeq (RGroup (RSeq (RClass (not_char DQ)) (RStar (not_char DQ)))) (RChar DQ)))
    (RSeq (RChar SQ)
       (RSeq (RGroup (RSeq (RClass (not_char SQ)) (RStar (not_char SQ)))) (RChar SQ))).

(** The tests of lines 1506 and 1510. *)
Definition keywordRe : regex :=
  RSeq RStart
    (RSeq (RClass (fun c => in_range 97 122 c || in_range 65 90 c || is_char "_" c))
       (RSeq (RStar word_char) REnd)).

Definition operator_char (c : ascii) : bool :=
  is_char "+" c || is_char "-" c || is_char "*" c || is_char "/" c
  || is_char "%" c || is_char "=" c || is_char "<" c || is_char ">" c
  || is_char "!" c || is_char "&" c || is_char "|" c || is_char "^" c
  || is_char "~" c.

Definition operatorRe : regex :=
  RSeq RStart (RSeq (RClass operator_char) (RSeq (RStar operator_char) REnd)).

(** [re.test(s)] for an expression without [g]. *)
Definition js_test (r : regex) (s : string) : bool :=
  match search r None "" s with
  | Some _ => true
  | None => false
  end.

(** The string literals of the definitions of the rules, in the order in
    which the two nested loops of lines 1496-1514 visit them. *)
Definition rule_literals (grammarText : string) : list string :=
  flat_map (fun nd : string * string => captures stringRe (snd nd))
    (definitions_of lc_start lc_rest grammarText).

Definition tm_keywords (grammarText : string) : list string :=
  filter (fun k => js_test keywordRe k) (rule_literals grammarText).

Definition tm_operators (grammarText : string) : list string :=
  filter (fun k => negb (js_test keywordRe k) && js_test operatorRe k)
    (rule_literals grammarText).

(** [[...new Set(xs)]] *)
Definition unique (xs : list string) : list string := fold_left set_add xs [].

(** The predicates of the three [tokens.find] calls. *)
Definition is_comment_token (t : string * string) : bool :=
  includes (fst t) "COMMENT" || includes (snd t) "//" || includes (snd t) "/*".
Definition is_number_token (t : string * string) : bool :=
  includes (fst t) "NUMBER" || includes (fst t) "INT" || includes (fst t) "FLOAT"
  || includes (snd t) "\d".
Definition is_string_token (t : string * string) : bool :=
  includes (fst t) "STRING" || includes (snd t) dq || includes (snd t) sq.

(** The patterns of the fallback grammar, lines 1526-1615. *)
Definition line_comment_pattern : json :=
  JObject [("name", JString "comment.line.double-slash"); ("match", JString "//.*$")].
Definition block_comment_pattern : json :=
  JObject [("name", JString "comment.block"); ("begin", JString "/\*");
           ("end", JString "\*/")].
Definition number_pattern : json :=
  JObject [("name", JString "constant.numeric");
           ("match", JString "\b\d+(\.\d+)?([eE][+-]?\d+)?\b")].
Definition escape_pattern : json :=
  JObject [("name", JString "constant.character.escape"); ("match", JString "\\.")].
Definition double_string_pattern : json :=
  JObject [("name", JString "string.quoted.double"); ("begin", JString dq);
           ("end", JString dq); ("patterns", JArray [escape_pattern])].
Definition single_string_pattern : json :=
  JObject [("name", JString "string.quoted.single"); ("begin", JString sq);
           ("end", JString sq); ("patterns", JArray [escape_pattern])].
Definition keyword_pattern (keywords : list string) : json :=
  JObject [("name", JString "keyword.control");
           ("match", JString ("\b(" +:+ join "|" (map escape_regex (unique keywords))
                              +:+ ")\b"))].
Definition operator_pattern (operators : list string) : json :=
  JObject [("name", JString "keyword.operator");
           ("match", JString (join "|" (map escape_regex (unique operators))))].
Definition identifier_pattern : json :=
  JObject [("name", JString "variable.other"); ("match", JString "\b[a-zA-Z_]\w*\b")].

Definition tm_patterns (grammarText : string) : list json :=
  let tokens := tm_tokens grammarText in
  let keywords := tm_keywords grammarText in
  let operators := tm_operators grammarText in
  match List.find is_comment_token tokens with
  | Some commentToken =>
      (if includes (snd commentToken) "//" then [line_comment_pattern] else [])
      ++ (if includes (snd commentToken) "/*" then [block_comment_pattern] else [])
  | None => []
  end
  ++ match List.find is_number_token tokens with
     | Some _ => [number_pattern]
     | None => []
     end
  ++ match List.find is_string_token tokens with
     | Some _ => [double_string_pattern; single_string_pattern]
     | None => []
     end
  ++ (if (0 <? List.length keywords)%nat then [keyword_pattern keywords] else [])
  ++ (if (0 <? List.length operators)%nat then [operator_pattern operators] else [])
  ++ [identifier_pattern].

Definition larkToTextMateBasic (grammarText languageId languageName : string) : json :=
  JObject [("name", JString languageName);
           ("scopeName", JString ("source." +:+ languageId));
           ("patterns", JArray (tm_patterns grammarText));
           ("repository", JObject [])].

(* ================================================================= *)
(** ** [vscode-extension.js]: [generateTextMateGrammar] (lines 1402-1456) *)

(** A value as [JSON.parse] builds it.  A number is kept by the text
    [JSON.stringify] prints for it; an object lists its properties in the
    order of their enumeration. *)
#[warnings="-register-all"]
Inductive jsvalue : Type :=
| VNull
| VBool (b : bool)
| VNumber (printed : string)
| VString (s : string)
| VArray (items : list jsvalue)
| VObject (fields : list (string * jsvalue)).

(** A value built by the code itself, as such a value. *)
Fixpoint to_value (v : json) : jsvalue :=
  match v with
  | JString s => VString s
  | JArray items => VArray (map to_value items)
  | JObject fields =>
      VObject (map (fun kv : string * json => (fst kv, to_value (snd kv))) fields)
  end.

(** [JSON.stringify(v, null, 2)] of such a value. *)
Fixpoint value_pretty (ind : string) (v : jsvalue) : string :=
  match v with
  | VNull => "null"
  | VBool b => if b then "true" else "false"
  | VNumber printed => printed
  | VString s => quote s
  | VArray [] => "[]"
  | VArray items =>
      "[" +:+ nl +:+ ind +:+ "  " +:+
      separated (value_pretty (ind +:+ "  ")) ("," +:+ nl +:+ ind +:+ "  ") items
      +:+ nl +:+ ind +:+ "]"
  | VObject [] => "{}"
  | VObject fields =>
      "{" +:+ nl +:+ ind +:+ "  " +:+
      separated (fun kv : string * jsvalue =>
                   let (k, x) := kv in
                   quote k +:+ ": " +:+ value_pretty (ind +:+ "  ") x)
        ("," +:+ nl +:+ ind +:+ "  ") fields
      +:+ nl +:+ ind +:+ "}"
  end.

(** Truthiness: [null], [false], zero and the empty string are falsy. *)
Definition value_truthy (v : jsvalue) : bool :=
  match v with
  | VNull => false
  | VBool b => b
  | VNumber printed => negb (String.eqb printed "0")
  | VString s => truthy s
  | VArray _ | VObject _ => true
  end.

(** [fields[key]] and [fields[key] = v] on the properties of an object: a
    new property comes last, an old one keeps its place. *)
Fixpoint get_field (key : string) (fields : list (string * jsvalue))
    : option jsvalue :=
  match fields with
  | [] => None
  | (k, v) :: rest => if String.eqb k key then Some v else get_field key rest
  end.

Fixpoint set_field (key : string) (v : jsvalue) (fields : list (string * jsvalue))
    : list (string * jsvalue) :=
  match fields with
  | [] => [(key, v)]
  | (k, old) :: rest =>
      if String.eqb k key then (k, v) :: rest else (k, old) :: set_field key v rest
  end.

(** [if (!parsed[key]) parsed[key] = v] on the properties of an object. *)
Definition set_if_falsy (key : string) (v : jsvalue)
    (fields : list (string * jsvalue)) : list (string * jsvalue) :=
  match get_field key fields with
  | Some old => if value_truthy old then fields else set_field key v fields
  | None => set_field key v fields
  end.

(** Lines 1441-1445 on the parsed value.  Reading a property of [null]
    throws; so does, in a module, creating a property on a number, a
    string or a boolean, which have none of the three; an array takes the
    three properties without [JSON.stringify] ever showing them. *)
Definition ensure_required_fields (languageId languageName : string)
    (parsed : jsvalue) : option jsvalue :=
  match parsed with
  | VObject fields =>
      Some (VObject
              (set_if_falsy "patterns" (VArray [])
                 (set_if_falsy "scopeName" (VString ("source." +:+ languageId))
                    (set_if_falsy "name" (VString languageName) fields))))
  | VArray items => Some (VArray items)
  | VNull | VBool _ | VNumber _ | VString _ => None
  end.

Definition textmate_instructions : string :=
  "You are a TextMate grammar expert.
Generate a complete TextMate grammar (JSON format) for VSCode syntax highlighting.
Output ONLY the JSON grammar, no explanations or markdown.".

Definition textmate_input (grammarText languageId languageName spec : string) : string :=
  "Generate a TextMate grammar for this language:

Language spec: " +:+ spec +:+ "
Language ID: " +:+ languageId +:+ "
Language name: " +:+ languageName +:+ "
Scope name: source." +:+ languageId +:+ "

Lark grammar:
" +:+ grammarText +:+ "

Requirements:
- Include patterns for all tokens and keywords from the grammar
- Use standard TextMate scopes (comment.line, keyword.control, constant.numeric, string.quoted, etc.)
- Support nested patterns where appropriate
- Include repository definitions for reusable patterns
- Make sure operators, keywords, strings, numbers, comments are all properly highlighted".

Definition textmate_request (env : Env)
    (grammarText languageId languageName spec : string) : Request :=
  MkRequest (model_of env) false textmate_instructions
    (textmate_input grammarText languageId languageName spec) None.

Section Extension.

(** [JSON.parse] of a text: the value, or nothing when it throws. *)
Variable JSON_parse_text : string -> option jsvalue.

Definition generateTextMateGrammar (env : Env)
    (grammarText languageId languageName spec : string) : M jsvalue :=
  try_catch
    (response <- create_text env
                   (textmate_request env grammarText languageId languageName spec) ;;
     let grammarJson := or_else (fst response) (or_else (snd response) "{}") in
     match JSON_parse_text grammarJson with
     | Some parsed =>
         match ensure_required_fields languageId languageName parsed with
         | Some grammar => ret grammar
         | None =>
             ret (to_value (larkToTextMateBasic grammarText languageId languageName))
         end
     | None =>
         ret (to_value (larkToTextMateBasic grammarText languageId languageName))
     end)
    (fun _ => ret (to_value (larkToTextMateBasic grammarText languageId languageName))).

(* ================================================================= *)
(** ** [vscode-extension.js]: [generateVSCodeExtension] (lines 1628-1850) *)

Definition packageJson (languageId languageName fileExtension description version
    : string) : json :=
  JObject
    [("name", JString (languageId +:+ "-syntax"));
     ("displayName", JString (languageName +:+ " Syntax"));
     ("description", JString description);
     ("version", JString version);
     ("publisher", JString "lang-gen");
     ("engines", JObject [("vscode", JString "^1.74.0")]);
     ("categories", JArray [JString "Programming Languages"]);
     ("contributes",
      JObject
        [("languages",
          JArray
            [JObject
               [("id", JString languageId);
                ("aliases", JArray [JString languageName]);
                ("extensions", JArray [JString ("." +:+ fileExtension)]);
                ("configuration", JString "./language-configuration.json")]]);
         ("grammars",
          JArray
            [JObject
               [("language", JString languageId);
                ("scopeName", JString ("source." +:+ languageId));
                ("path", JString ("./syntaxes/" +:+ languageId
                                  +:+ ".tmLanguage.json"))]])])].

Definition pair_json (open close : string) : json :=
  JObject [("open", JString open); ("close", JString close)].

Definition closing_pairs : json :=
  JArray [pair_json "{" "}"; pair_json "[" "]"; pair_json "(" ")";
          pair_json dq dq; pair_json sq sq].

Definition languageConfig : json :=
  JObject
    [("comments",
      JObject [("lineComment", JString "//");
               ("blockComment", JArray [JString "/*"; JString "*/"])]);
     ("brackets",
      JArray [JArray [JString "{"; JString "}"];
              JArray [JString "["; JString "]"];
              JArray [JString "("; JString ")"]]);
     ("autoClosingPairs", closing_pairs);
     ("surroundingPairs", closing_pairs)].

Definition launchJson : json :=
  JObject
    [("version", JString "0.2.0");
     ("configurations",
      JArray
        [JObject
           [("name", JString "Extension");
            ("type", JString "extensionHost");
            ("request", JString "launch");
            ("args",
             JArray [JString "--extensionDevelopmentPath=${workspaceFolder}"])]])].

Definition readme (languageId languageName fileExtension : string) : string :=
  "# " +:+ languageName +:+ " Syntax Highlighting

This extension provides syntax highlighting for " +:+ languageName +:+ " files (`." +:+ fileExtension +:+ "`).

## Features

- Syntax highlighting for " +:+ languageName +:+ "
- Automatic bracket matching
- Comment toggling support

## Installation

1. Copy this folder to your VSCode extensions directory:
   - Windows: `%USERPROFILE%\.vscode\extensions`
   - macOS/Linux: `~/.vscode/extensions`
2. Restart VSCode
3. Open any `." +:+ fileExtension +:+ "` file to see syntax highlighting

## Building from source

```bash
# Package the extension
npx vsce package

# Install the generated .vsix file
code --install-extension " +:+ languageId +:+ "-syntax-*.vsix
```

Generated by lang-gen.
".

Definition vscodeignore : string :=
  "
.vscode/**
.gitignore
".

Definition testRunner (languageName fileExtension parserPath interpreterPath : string)
    : string :=
  "#!/usr/bin/env node
// Test runner for " +:+ languageName +:+ " examples

import { createRequire } from 'module';
import { readFileSync } from 'fs';
import { join } from 'path';

const require = createRequire(import.meta.url);

// Load the parser and interpreter
const parserModule = require('" +:+ parserPath +:+ "');
const { makeRunner } = await import('" +:+ interpreterPath +:+ "');

const get_parser = parserModule.get_parser || parserModule.default?.get_parser;
if (!get_parser) {
  throw new Error('Parser module missing get_parser function');
}

const run = makeRunner(get_parser);

// Run the example
const examplePath = join(import.meta.dirname, 'example." +:+ fileExtension +:+ "');
const code = readFileSync(examplePath, 'utf8');

console.log('Running example." +:+ fileExtension +:+ ":');
console.log('---');
console.log(code);
console.log('---
');

try {
  const result = await run(code);
  console.log('Result:', JSON.stringify(result, null, 2));
} catch (error) {
  console.error('Error:', error.message);
  process.exit(1);
}
".

Definition generateVSCodeExtension (env : Env) (p : Process)
    (options : ExtensionOptions) : M ExtensionResult :=
  let grammarText := opt_grammarText options in
  let languageId := opt_languageId options in
  let languageName := opt_languageName options in
  let fileExtension := opt_fileExtension options in
  let outputDir := opt_outputDir options in
  let description :=
    default (languageName +:+ " language support") (opt_description options) in
  let version := default "0.1.0" (opt_version options) in
  let exampleProgram := default "" (opt_exampleProgram options) in
  let interpreterPath := default "" (opt_interpreterPath options) in
  let parserPath := default "" (opt_parserPath options) in
  let spec := default "" (opt_spec options) in
  let extDir := outputDir in
  let syntaxDir := path_join extDir "syntaxes" in
  let vscodeDir := path_join extDir ".vscode" in
  let examplesDir := path_join extDir "examples" in
  fs_mkdir env extDir ;;;
  fs_mkdir env syntaxDir ;;;
  fs_mkdir env vscodeDir ;;;
  fs_mkdir env examplesDir ;;;
  textMateGrammar <- generateTextMateGrammar env grammarText languageId
                       languageName spec ;;
  let grammarFile := path_join syntaxDir (languageId +:+ ".tmLanguage.json") in
  fs_writeFile env grammarFile (Text (value_pretty "" textMateGrammar)) ;;;
  fs_writeFile env (path_join extDir "package.json")
    (Text (JSON_pretty ""
             (packageJson languageId languageName fileExtension description
                version))) ;;;
  fs_writeFile env (path_join extDir "language-configuration.json")
    (Text (JSON_pretty "" languageConfig)) ;;;
  fs_writeFile env (path_join extDir "README.md")
    (Text (readme languageId languageName fileExtension)) ;;;
  fs_writeFile env (path_join extDir ".vscodeignore") (Text (trim vscodeignore)) ;;;
  fs_writeFile env (path_join vscodeDir "launch.json")
    (Text (JSON_pretty "" launchJson)) ;;;
  exampleFile <-
    (if truthy exampleProgram then
       let exampleFile := path_join examplesDir ("example." +:+ fileExtension) in
       fs_writeFile env exampleFile (Text exampleProgram) ;;;
       (if truthy interpreterPath && truthy parserPath then
          fs_writeFile env (path_join examplesDir "run.mjs")
            (Text (testRunner languageName fileExtension parserPath
                     interpreterPath)) ;;;
          fs_chmod p (path_join examplesDir "run.mjs")
        else ret tt) ;;;
       ret (Some exampleFile)
     else ret None) ;;
  ret (MkExtensionResult extDir exampleFile
         (MkExtensionFiles (path_join extDir "package.json") grammarFile
            (path_join extDir "language-configuration.json")
            (path_join extDir "README.md")
            (path_join vscodeDir "launch.json"))).

End Extension.

(* ================================================================= *)
(** * Definitions used to state the properties *)

(* ================================================================= *)
(** ** Properties of texts, values and requests *)

(** Does [c] occur in [s]? *)
Fixpoint has_char (c : ascii) (s : string) : bool :=
  match s with
  | EmptyString => false
  | String a s' => Ascii.eqb a c || has_char c s'
  end.

(** Do all characters of [s] satisfy [p]? *)
Fixpoint all_chars (p : ascii -> bool) (s : string) : bool :=
  match s with
  | EmptyString => true
  | String a s' => p a && all_chars p s'
  end.

(** The character before the position reached after reading [run]. *)
Fixpoint last_char (prev : option ascii) (run : string) : option ascii :=
  match run with
  | EmptyString => prev
  | String a run' => last_char (Some a) run'
  end.

(** Is there a match of [r] somewhere in [s]? *)
Definition matches_somewhere (r : regex) (s : string) : Prop :=
  exists s1 s2, s = s1 +:+ s2 /\ is_Some (match_here r (last_char None s1) s2).

(** The text has a single-quoted span whose opening quote does not
    directly follow a slash. *)
Definition unslashed_single_quotes (s : string) : Prop :=
  exists a b c,
    s = a +:+ String SQ (b +:+ String SQ c) /\ last_char None a <> Some "/"%char.

(** The text has a pair of quotes opened in one style and closed in the
    other. *)
Definition mismatched_quoting (s : string) : Prop :=
  exists a b c,
    s = a +:+ String DQ (b +:+ String SQ c) \/
    s = a +:+ String SQ (b +:+ String DQ c).

(** One alternative of [mismatchedQuotes]: opened by [q1], closed by [q2]. *)
Definition mismatch_alt (q1 q2 : ascii) : regex :=
  RSeq (RChar q1)
    (RSeq (RStar (not_char q1))
       (RSeq (RChar q2)
          (RNotAhead (RSeq (RStar (not_char q1)) (RChar q1))))).

(** The claim's condition on single quotes, read off the token
    definitions [STRING] and [REGEXP] of [LARK_SUBSET_STRICT]: scanning
    from the left, a slash opens a regex pattern that the next unescaped
    slash closes, a double quote opens a literal that the next unescaped
    double quote closes, and a single quote met outside both opens a
    single-quoted literal, which is complete at the next unescaped single
    quote. *)
Inductive lex_mode : Type := Plain | InRegex | InDouble | InSingle.

Fixpoint single_quoted_literal_outside_regex_from (mode : lex_mode)
    (escaped : bool) (s : string) : bool :=
  match s with
  | EmptyString => false
  | String c s' =>
      if escaped then single_quoted_literal_outside_regex_from mode false s'
      else if Ascii.eqb c backslash then
        single_quoted_literal_outside_regex_from mode
          (match mode with Plain => false | _ => true end) s'
      else
        match mode with
        | Plain =>
            single_quoted_literal_outside_regex_from
              (if Ascii.eqb c "/" then InRegex
               else if Ascii.eqb c DQ then InDouble
               else if Ascii.eqb c SQ then InSingle
               else Plain) false s'
        | InRegex =>
            single_quoted_literal_outside_regex_from
              (if Ascii.eqb c "/" || Ascii.eqb c LF then Plain else InRegex)
              false s'
        | InDouble =>
            single_quoted_literal_outside_regex_from
              (if Ascii.eqb c DQ then Plain else InDouble) false s'
        | InSingle =>
            if Ascii.eqb c SQ then true
            else single_quoted_literal_outside_regex_from InSingle false s'
        end
  end.

Definition single_quoted_literal_outside_regex (s : string) : bool :=
  single_quoted_literal_outside_regex_from Plain false s.

(** Reading back one escaped character from the front of a text: the
    inverse of [esc_char], used to show that escaping loses nothing. *)
Definition hex_value (c : ascii) : nat :=
  if in_range 48 57 c then code c - 48 else code c - 87.

Definition unesc_char (s : string) : option (ascii * string) :=
  match s with
  | String c rest =>
      if Ascii.eqb c backslash then
        match rest with
        | String e rest' =>
            if Ascii.eqb e "u" then
              match rest' with
              | String _ (String _ (String h (String l rest''))) =>
                  Some (ascii_of_nat (16 * hex_value h + hex_value l), rest'')
              | _ => None
              end
            else
              Some (if Ascii.eqb e "b" then "008"%char
                    else if Ascii.eqb e "f" then "012"%char
                    else if Ascii.eqb e "n" then LF
                    else if Ascii.eqb e "r" then CR
                    else if Ascii.eqb e "t" then "009"%char
                    else e, rest')
        | EmptyString => None
        end
      else if Ascii.eqb c DQ then None
      else Some (c, rest)
  | EmptyString => None
  end.

(** Two objects with the same fields and values, listed in any order. *)
Definition same_fields_any_order (v1 v2 : json) : Prop :=
  exists fs1 fs2, v1 = JObject fs1 /\ v2 = JObject fs2 /\ fs1 ≡ₚ fs2.

(** The claim's reading of the final error: it lists the message of every
    attempt. *)
Definition enumerates (final : string) (msgs : list string) : bool :=
  forallb (includes final) msgs.

(** Does the request carry the text [x], in its instructions or in its
    input? *)
Definition uses (rq : Request) (x : string) : bool :=
  includes (req_instructions rq) x || includes (req_input rq) x.

(** The part of the instructions of [regenerateInterpreterWithUserFix]
    that [regenerateInterpreterWithFix] does not have (lines 828-836). *)
Definition user_fix_block (userInstructions currentCode : string) : string :=
  "USER'S FIX INSTRUCTIONS:" +:+ nl +:+ userInstructions +:+ nl +:+ nl
  +:+ "CURRENT INTERPRETER CODE THAT FAILED:" +:+ nl
  +:+ "<<<CURRENT_CODE" +:+ nl +:+ currentCode +:+ nl +:+ "CURRENT_CODE>>>"
  +:+ nl +:+ nl
  +:+ "The user has specifically requested the above fixes. Make sure to address their concerns while fixing the error."
  +:+ nl +:+ nl.

(* ================================================================= *)
(** ** Runs of the stages *)

Definition requested (rq : Request) (w : World) : World :=
  set_requests (requests w ++ [rq]) w.

(** The world after [saveCache]. *)
Definition saved (env : Env) (type : string) (input : json) (output : string)
    (w : World) : World :=
  if WRITE_TO_CACHE env && can_mkdir env (CACHE_DIR env) then
    let w1 := set_clock_reads (S (clock_reads w)) w in
    if can_write env (cachePath env type input) then
      set_files
        (<[cachePath env type input :=
             CacheJson (MkEntry input output
                          (toISOString env (date_now env (clock_reads w))))]>
           (files w1)) w1
    else w1
  else w.

(** The cache entry a lookup finds, if any. *)
Definition cache_lookup (env : Env) (type : string) (input : json) (w : World)
    : option CacheEntry :=
  match fst (getCached env type input w) with
  | Returned o => o
  | _ => None
  end.

(** What one attempt of [generateGrammar] comes to, as a function of the
    service's answer to its request: the message of the error it throws,
    or the grammar text it accepts. *)
Definition attempt_outcome (env : Env) (spec sample : string) (k : nat)
    (previousErrors : list string) : string + string :=
  match service_stream env k (grammar_request env spec sample previousErrors) with
  | inl msg => inl msg
  | inr events =>
      match accumulate "Grammar generation failed" events "" with
      | inl msg => inl msg
      | inr text =>
          match validateGrammar (trim text) with
          | Some msg => inl msg
          | None => inr (trim text)
          end
      end
  end.

(** The attempt consumed a whole stream and failed the local validation:
    the message recorded for it. *)
Definition validation_failure (env : Env) (spec sample : string) (k : nat)
    (previousErrors : list string) : option string :=
  match service_stream env k (grammar_request env spec sample previousErrors) with
  | inl _ => None
  | inr events =>
      match accumulate "Grammar generation failed" events "" with
      | inl _ => None
      | inr text => validateGrammar (trim text)
      end
  end.

(** [n] attempts in a row, from the [k]-th request on, all fail the local
    validation: their messages. *)
Fixpoint failing_validations (env : Env) (spec sample : string) (n k : nat)
    (previousErrors : list string) : option (list string) :=
  match n with
  | O => Some []
  | S n' =>
      match validation_failure env spec sample k previousErrors with
      | Some msg =>
          option_map (cons msg)
            (failing_validations env spec sample n' (S k) (previousErrors ++ [msg]))
      | None => None
      end
  end.

(** The requests of [n] failing attempts whose messages are [msgs]. *)
Fixpoint retry_requests (env : Env) (spec sample : string)
    (previousErrors msgs : list string) : list Request :=
  match msgs with
  | [] => []
  | msg :: rest =>
      grammar_request env spec sample previousErrors
      :: retry_requests env spec sample (previousErrors ++ [msg]) rest
  end.

Definition exhausted_message (maxRetries : nat) (last_error : string) : string :=
  "Failed to generate valid grammar after " +:+ show_nat maxRetries
  +:+ " attempts. Last error: " +:+ last_error.

(** The world once the compiler has run: the subprocess is on record and
    the parser file holds what the compiler wrote. *)
Definition after_compiler (cmd : string) (paths : CompileResult)
    (sp_parser : option string) (w : World) : World :=
  let w1 := set_spawns (spawns w ++ [(cmd, [grammarFile paths; "-o"; parserFile paths])]) w in
  match sp_parser with
  | Some c => set_files (<[parserFile paths := Text c]> (files w1)) w1
  | None => w1
  end.

(** What the two regenerations have in common: the call returns or
    throws, leaves the sample and the record of runs alone, and sends the
    request [rq] unless the sample is set. *)
Definition regenerates (regenerate : M string) (rq : Request) : Prop :=
  forall w,
    ((exists c, fst (regenerate w) = Returned c) \/
     (exists e, fst (regenerate w) = Thrown e)) /\
    GLOBAL_SAMPLE (snd (regenerate w)) = GLOBAL_SAMPLE w /\
    requests (snd (regenerate w)) =
      requests w ++ (if truthy (GLOBAL_SAMPLE w) then [] else [rq]) /\
    runs (snd (regenerate w)) = runs w.

(* ================================================================= *)
(** ** Sample collaborators, texts and worlds *)

(** An environment with the cache switched on for reading and writing,
    every directory and file writable, and collaborators that fail. *)
Definition base_env : Env :=
  MkEnv {["LANG_GEN_READ_CACHE" := "true"]} "/pkg" "/work"
    (fun _ _ => inl "service unavailable")
    (fun _ _ => inl "service unavailable")
    (fun _ _ _ _ => SpawnError "ENOENT" "spawn lark-js ENOENT")
    (fun _ => true) (fun _ => true)
    (fun n => 1000 * n) show_nat
    (fun _ => inr true) (fun _ => None)
    (fun _ _ _ => inl "Unknown node type: foo").

Definition with_stream (f : nat -> Request -> string + list event) (env : Env) : Env :=
  MkEnv (environ env) (package_dir env) (cwd env) f (service_text env)
    (lark_js env) (can_mkdir env) (can_write env) (date_now env)
    (toISOString env) (parser_load env) (interp_import env) (run_sample env).

Definition with_text (f : nat -> Request -> string + string * string) (env : Env) : Env :=
  MkEnv (environ env) (package_dir env) (cwd env) (service_stream env) f
    (lark_js env) (can_mkdir env) (can_write env) (date_now env)
    (toISOString env) (parser_load env) (interp_import env) (run_sample env).

Definition with_environ (e : gmap string string) (env : Env) : Env :=
  MkEnv e (package_dir env) (cwd env) (service_stream env) (service_text env)
    (lark_js env) (can_mkdir env) (can_write env) (date_now env)
    (toISOString env) (parser_load env) (interp_import env) (run_sample env).

Definition with_compiler
    (f : nat -> string -> list string -> gmap string FileData -> SpawnResult)
    (writable : string -> bool) (env : Env) : Env :=
  MkEnv (environ env) (package_dir env) (cwd env) (service_stream env)
    (service_text env) f (can_mkdir env) writable (date_now env)
    (toISOString env) (parser_load env) (interp_import env) (run_sample env).

Definition with_modules (run : string -> string -> string -> string + string)
    (env : Env) : Env :=
  MkEnv (environ env) (package_dir env) (cwd env) (service_stream env)
    (service_text env) (lark_js env) (can_mkdir env) (can_write env)
    (date_now env) (toISOString env) (parser_load env) (interp_import env) run.

Definition empty_world : World := MkWorld ∅ "" [] [] ∅ ∅ 0 [].

(** A service whose three answers are blank, a grammar with a
    single-quoted literal, and a grammar with a mismatched quote. *)
Definition three_bad_answers (k : nat) (rq : Request) : string + list event :=
  match k with
  | 0 => inr [EvString "  "; EvString nl]
  | 1 => inr [EvString "start: "; EvString "'x'"]
  | _ => inr [EvString ("start: " +:+ dq +:+ "x'")]
  end.

Definition env_three_bad : Env := with_stream three_bad_answers base_env.

(** A service that answers with a rule made of a regex pattern directly
    followed by a single-quoted literal. *)
Definition slash_quote_grammar : string := "start: /a/'b'".

Definition env_slash_quote : Env :=
  with_stream (fun _ _ => inr [EvString slash_quote_grammar]) base_env.

Definition env_single_quote : Env :=
  with_stream (fun _ _ => inr [EvString "start: 'x'"]) base_env.

(** A small calculator grammar, and a service that answers every request
    with it (streamed) or with the body of an interpreter. *)
Definition calc_grammar : string :=
  "start: sum" +:+ nl +:+
  "sum: product (ADD_OP product)*" +:+ nl +:+
  "product: NUMBER" +:+ nl +:+
  "       | SUB_OP product -> neg" +:+ nl +:+
  "NUMBER: /[0-9]+/" +:+ nl +:+
  "ADD_OP: " +:+ dq +:+ "+" +:+ dq +:+ nl +:+
  "SUB_OP: " +:+ dq +:+ "-" +:+ dq +:+ nl +:+
  "%import common.WS" +:+ nl +:+
  "%ignore WS" +:+ nl.

Definition calc_evaluate : string :=
  "function evaluate(ast) { return walk(ast); }".

Definition env_calc : Env :=
  with_text (fun _ _ => inr (calc_evaluate, ""))
    (with_stream (fun _ _ => inr [EvString "start: sum"; EvString nl;
                                  EvString "sum: NUMBER (ADD_OP NUMBER)*"; EvString nl;
                                  EvString "NUMBER: /[0-9]+/"; EvString nl;
                                  EvString ("ADD_OP: " +:+ dq +:+ "+" +:+ dq);
                                  EvString nl])
       base_env).

(** The same collaborators with cache reads switched off and cache
    writes left on. *)
Definition env_calc_no_reads : Env :=
  with_environ {["LANG_GEN_READ_CACHE" := "false"]} env_calc.

Definition sum_schema : Schema :=
  MkSchema ["start"; "sum"] ["NUMBER"; "ADD_OP"] [] ["start"; "sum"].

(** A grammar with the rules [start], [sum] and [product], the tokens
    [NUMBER] and [ADD_OP], and the one alias [neg]. *)
Definition schema_grammar : string :=
  "start: sum" +:+ nl +:+
  "sum: product (ADD_OP product)*" +:+ nl +:+
  "product: NUMBER" +:+ nl +:+
  "       | " +:+ dq +:+ "-" +:+ dq +:+ " product -> neg" +:+ nl +:+
  "NUMBER: /[0-9]+/" +:+ nl +:+
  "ADD_OP: " +:+ dq +:+ "+" +:+ dq +:+ nl +:+
  "%import common.WS" +:+ nl +:+
  "%ignore WS" +:+ nl.

(** The [get_parser] function as the compiler writes it, and a parser
    file around it. *)
Definition original_get_parser : string :=
  "function get_parser(options = {}) {
  if (
    options.transformer &&
    options.transformer.constructor.name === " +:+ dq +:+ "object" +:+ dq +:+ "
  ) {
    options.transformer = Transformer.fromObj(options.transformer);
  }

  return Lark._load_from_dict({ data: DATA, memo: MEMO, ...options });
}".

Definition parser_before : string :=
  "var DATA = { options: { strict: false, ordered_sets: true } };" +:+ nl.

Definition parser_after : string :=
  nl +:+ "module.exports = { get_parser };" +:+ nl.

Definition compiled_parser : string :=
  parser_before +:+ original_get_parser +:+ parser_after.

(** A compiler that exits with status zero and writes the parser, on a
    file system where everything is writable, and on one where the parser
    file, once written by the compiler, is read-only. *)
Definition env_compiles : Env :=
  with_compiler (fun _ _ _ _ => SpawnExit 0 "" (Some compiled_parser))
    (fun _ => true) base_env.

Definition env_compiles_read_only : Env :=
  with_compiler (fun _ _ _ _ => SpawnExit 0 "" (Some compiled_parser))
    (fun path => negb (String.eqb path "/out/parser.cjs")) base_env.

(** A run in which the first interpreter fails on the sample and the one
    the service regenerates would evaluate it to 7. *)
Definition broken_interpreter : string :=
  prelude +:+ nl +:+ "function evaluate(ast) { throw new Error('Unknown node type: ' + ast.type); }".

Definition repaired_interpreter : string := with_prelude (calc_evaluate, "").

Definition env_repair : Env :=
  with_modules
    (fun parser_src interp_src sampleCode =>
       if String.eqb interp_src repaired_interpreter then inr "7"
       else inl "Unknown node type: foo")
    env_calc.

Definition world_repair : World :=
  MkWorld (<["/out/parser.cjs" := Text compiled_parser]>
             (<["/out/interpreter.mjs" := Text broken_interpreter]> ∅))
    "" [] [] ∅ ∅ 0 [].

(* ================================================================= *)
(** ** Streams, by their events *)

(** The message of the error an event carries, if it carries one. *)
Definition event_error (e : event) : option string :=
  match e with
  | EvString _ => None
  | EvObject o => ev_error o
  end.

(** The text an event contributes when it carries no error. *)
Definition event_text (e : event) : string :=
  match e with
  | EvString s => s
  | EvObject o => chunk_of o
  end.

(** The message of the first error carried by an event of a stream. *)
Fixpoint first_error (events : list event) : option string :=
  match events with
  | [] => None
  | e :: rest =>
      match event_error e with
      | Some msg => Some msg
      | None => first_error rest
      end
  end.

(* ================================================================= *)
(** ** Hexadecimal text *)

(** A lower-case hexadecimal digit. *)
Definition is_hex_digit (c : ascii) : bool :=
  in_range 48 57 c || in_range 97 102 c.

(* ================================================================= *)
(** ** Names in a grammar text *)

(** [name] is written in [text] at the start of a line, as a first
    character of the class [first] followed by characters of the class
    [more], and is followed there by optional white space and a colon. *)
Definition declared_at_line_start (first more : ascii -> bool)
    (text name : string) : Prop :=
  exists before space after c run,
    name = String c run /\ first c = true /\ all_chars more run = true /\
    all_chars is_space space = true /\
    text = before +:+ name +:+ space +:+ ":" +:+ after /\
    at_line_start (last_char None before) = true.

(** [name] is written in [text] after an arrow and optional white space. *)
Definition written_after_arrow (text name : string) : Prop :=
  exists before space after c run,
    name = String c run /\ lc_start c = true /\ all_chars lc_rest run = true /\
    all_chars is_space space = true /\
    text = before +:+ "->" +:+ space +:+ name +:+ after.

(* ================================================================= *)
(** ** Sample runs of [main] *)

(** A [generateVSCodeExtension] that fails at once. *)
Definition no_extension (options : ExtensionOptions) : M ExtensionResult :=
  throw (Error "extension generation unavailable").

(** An environment in which every stage succeeds but the test: the API
    key is set, the cache is left as it is by default, the service
    answers with a small grammar and an interpreter, the compiler writes
    a parser, and the sample fails with an unknown node type. *)
Definition env_pipeline : Env :=
  with_environ {["OPENAI_API_KEY" := "sk-test"]}
    (with_compiler (fun _ _ _ _ => SpawnExit 0 "" (Some compiled_parser))
       (fun _ => true) env_calc).

(** A run at a terminal with the specification and an absolute output
    directory on the command line, the operator's answers being [lines];
    and the same run with a sample. *)
Definition calc_process (lines : list string) : Process :=
  MkProcess ["node"; "index.js"; "--spec"; "calc"; "--output"; "/out"] true lines
    (fun _ => true).

Definition calc_process_with_sample : Process :=
  MkProcess ["node"; "index.js"; "--spec"; "calc"; "--output"; "/out";
             "--sample"; "1+2"] true [] (fun _ => true).

(* ================================================================= *)
(** ** Values and their properties *)

(** The property [key] of an object is there and truthy. *)
Definition has_truthy (key : string) (v : jsvalue) : bool :=
  match v with
  | VObject fields =>
      match get_field key fields with
      | Some x => value_truthy x
      | None => false
      end
  | _ => false
  end.


(* ================================================================= *)
(** ** The literals of the fallback grammar *)

(** A letter or an underscore followed by letters, digits and
    underscores; a non-empty run of operator characters. *)
Definition is_identifier_text (s : string) : bool :=
  match s with
  | String c rest =>
      (in_range 97 122 c || in_range 65 90 c || is_char "_" c)
      && all_chars word_char rest
  | EmptyString => false
  end.

Definition is_operator_text (s : string) : bool :=
  match s with
  | String c rest => operator_char c && all_chars operator_char rest
  | EmptyString => false
  end.

(* ================================================================= *)
(** ** The files of an extension *)

(** The directories [generateVSCodeExtension] makes, and the files it
    writes with their contents, in the order of the writes, [grammar]
    being the TextMate grammar obtained. *)
Definition extension_directories (options : ExtensionOptions) : list string :=
  let extDir := opt_outputDir options in
  [extDir; path_join extDir "syntaxes"; path_join extDir ".vscode";
   path_join extDir "examples"].

Definition writes_test_runner (options : ExtensionOptions) : bool :=
  truthy (default "" (opt_exampleProgram options))
  && truthy (default "" (opt_interpreterPath options))
  && truthy (default "" (opt_parserPath options)).

Definition extension_writes (options : ExtensionOptions) (grammar : jsvalue)
    : list (string * string) :=
  let extDir := opt_outputDir options in
  let languageId := opt_languageId options in
  let languageName := opt_languageName options in
  let fileExtension := opt_fileExtension options in
  let examplesDir := path_join extDir "examples" in
  [(path_join (path_join extDir "syntaxes") (languageId +:+ ".tmLanguage.json"),
    value_pretty "" grammar);
   (path_join extDir "package.json",
    JSON_pretty ""
      (packageJson languageId languageName fileExtension
         (default (languageName +:+ " language support") (opt_description options))
         (default "0.1.0" (opt_version options))));
   (path_join extDir "language-configuration.json", JSON_pretty "" languageConfig);
   (path_join extDir "README.md", readme languageId languageName fileExtension);
   (path_join extDir ".vscodeignore", trim vscodeignore);
   (path_join (path_join extDir ".vscode") "launch.json", JSON_pretty "" launchJson)]
  ++ (if truthy (default "" (opt_exampleProgram options)) then
        [(path_join examplesDir ("example." +:+ fileExtension),
          default "" (opt_exampleProgram options))]
      else [])
  ++ (if writes_test_runner options then
        [(path_join examplesDir "run.mjs",
          testRunner languageName fileExtension
            (default "" (opt_parserPath options))
            (default "" (opt_interpreterPath options)))]
      else []).

(** Every directory can be made, every file written, and the test runner,
    if there is one, made executable. *)
Definition extension_permitted (env : Env) (p : Process)
    (options : ExtensionOptions) : bool :=
  forallb (can_mkdir env) (extension_directories options)
  && forallb (fun pc : string * string => can_write env (fst pc))
       (extension_writes options VNull)
  && (negb (writes_test_runner options)
      || can_chmod p (path_join (path_join (opt_outputDir options) "examples")
                        "run.mjs")).

(** The file system after a list of writes. *)
Definition written (writes : list (string * string)) (fs : gmap string FileData)
    : gmap string FileData :=
  fold_left (fun m pc => <[fst pc := Text (snd pc)]> m) writes fs.


(* ================================================================= *)
(** ** Expressions that differ in their groups *)

(** An expression without its groups, and two positions or two results
    of the matcher that differ in the capture at most. *)
Fixpoint ungroup (r : regex) : regex :=
  match r with
  | RSeq r1 r2 => RSeq (ungroup r1) (ungroup r2)
  | RAlt r1 r2 => RAlt (ungroup r1) (ungroup r2)
  | RNotAhead r' => RNotAhead (ungroup r')
  | RGroup r' => ungroup r'
  | _ => r
  end.

Definition same_position (st st' : mstate) : Prop :=
  ms_prev st = ms_prev st' /\ ms_rest st = ms_rest st' /\ ms_len st = ms_len st'.

Definition same_outcome (o o' : option mstate) : Prop :=
  match o, o' with
  | Some st, Some st' => same_position st st'
  | None, None => True
  | _, _ => False
  end.


(** The same environment with no directory to be made under
    [extensions], and a run that asks for the extension. *)
Definition env_without_extensions : Env :=
  MkEnv (environ env_pipeline) (package_dir env_pipeline) (cwd env_pipeline)
    (service_stream env_pipeline) (service_text env_pipeline) (lark_js env_pipeline)
    (fun dir => negb (includes dir "/extensions/"))
    (can_write env_pipeline) (date_now env_pipeline) (toISOString env_pipeline)
    (parser_load env_pipeline) (interp_import env_pipeline) (run_sample env_pipeline).

Definition calc_process_vscode : Process :=
  MkProcess ["node"; "index.js"; "--spec"; "calc"; "--output"; "/out"; "--vscode"]
    true [] (fun _ => true).

(** Does [s] begin with white space? *)
Definition starts_blank (s : string) : bool :=
  match s with
  | String a s1 =>
      is_space a ||
      match s1 with
      | String b s2 =>
          is_space2 a b ||
          match s2 with
          | String c _ => is_space3 a b c
          | EmptyString => false
          end
      | EmptyString => false
      end
  | EmptyString => false
  end.

(* ================================================================= *)
(** ** Texts, keys and directory names on which the embedding is exact *)

(** A text of ASCII characters. *)
Definition is_ascii_char (c : ascii) : bool := (code c <? 128)%nat.
Definition ascii_text (s : string) : bool := all_chars is_ascii_char s.

(** A key made of digits.  [JSON.stringify] visits the keys that are
    array indices first, in ascending order, and the other keys in
    insertion order; every array index is made of digits. *)
Definition index_like (key : string) : bool :=
  negb (String.eqb key "") && all_chars (in_range 48 57) key.

(** No object of the value has a key made of digits: the fields of each
    object are visited in insertion order. *)
Fixpoint plain_keys (v : json) : bool :=
  match v with
  | JString _ => true
  | JArray items => forallb plain_keys items
  | JObject fields =>
      forallb (fun kv : string * json =>
                 negb (index_like (fst kv)) && plain_keys (snd kv)) fields
  end.

(** A directory name in normal form, to which [path.join] adds a file
    name after a slash and nothing else: it is not empty, it has no [.]
    and no [..] segment, and no empty segment but the leading one of an
    absolute name other than the root (so no doubled and no final
    slash). *)
Definition plain_segment (segment : string) : bool :=
  negb (String.eqb segment "") && negb (String.eqb segment ".")
  && negb (String.eqb segment "..").

Definition normal_dir (dir : string) : bool :=
  match split_on "/" dir with
  | EmptyString :: segment :: segments => forallb plain_segment (segment :: segments)
  | segments => forallb plain_segment segments
  end.

(* ================================================================= *)
(** * Properties *)

(* ================================================================= *)
(** ** SHA-256 on the test vectors of FIPS 180-4 *)

Example sha256_empty :
  SHA256.digest_hex ""
  = "e3b0c44298fc1c149afbf4c8996fb92427ae41e4649b934ca495991b7852b855".
Proof. vm_compute. reflexivity. Qed.

Example sha256_abc :
  SHA256.digest_hex "abc"
  = "ba7816bf8f01cfea414140de5dae2223b00361a396177a9cb410ff61f20015ad".
Proof. vm_compute. reflexivity. Qed.

Example sha256_two_blocks :
  SHA256.digest_hex "abcdbcdecdefdefgefghfghighijhijkijkljklmklmnlmnomnopnopq"
  = "248d6a61d20638b8e5c026930c3e6039a33ce45964ff2167f6ecedd419db06c1".
Proof. vm_compute. reflexivity. Qed.

(** With no environment variable set, the cache is written but not read. *)
Example cache_flags_by_default :
  READ_FROM_CACHE (MkEnv ∅ "/pkg" "/work" (fun _ _ => inl "") (fun _ _ => inl "")
                     (fun _ _ _ _ => SpawnError "" "") (fun _ => true)
                     (fun _ => true) (fun n => n) show_nat (fun _ => inr true)
                     (fun _ => None) (fun _ _ _ => inl "")) = false /\
  WRITE_TO_CACHE (MkEnv ∅ "/pkg" "/work" (fun _ _ => inl "") (fun _ _ => inl "")
                    (fun _ _ _ _ => SpawnError "" "") (fun _ => true)
                    (fun _ => true) (fun n => n) show_nat (fun _ => inr true)
                    (fun _ => None) (fun _ _ _ => inl "")) = true.
Proof. split; reflexivity. Qed.

(* ================================================================= *)
(** ** Texts and the global scan *)

Lemma app_cons (a : ascii) (s t : string) : String a s +:+ t = String a (s +:+ t).
Proof. reflexivity. Qed.

Lemma app_empty_l (t : string) : "" +:+ t = t.
Proof. reflexivity. Qed.

Lemma app_empty_r (s : string) : s +:+ "" = s.
Proof. induction s as [|a s IH]; [reflexivity|]. rewrite app_cons, IH. reflexivity. Qed.

Lemma app_assoc' (a b c : string) : (a +:+ b) +:+ c = a +:+ (b +:+ c).
Proof.
  induction a as [|x a IH]; [reflexivity|].
  rewrite !app_cons, IH. reflexivity.
Qed.

Lemma string_length_app (a b : string) :
  String.length (a +:+ b) = String.length a + String.length b.
Proof.
  induction a as [|x a IH]; [reflexivity|].
  rewrite app_cons. cbn [String.length]. rewrite IH. reflexivity.
Qed.

Lemma has_char_app c a b : has_char c (a +:+ b) = has_char c a || has_char c b.
Proof.
  induction a as [|x a IH]; [reflexivity|].
  rewrite app_cons. cbn [has_char]. rewrite IH, orb_assoc. reflexivity.
Qed.

Lemma all_chars_not_char c s : all_chars (not_char c) s = negb (has_char c s).
Proof.
  induction s as [|a s IH]; [reflexivity|].
  cbn [all_chars has_char]. rewrite IH. unfold not_char.
  rewrite Ascii.eqb_sym. destruct (Ascii.eqb a c); reflexivity.
Qed.

(** The last occurrence of a character. *)
Lemma has_char_last c s :
  has_char c s = true ->
  exists a t, s = a +:+ String c t /\ has_char c t = false.
Proof.
  induction s as [|x s IH]; [discriminate|].
  cbn [has_char]. intros H.
  destruct (has_char c s) eqn:Hs.
  - destruct (IH eq_refl) as (a & t & -> & Ht).
    exists (String x a), t. split; [reflexivity|exact Ht].
  - rewrite orb_false_r in H. apply Ascii.eqb_eq in H. subst x.
    exists "", s. split; [reflexivity|exact Hs].
Qed.

(** The first occurrence of a character. *)
Lemma has_char_first c s :
  has_char c s = true ->
  exists a t, s = a +:+ String c t /\ has_char c a = false.
Proof.
  induction s as [|x s IH]; [discriminate|].
  cbn [has_char]. intros H.
  destruct (Ascii.eqb x c) eqn:Hx.
  - apply Ascii.eqb_eq in Hx. subst x. exists "", s. split; reflexivity.
  - cbn in H. destruct (IH H) as (a & t & -> & Ha).
    exists (String x a), t. split; [reflexivity|].
    cbn [has_char]. rewrite Hx, Ha. reflexivity.
Qed.

Lemma last_char_app prev a b :
  last_char prev (a +:+ b) = last_char (last_char prev a) b.
Proof.
  revert prev. induction a as [|x a IH]; intros prev; [reflexivity|].
  rewrite app_cons. cbn [last_char]. apply IH.
Qed.

Lemma star_greedy_exists p k prev len cap run rest x :
  all_chars p run = true ->
  k (MState (last_char prev run) rest (len + String.length run) cap) = Some x ->
  is_Some (star_greedy p k prev len cap (run +:+ rest)).
Proof.
  revert prev len. induction run as [|a run IH]; intros prev len Hall Hk.
  - cbn [last_char String.length] in Hk. rewrite Nat.add_0_r in Hk.
    rewrite app_empty_l. destruct rest as [|a rest]; cbn [star_greedy].
    + rewrite Hk. eauto.
    + destruct (p a); [|rewrite Hk; eauto].
      destruct (star_greedy p k (Some a) (S len) cap rest); eauto.
  - cbn [all_chars] in Hall. apply andb_true_iff in Hall as [Ha Hall].
    rewrite app_cons. cbn [star_greedy]. rewrite Ha.
    destruct (IH (Some a) (S len) Hall) as [y Hy].
    + cbn [last_char String.length] in Hk.
      replace (S len + String.length run) with (len + S (String.length run)) by lia.
      exact Hk.
    + rewrite Hy. eauto.
Qed.

Lemma star_greedy_inv p k prev len cap s x :
  star_greedy p k prev len cap s = Some x ->
  exists run rest,
    s = run +:+ rest /\ all_chars p run = true /\
    k (MState (last_char prev run) rest (len + String.length run) cap) = Some x.
Proof.
  revert prev len. induction s as [|a s IH]; intros prev len H; cbn [star_greedy] in H.
  - exists "", "". cbn. rewrite Nat.add_0_r. auto.
  - destruct (p a) eqn:Ha.
    + destruct (star_greedy p k (Some a) (S len) cap s) eqn:Hs.
      * injection H as <-. destruct (IH _ _ Hs) as (run & rest & -> & Hall & Hk).
        exists (String a run), rest. split; [reflexivity|].
        cbn [all_chars last_char String.length]. rewrite Ha, Hall. split; [reflexivity|].
        replace (len + S (String.length run)) with (S len + String.length run) by lia.
        exact Hk.
      * exists "", (String a s). cbn. rewrite Nat.add_0_r. auto.
    + exists "", (String a s). cbn. rewrite Nat.add_0_r. auto.
Qed.

Lemma scan_here r prev s st :
  match_here r prev s = Some st -> scan r prev 0 s <> [].
Proof. intros H. destruct s; cbn [scan]; rewrite H; discriminate. Qed.

Lemma scan_exists r s1 s2 prev :
  is_Some (match_here r (last_char prev s1) s2) ->
  scan r prev 0 (s1 +:+ s2) <> [].
Proof.
  revert prev. induction s1 as [|a s1 IH]; intros prev [st Hst].
  - rewrite app_empty_l. eapply scan_here, Hst.
  - rewrite app_cons. cbn [scan].
    destruct (match_here r prev (String a (s1 +:+ s2))); [discriminate|].
    cbn [Init.Nat.pred]. apply IH. cbn [last_char] in Hst. eauto.
Qed.

Lemma scan_inv r s prev skip :
  scan r prev skip s <> [] ->
  exists s1 s2, s = s1 +:+ s2 /\ is_Some (match_here r (last_char prev s1) s2).
Proof.
  revert prev skip. induction s as [|a s IH]; intros prev skip H.
  - cbn [scan] in H. destruct skip.
    + destruct (match_here r prev "") eqn:Hm; [|congruence].
      exists "", "". split; [reflexivity|]. cbn. rewrite Hm. eauto.
    + congruence.
  - cbn [scan] in H.
    destruct (match skip with 0 => match_here r prev (String a s) | S _ => None end)
      eqn:Hm.
    + destruct skip; [|discriminate].
      exists "", (String a s). split; [reflexivity|]. cbn. rewrite Hm. eauto.
    + destruct (IH _ _ H) as (s1 & s2 & -> & Hs).
      exists (String a s1), s2. split; [reflexivity|]. exact Hs.
Qed.

Lemma js_match_None r s : js_match r s = None <-> ~ matches_somewhere r s.
Proof.
  unfold js_match, match_all, matches_somewhere. split.
  - intros H (s1 & s2 & -> & Hm).
    apply (scan_exists r s1 s2 None) in Hm.
    destruct (scan r None 0 (s1 +:+ s2)); [congruence|discriminate].
  - intros H. destruct (scan r None 0 s) eqn:Hs; [reflexivity|].
    exfalso. apply H. apply (scan_inv r s None 0). rewrite Hs. discriminate.
Qed.

(* ================================================================= *)
(** ** The two expressions of the local validation *)

Lemma is_Some_None {A} : ~ is_Some (@None A).
Proof. intros [x H]. discriminate. Qed.

(** Unfolding equations of the matcher. *)
Lemma rmatch_seq r1 r2 st k :
  rmatch (RSeq r1 r2) st k = rmatch r1 st (fun st' => rmatch r2 st' k).
Proof. reflexivity. Qed.

Lemma rmatch_char c st k :
  rmatch (RChar c) st k =
  match ms_rest st with
  | String a rest =>
      if Ascii.eqb a c
      then k (MState (Some a) rest (S (ms_len st)) (ms_cap st))
      else None
  | EmptyString => None
  end.
Proof. reflexivity. Qed.

Lemma rmatch_star p st k :
  rmatch (RStar p) st k =
  star_greedy p k (ms_prev st) (ms_len st) (ms_cap st) (ms_rest st).
Proof. reflexivity. Qed.

Lemma rmatch_not_ahead r st k :
  rmatch (RNotAhead r) st k =
  match rmatch r st Some with
  | Some _ => None
  | None => k st
  end.
Proof. reflexivity. Qed.

Lemma rmatch_not_behind p st k :
  rmatch (RNotBehind p) st k =
  match ms_prev st with
  | Some a => if p a then None else k st
  | None => k st
  end.
Proof. reflexivity. Qed.

Lemma rmatch_group r st k :
  rmatch (RGroup r) st k =
  rmatch r st (fun st' =>
    k (MState (ms_prev st') (ms_rest st') (ms_len st')
         (Some (String.substring 0 (ms_len st' - ms_len st) (ms_rest st))))).
Proof. reflexivity. Qed.

(** A quote, a run of other characters, and the same quote again. *)
Lemma quoted_span q st k :
  (forall st', is_Some (k st')) ->
  is_Some (rmatch (RSeq (RChar q) (RSeq (RStar (not_char q)) (RChar q))) st k) <->
  exists b c, ms_rest st = String q (b +:+ String q c).
Proof.
  intros Hk. rewrite rmatch_seq, rmatch_char. split.
  - intros H. destruct (ms_rest st) as [|a rest]; [exfalso; exact (is_Some_None H)|].
    destruct (Ascii.eqb a q) eqn:Ha; [|exfalso; exact (is_Some_None H)].
    apply Ascii.eqb_eq in Ha. subst a. destruct H as [x Hx].
    rewrite rmatch_seq, rmatch_star in Hx.
    apply star_greedy_inv in Hx as (run & rest' & Hs & _ & Hx).
    cbn [ms_rest] in Hs. subst rest. rewrite rmatch_char in Hx. cbn [ms_rest] in Hx.
    destruct rest' as [|c rest']; [discriminate|].
    destruct (Ascii.eqb c q) eqn:Hc; [|discriminate].
    apply Ascii.eqb_eq in Hc. subst c. eauto.
  - intros (b & c & ->). rewrite Ascii.eqb_refl.
    assert (Hb : has_char q (b +:+ String q c) = true).
    { rewrite has_char_app. cbn [has_char]. rewrite Ascii.eqb_refl.
      rewrite orb_true_r. reflexivity. }
    apply has_char_first in Hb as (run & t & Hrt & Hrun). rewrite Hrt.
    rewrite rmatch_seq, rmatch_star. cbn [ms_rest ms_prev ms_len ms_cap].
    destruct (Hk (MState (Some q) t
                (S (S (ms_len st) + String.length run)) (ms_cap st))) as [y Hy].
    eapply star_greedy_exists.
    + rewrite all_chars_not_char, Hrun. reflexivity.
    + rewrite rmatch_char. cbn [ms_rest ms_prev ms_len ms_cap].
      rewrite Ascii.eqb_refl. exact Hy.
Qed.

Lemma single_quote_here prev s :
  is_Some (match_here singleQuotePattern prev s) <->
  prev <> Some "/"%char /\ exists b c, s = String SQ (b +:+ String SQ c).
Proof.
  unfold match_here, singleQuotePattern.
  rewrite rmatch_seq, rmatch_not_behind, rmatch_group. cbn [ms_prev].
  pose proof (quoted_span SQ (MState prev s 0 None)
    (fun st' => Some (MState (ms_prev st') (ms_rest st') (ms_len st')
       (Some (String.substring 0 (ms_len st' - ms_len (MState prev s 0 None))
                (ms_rest (MState prev s 0 None))))))) as Hq.
  cbn [ms_rest] in Hq.
  assert (Hk : forall st' : mstate, is_Some
     (Some (MState (ms_prev st') (ms_rest st') (ms_len st')
        (Some (String.substring 0 (ms_len st' - ms_len (MState prev s 0 None)) s)))))
    by eauto.
  specialize (Hq Hk). clear Hk.
  destruct prev as [p|].
  - destruct (is_char "/" p) eqn:Hp.
    + unfold is_char in Hp. apply Ascii.eqb_eq in Hp. subst p. split.
      * intros H. exfalso. exact (is_Some_None H).
      * intros [H _]. congruence.
    + rewrite Hq. split; [|tauto]. intros H. split; [|exact H].
      intros [= ->]. discriminate.
  - rewrite Hq. split; [|tauto]. intros H. split; [discriminate|exact H].
Qed.

Lemma single_quote_somewhere s :
  matches_somewhere singleQuotePattern s <-> unslashed_single_quotes s.
Proof.
  unfold matches_somewhere, unslashed_single_quotes. split.
  - intros (s1 & s2 & -> & H). apply single_quote_here in H as [Hp (b & c & ->)].
    exists s1, b, c. auto.
  - intros (a & b & c & -> & Hp). exists a, (String SQ (b +:+ String SQ c)).
    split; [reflexivity|]. apply single_quote_here. eauto.
Qed.

(** The look-ahead of [mismatchedQuotes]: a run without [q] and then [q]. *)
Lemma ahead_iff q st :
  is_Some (rmatch (RSeq (RStar (not_char q)) (RChar q)) st Some) <->
  has_char q (ms_rest st) = true.
Proof.
  rewrite rmatch_seq, rmatch_star. split.
  - intros [x Hx]. apply star_greedy_inv in Hx as (run & rest & Hs & _ & Hk).
    rewrite rmatch_char in Hk. cbn [ms_rest] in Hk.
    destruct rest as [|c rest]; [discriminate|].
    destruct (Ascii.eqb c q) eqn:Hc; [|discriminate].
    rewrite Hs, has_char_app. cbn [has_char]. rewrite Hc, orb_true_r. reflexivity.
  - intros H. apply has_char_first in H as (run & t & Hs & Hrun). rewrite Hs.
    eapply star_greedy_exists.
    + rewrite all_chars_not_char, Hrun. reflexivity.
    + rewrite rmatch_char. cbn [ms_rest]. rewrite Ascii.eqb_refl. reflexivity.
Qed.

Lemma ahead_None q st :
  rmatch (RSeq (RStar (not_char q)) (RChar q)) st Some = None <->
  has_char q (ms_rest st) = false.
Proof.
  pose proof (ahead_iff q st) as H.
  destruct (rmatch (RSeq (RStar (not_char q)) (RChar q)) st Some) eqn:E.
  - split; [discriminate|]. intros Hf.
    assert (has_char q (ms_rest st) = true) by (apply H; eauto). congruence.
  - split; [|reflexivity]. intros _.
    destruct (has_char q (ms_rest st)); [|reflexivity].
    exfalso. apply (@is_Some_None mstate). apply H. reflexivity.
Qed.

Lemma mismatch_alt_here q1 q2 prev s :
  q1 <> q2 ->
  is_Some (match_here (mismatch_alt q1 q2) prev s) <->
  exists t, s = String q1 t /\ has_char q1 t = false /\ has_char q2 t = true.
Proof.
  intros Hq. unfold match_here, mismatch_alt.
  rewrite rmatch_seq, rmatch_char. cbn [ms_prev ms_rest ms_len ms_cap]. split.
  - intros H. destruct s as [|a t]; [exfalso; exact (is_Some_None H)|].
    destruct (Ascii.eqb a q1) eqn:Ha; [|exfalso; exact (is_Some_None H)].
    apply Ascii.eqb_eq in Ha. subst a. exists t. split; [reflexivity|].
    destruct H as [x Hx]. rewrite rmatch_seq, rmatch_star in Hx.
    apply star_greedy_inv in Hx as (run & rest & Hs & Hrun & Hk).
    cbn [ms_rest ms_prev ms_len ms_cap] in Hs, Hk. subst t.
    rewrite rmatch_seq, rmatch_char in Hk. cbn [ms_rest ms_prev ms_len ms_cap] in Hk.
    destruct rest as [|c rest]; [discriminate|].
    destruct (Ascii.eqb c q2) eqn:Hc; [|discriminate].
    apply Ascii.eqb_eq in Hc. subst c.
    rewrite rmatch_not_ahead in Hk.
    destruct (rmatch (RSeq (RStar (not_char q1)) (RChar q1))
                (MState (Some q2) rest (S (1 + String.length run)) None) Some)
      eqn:Hin; [discriminate|].
    apply ahead_None in Hin. cbn [ms_rest] in Hin.
    rewrite all_chars_not_char in Hrun. apply negb_true_iff in Hrun.
    rewrite !has_char_app. cbn [has_char]. rewrite Hrun, Hin, Ascii.eqb_refl.
    split; [|rewrite orb_true_r; reflexivity].
    destruct (Ascii.eqb q2 q1) eqn:E; [|reflexivity].
    apply Ascii.eqb_eq in E. congruence.
  - intros (t & -> & H1 & H2). rewrite Ascii.eqb_refl.
    apply has_char_last in H2 as (a & t' & -> & Ht').
    rewrite has_char_app in H1. cbn [has_char] in H1.
    apply orb_false_iff in H1 as [Ha H1]. apply orb_false_iff in H1 as [_ H1].
    rewrite rmatch_seq, rmatch_star. cbn [ms_rest ms_prev ms_len ms_cap].
    eapply star_greedy_exists.
    + rewrite all_chars_not_char, Ha. reflexivity.
    + rewrite rmatch_seq, rmatch_char. cbn [ms_rest ms_prev ms_len ms_cap].
      rewrite Ascii.eqb_refl, rmatch_not_ahead.
      rewrite (proj2 (ahead_None q1 _)); [reflexivity|exact H1].
Qed.

Lemma mismatched_here prev s :
  is_Some (match_here mismatchedQuotes prev s) <->
  is_Some (match_here (mismatch_alt DQ SQ) prev s) \/
  is_Some (match_here (mismatch_alt SQ DQ) prev s).
Proof.
  unfold match_here. change mismatchedQuotes
    with (RAlt (mismatch_alt DQ SQ) (mismatch_alt SQ DQ)).
  change (rmatch (RAlt (mismatch_alt DQ SQ) (mismatch_alt SQ DQ))
            (MState prev s 0 None) Some)
    with (match rmatch (mismatch_alt DQ SQ) (MState prev s 0 None) Some with
          | Some res => Some res
          | None => rmatch (mismatch_alt SQ DQ) (MState prev s 0 None) Some
          end).
  destruct (rmatch (mismatch_alt DQ SQ) (MState prev s 0 None) Some) eqn:H1.
  - split; eauto.
  - split; [auto|]. intros [H|H]; [exfalso; exact (is_Some_None H)|exact H].
Qed.

Lemma mismatched_somewhere s :
  matches_somewhere mismatchedQuotes s <->
  has_char DQ s = true /\ has_char SQ s = true.
Proof.
  assert (Hne : DQ <> SQ) by discriminate.
  assert (Hne' : SQ <> DQ) by discriminate.
  unfold matches_somewhere. split.
  - intros (s1 & s2 & -> & H). apply mismatched_here in H as [H|H].
    + apply (mismatch_alt_here _ _ _ _ Hne) in H as (t & -> & _ & H2).
      rewrite !has_char_app. cbn [has_char]. rewrite H2, Ascii.eqb_refl.
      rewrite !orb_true_r. auto.
    + apply (mismatch_alt_here _ _ _ _ Hne') in H as (t & -> & _ & H2).
      rewrite !has_char_app. cbn [has_char]. rewrite H2, Ascii.eqb_refl.
      rewrite !orb_true_r. auto.
  - intros [Hd Hs].
    apply has_char_last in Hd as (a & t & -> & Ht).
    destruct (has_char SQ t) eqn:Hst.
    + exists a, (String DQ t). split; [reflexivity|].
      apply mismatched_here. left. apply (mismatch_alt_here _ _ _ _ Hne). eauto.
    + apply has_char_last in Hs as (a' & t' & Heq & Ht').
      exists a', (String SQ t'). split; [exact Heq|].
      apply mismatched_here. right. apply (mismatch_alt_here _ _ _ _ Hne').
      exists t'. split; [reflexivity|]. split; [exact Ht'|].
      (* the last double quote lies after the last single quote *)
      assert (Hall : has_char SQ (a +:+ String DQ t) = true).
      { rewrite Heq, has_char_app. cbn [has_char]. rewrite Ascii.eqb_refl.
        rewrite orb_true_r. reflexivity. }
      clear Hall.
      revert a' Heq. induction a as [|x a IH]; intros a' Heq.
      * rewrite app_empty_l in Heq. destruct a' as [|y a'].
        -- rewrite app_empty_l in Heq. discriminate.
        -- rewrite app_cons in Heq. injection Heq as <- Heq.
           assert (has_char SQ t = true).
           { rewrite Heq, has_char_app. cbn [has_char]. rewrite Ascii.eqb_refl.
             rewrite orb_true_r. reflexivity. }
           congruence.
      * destruct a' as [|y a'].
        -- rewrite app_empty_l, app_cons in Heq. injection Heq as -> <-.
           rewrite has_char_app. cbn [has_char]. rewrite Ascii.eqb_refl.
           rewrite orb_true_r. reflexivity.
        -- rewrite !app_cons in Heq. injection Heq as <- Heq. eauto.
Qed.

(** The exact reach of the local validation. *)
Lemma validateGrammar_None_iff g :
  validateGrammar g = None <->
  g <> "" /\ ~ unslashed_single_quotes g /\
  ~ (has_char DQ g = true /\ has_char SQ g = true).
Proof.
  unfold validateGrammar, syntaxErrors.
  rewrite <- single_quote_somewhere, <- mismatched_somewhere, <- !js_match_None.
  destruct g as [|a g]; cbn [truthy].
  - split; [discriminate|]. intros [H _]. congruence.
  - destruct (js_match singleQuotePattern (String a g)) eqn:H1;
    destruct (js_match mismatchedQuotes (String a g)) eqn:H2; cbn [app];
      split; try discriminate; try (intros (_ & ? & ?); congruence); auto.
Qed.

(* ================================================================= *)
(** ** The cache helpers and the retry loop of [generateGrammar] *)

Lemma getCached_world env type input w : snd (getCached env type input w) = w.
Proof.
  unfold getCached. destruct (negb (READ_FROM_CACHE env)); [reflexivity|].
  unfold try_catch, bind, fs_mkdir, fs_readFile, JSON_parse, ret, throw.
  destruct (can_mkdir env (CACHE_DIR env)); [|reflexivity].
  destruct (files w !! cachePath env type input) as [[s|e]|]; reflexivity.
Qed.

Lemma getCached_value env type input w :
  fst (getCached env type input w) =
  Returned
    (if READ_FROM_CACHE env && can_mkdir env (CACHE_DIR env) then
       match files w !! cachePath env type input with
       | Some (CacheJson e) => Some e
       | _ => None
       end
     else None).
Proof.
  unfold getCached. destruct (READ_FROM_CACHE env); [|reflexivity].
  unfold try_catch, bind, fs_mkdir, fs_readFile, JSON_parse, ret, throw.
  cbn [negb andb].
  destruct (can_mkdir env (CACHE_DIR env)); [|reflexivity].
  destruct (files w !! cachePath env type input) as [[s|e]|]; reflexivity.
Qed.

Lemma saveCache_eq env type input output w :
  saveCache env type input output w = (Returned tt, saved env type input output w).
Proof.
  unfold saveCache, saved. destruct (WRITE_TO_CACHE env); [|reflexivity].
  cbn [negb andb].
  unfold try_catch, bind, fs_mkdir, Date_now, fs_writeFile, modify, ret, throw.
  destruct (can_mkdir env (CACHE_DIR env)); [|reflexivity].
  destruct (can_write env (cachePath env type input)); reflexivity.
Qed.

Lemma saved_requests env type input output w :
  requests (saved env type input output w) = requests w.
Proof.
  unfold saved. destruct (WRITE_TO_CACHE env && can_mkdir env (CACHE_DIR env));
    [|reflexivity].
  destruct (can_write env (cachePath env type input)); reflexivity.
Qed.

Lemma saved_spawns env type input output w :
  spawns (saved env type input output w) = spawns w.
Proof.
  unfold saved. destruct (WRITE_TO_CACHE env && can_mkdir env (CACHE_DIR env));
    [|reflexivity].
  destruct (can_write env (cachePath env type input)); reflexivity.
Qed.

Lemma saved_sample env type input output w :
  GLOBAL_SAMPLE (saved env type input output w) = GLOBAL_SAMPLE w.
Proof.
  unfold saved. destruct (WRITE_TO_CACHE env && can_mkdir env (CACHE_DIR env));
    [|reflexivity].
  destruct (can_write env (cachePath env type input)); reflexivity.
Qed.

Lemma grammar_attempt_eq env spec prev w :
  grammar_attempt env spec prev w =
  let w1 := requested (grammar_request env spec (GLOBAL_SAMPLE w) prev) w in
  match attempt_outcome env spec (GLOBAL_SAMPLE w) (List.length (requests w)) prev with
  | inl msg => (Thrown (Error msg), w1)
  | inr g => (Returned g, saved env "grammar" (grammar_cache_input spec) g w1)
  end.
Proof.
  unfold grammar_attempt, attempt_outcome, bind, get_world, create_stream,
    requested, throw, ret.
  destruct (service_stream env (List.length (requests w))
              (grammar_request env spec (GLOBAL_SAMPLE w) prev)) as [msg|events];
    [reflexivity|].
  destruct (accumulate "Grammar generation failed" events "") as [msg|text];
    [reflexivity|].
  destruct (validateGrammar (trim text)); [reflexivity|].
  rewrite saveCache_eq. reflexivity.
Qed.

(** What the loop does with a failed attempt, whatever the failure. *)
Lemma grammar_loop_on_failure env spec maxRetries remaining attempts prev w msg :
  attempt_outcome env spec (GLOBAL_SAMPLE w) (List.length (requests w)) prev
    = inl msg ->
  let w1 := requested (grammar_request env spec (GLOBAL_SAMPLE w) prev) w in
  grammar_loop env spec maxRetries (S remaining) attempts prev w =
  if (maxRetries <=? S attempts)%nat
  then (Thrown (Error (exhausted_message maxRetries msg)), w1)
  else grammar_loop env spec maxRetries remaining (S attempts) (prev ++ [msg]) w1.
Proof.
  intros H. cbn [grammar_loop]. unfold try_catch. rewrite grammar_attempt_eq.
  cbv zeta. rewrite H. cbn [message Error].
  destruct (maxRetries <=? S attempts)%nat; reflexivity.
Qed.

Lemma validation_failure_outcome env spec sample k prev msg :
  validation_failure env spec sample k prev = Some msg ->
  attempt_outcome env spec sample k prev = inl msg.
Proof.
  unfold validation_failure, attempt_outcome.
  destruct (service_stream env k (grammar_request env spec sample prev));
    [discriminate|].
  destruct (accumulate "Grammar generation failed" l ""); [discriminate|].
  intros ->. reflexivity.
Qed.

Lemma failing_validations_length env spec sample n k prev msgs :
  failing_validations env spec sample n k prev = Some msgs -> List.length msgs = n.
Proof.
  revert k prev msgs. induction n as [|n IH]; intros k prev msgs H;
    cbn [failing_validations] in H.
  - injection H as <-. reflexivity.
  - destruct (validation_failure env spec sample k prev) as [m|]; [|discriminate].
    destruct (failing_validations env spec sample n (S k) (prev ++ [m])) as [ms|] eqn:E;
      [|discriminate].
    injection H as <-. cbn [List.length]. f_equal. eapply IH, E.
Qed.

(** [n] failing attempts in a row exhaust a loop that has [n] iterations
    left: the error names the last message only. *)
Lemma grammar_loop_exhausted env spec maxRetries :
  forall n attempts prev w msgs,
  (0 < n)%nat ->
  attempts + n = maxRetries ->
  failing_validations env spec (GLOBAL_SAMPLE w) n (List.length (requests w)) prev
    = Some msgs ->
  grammar_loop env spec maxRetries n attempts prev w =
  (Thrown (Error (exhausted_message maxRetries (List.last msgs ""))),
   set_requests (requests w ++ retry_requests env spec (GLOBAL_SAMPLE w) prev msgs) w).
Proof.
  induction n as [|n IH]; intros attempts prev w msgs Hn Hsum Hf; [lia|].
  cbn [failing_validations] in Hf.
  destruct (validation_failure env spec (GLOBAL_SAMPLE w) (List.length (requests w)) prev)
    as [m|] eqn:Hm; [|discriminate].
  destruct (failing_validations env spec (GLOBAL_SAMPLE w) n
              (S (List.length (requests w))) (prev ++ [m])) as [ms|] eqn:Hms;
    [|discriminate].
  injection Hf as <-.
  rewrite (grammar_loop_on_failure _ _ _ _ _ _ _ m (validation_failure_outcome _ _ _ _ _ _ Hm)).
  destruct n as [|n].
  - cbn [failing_validations] in Hms. injection Hms as <-.
    replace (maxRetries <=? S attempts)%nat with true
      by (symmetry; apply Nat.leb_le; lia).
    reflexivity.
  - replace (maxRetries <=? S attempts)%nat with false
      by (symmetry; apply Nat.leb_gt; lia).
    rewrite (IH (S attempts) (prev ++ [m])
               (requested (grammar_request env spec (GLOBAL_SAMPLE w) prev) w) ms).
    + f_equal.
      * f_equal. f_equal. f_equal.
        pose proof (failing_validations_length _ _ _ _ _ _ _ Hms) as Hl.
        destruct ms as [|m' ms]; [discriminate|]. reflexivity.
      * unfold requested, set_requests. cbn. rewrite <- app_assoc. reflexivity.
    + lia.
    + lia.
    + unfold requested. cbn. rewrite List.length_app. cbn.
      rewrite Nat.add_1_r. exact Hms.
Qed.

(* ================================================================= *)
(** ** Retries of [generateGrammar]: C10 and C3 *)

Lemma prefix_app s t : String.prefix s (s +:+ t) = true.
Proof.
  induction s as [|a s IH]; [destruct t; reflexivity|].
  rewrite app_cons. cbn [String.prefix].
  destruct (ascii_dec a a); [exact IH|congruence].
Qed.

Lemma includes_here s sub : String.prefix sub s = true -> includes s sub = true.
Proof. intros H. destruct s; cbn [includes]; rewrite H; reflexivity. Qed.

Lemma includes_app_l a s sub : includes s sub = true -> includes (a +:+ s) sub = true.
Proof.
  intros H. induction a as [|x a IH]; [exact H|].
  rewrite app_cons. cbn [includes]. rewrite IH. apply orb_true_r.
Qed.

Lemma includes_mid a b c : includes (a +:+ b +:+ c) b = true.
Proof. apply includes_app_l, includes_here, prefix_app. Qed.

Lemma attempts_text_snoc i prev msg :
  attempts_text i (prev ++ [msg]) =
  attempts_text i prev
  +:+ ("Attempt " +:+ show_nat (i + List.length prev + 1) +:+ ": " +:+ msg +:+ nl).
Proof.
  revert i. induction prev as [|e prev IH]; intros i.
  - cbn [app attempts_text List.length].
    rewrite app_empty_l, Nat.add_0_r, app_empty_r. reflexivity.
  - cbn [app attempts_text List.length]. rewrite IH.
    replace (S i + List.length prev + 1) with (i + S (List.length prev) + 1) by lia.
    rewrite !app_assoc'. reflexivity.
Qed.

(** The instructions of a retry quote the message of every earlier
    attempt, the latest included. *)
Lemma instructions_quote_last sample prev msg :
  includes (grammar_instructions sample (prev ++ [msg]))
    ("Attempt " +:+ show_nat (List.length prev + 1) +:+ ": " +:+ msg +:+ nl) = true.
Proof.
  unfold grammar_instructions.
  replace (0 <? List.length (prev ++ [msg]))%nat with true
    by (symmetry; apply Nat.ltb_lt; rewrite List.length_app; cbn; lia).
  rewrite attempts_text_snoc. cbn [Nat.add].
  set (m := "Attempt " +:+ show_nat (List.length prev + 1) +:+ ": " +:+ msg +:+ nl).
  rewrite !app_assoc'.
  repeat first [ solve [apply includes_here, prefix_app] | apply includes_app_l ].
Qed.

Lemma attempts_text_app i a b :
  attempts_text i (a ++ b) = attempts_text i a +:+ attempts_text (i + List.length a) b.
Proof.
  revert i. induction a as [|e a IH]; intros i.
  - cbn [app attempts_text List.length]. rewrite app_empty_l, Nat.add_0_r. reflexivity.
  - cbn [app attempts_text List.length]. rewrite IH.
    replace (S i + List.length a) with (i + S (List.length a)) by lia.
    rewrite !app_assoc'. reflexivity.
Qed.

(** The instructions of an attempt quote the message of every earlier
    attempt under its number. *)
Lemma instructions_quote_each sample (errors : list string) i msg :
  errors !! i = Some msg ->
  includes (grammar_instructions sample errors)
    ("Attempt " +:+ show_nat (i + 1) +:+ ": " +:+ msg +:+ nl) = true.
Proof.
  intros H. pose proof (lookup_lt_Some _ _ _ H) as Hlt.
  pose proof (length_take_le errors i ltac:(lia)) as Hlen.
  rewrite <- (take_drop_middle _ _ _ H) at 1.
  unfold grammar_instructions.
  replace (0 <? List.length (take i errors ++ msg :: drop (S i) errors))%nat with true
    by (symmetry; apply Nat.ltb_lt; rewrite List.length_app; cbn; lia).
  rewrite attempts_text_app. cbn [Nat.add]. rewrite Hlen.
  set (m := "Attempt " +:+ show_nat (i + 1) +:+ ": " +:+ msg +:+ nl).
  assert (attempts_text i (msg :: drop (S i) errors)
          = m +:+ attempts_text (S i) (drop (S i) errors)) as ->
    by (unfold m; cbn [attempts_text]; rewrite !app_assoc'; reflexivity).
  rewrite !app_assoc'.
  repeat first [ solve [apply includes_here, prefix_app] | apply includes_app_l ].
Qed.

(** So does the request of the attempt. *)
Lemma request_quotes_each env spec sample (errors : list string) i msg :
  errors !! i = Some msg ->
  includes (req_instructions (grammar_request env spec sample errors))
    ("Attempt " +:+ show_nat (i + 1) +:+ ": " +:+ msg +:+ nl) = true.
Proof. exact (instructions_quote_each sample errors i msg). Qed.

Lemma retry_requests_lookup env spec sample msgs : forall prev j rq,
  retry_requests env spec sample prev msgs !! j = Some rq ->
  rq = grammar_request env spec sample (prev ++ take j msgs).
Proof.
  induction msgs as [|m msgs IH]; intros prev j rq H; [discriminate|].
  cbn [retry_requests] in H. destruct j as [|j].
  - injection H as <-. cbn [take]. rewrite app_nil_r. reflexivity.
  - cbn [lookup list_lookup] in H. apply IH in H. rewrite H. cbn [take].
    rewrite <- app_assoc. reflexivity.
Qed.

(** The requests of the loop: what it sends is added to the record, and
    an iteration starts with the request of its attempt. *)
Lemma grammar_loop_requests env spec maxRetries remaining :
  forall attempts prev w,
  exists more,
    requests (snd (grammar_loop env spec maxRetries remaining attempts prev w))
      = requests w ++ more /\
    (remaining <> 0 ->
     exists later, more = grammar_request env spec (GLOBAL_SAMPLE w) prev :: later).
Proof.
  induction remaining as [|remaining IH]; intros attempts prev w.
  - exists []. cbn. rewrite app_nil_r. split; [reflexivity|congruence].
  - cbn [grammar_loop]. unfold try_catch. rewrite grammar_attempt_eq. cbv zeta.
    set (rq := grammar_request env spec (GLOBAL_SAMPLE w) prev).
    destruct (attempt_outcome env spec (GLOBAL_SAMPLE w) (List.length (requests w)) prev)
      as [msg|g].
    + destruct (maxRetries <=? S attempts)%nat.
      * exists [rq]. cbn. eauto.
      * destruct (IH (S attempts) (prev ++ [message (Error msg)]) (requested rq w))
          as (more & Hm & _).
        exists (rq :: more). rewrite Hm. unfold requested. cbn [requests set_requests].
        rewrite <- app_assoc. eauto.
    + exists [rq]. cbn [fst snd]. rewrite saved_requests. cbn. eauto.
Qed.

(** C10.  An attempt of [generateGrammar] whose streamed output trims to
    the empty string fails with the error "Generated grammar is empty":
    nothing is returned and no file is written; the loop records that
    message as the attempt's error and, as after any failed attempt,
    either gives up (last attempt) or runs the next attempt, whose
    instructions quote the message: the request sent next carries it. *)
Theorem C10_empty_output_is_a_validation_failure
    (env : Env) (spec : string) (maxRetries remaining attempts : nat)
    (prev : list string) (w : World) (events : list event) (text : string) :
  service_stream env (List.length (requests w))
    (grammar_request env spec (GLOBAL_SAMPLE w) prev) = inr events ->
  accumulate "Grammar generation failed" events "" = inr text ->
  trim text = "" ->
  let msg := "Generated grammar is empty" in
  let w1 := requested (grammar_request env spec (GLOBAL_SAMPLE w) prev) w in
  let quoted := "Attempt " +:+ show_nat (List.length prev + 1) +:+ ": " +:+ msg +:+ nl in
  grammar_attempt env spec prev w = (Thrown (Error msg), w1) /\
  files w1 = files w /\
  grammar_loop env spec maxRetries (S remaining) attempts prev w =
    (if (maxRetries <=? S attempts)%nat
     then (Thrown (Error (exhausted_message maxRetries msg)), w1)
     else grammar_loop env spec maxRetries remaining (S attempts) (prev ++ [msg]) w1) /\
  includes (grammar_instructions (GLOBAL_SAMPLE w1) (prev ++ [msg])) quoted = true /\
  ((S attempts < maxRetries)%nat -> (0 < remaining)%nat ->
   exists next later,
     requests (snd (grammar_loop env spec maxRetries (S remaining) attempts prev w))
       = requests w1 ++ next :: later /\
     includes (req_instructions next) quoted = true).
Proof.
  intros Hs Ha Ht msg w1 quoted.
  assert (Ho : attempt_outcome env spec (GLOBAL_SAMPLE w) (List.length (requests w)) prev
               = inl msg).
  { unfold attempt_outcome. rewrite Hs, Ha, Ht. reflexivity. }
  assert (Hloop := grammar_loop_on_failure env spec maxRetries remaining attempts prev
                     w msg Ho).
  cbv zeta in Hloop. fold w1 in Hloop.
  split; [|split; [|split; [|split]]].
  - rewrite grammar_attempt_eq. cbv zeta. rewrite Ho. reflexivity.
  - reflexivity.
  - exact Hloop.
  - apply instructions_quote_last.
  - intros Hlt Hrem. rewrite Hloop.
    replace (maxRetries <=? S attempts)%nat with false
      by (symmetry; apply Nat.leb_gt; lia).
    destruct (grammar_loop_requests env spec maxRetries remaining (S attempts)
                (prev ++ [msg]) w1) as (more & Hm & Hfirst).
    destruct Hfirst as [later ->]; [lia|].
    exists (grammar_request env spec (GLOBAL_SAMPLE w1) (prev ++ [msg])), later.
    split; [exact Hm|].
    exact (request_quotes_each env spec (GLOBAL_SAMPLE w1) (prev ++ [msg])
             (List.length prev) msg (list_lookup_middle prev [] msg _ eq_refl)).
Qed.

Lemma C10_witness :
  let w1 := requested (grammar_request env_three_bad "calc" "" []) empty_world in
  grammar_attempt env_three_bad "calc" [] empty_world
    = (Thrown (Error "Generated grammar is empty"), w1) /\
  exists next later,
    requests (snd (grammar_loop env_three_bad "calc" 3 3 0 [] empty_world))
      = requests w1 ++ next :: later /\
    includes (req_instructions next)
      ("Attempt 1: Generated grammar is empty" +:+ nl) = true.
Proof.
  destruct (C10_empty_output_is_a_validation_failure env_three_bad "calc" 3 2 0 []
              empty_world [EvString "  "; EvString nl] ("  " +:+ nl))
    as (H1 & _ & _ & _ & H5); [vm_compute; reflexivity..|].
  split; [exact H1|]. apply H5; lia.
Defined.

(** C3, as amended.  When the cache misses and each of the [maxRetries]
    attempts of [generateGrammar] fails the local validation, exactly
    [maxRetries] requests are sent, each quoting in its instructions the
    message of every attempt before it under that attempt's number; no
    file is written, and the error thrown names the number of attempts
    and the message of the last attempt only. *)
Theorem C3_retry_bound_and_last_error
    (env : Env) (spec : string) (maxRetries : nat) (w : World) (msgs : list string) :
  (0 < maxRetries)%nat ->
  fst (getCached env "grammar" (grammar_cache_input spec) w) = Returned None ->
  failing_validations env spec (GLOBAL_SAMPLE w) maxRetries
    (List.length (requests w)) [] = Some msgs ->
  let w' := snd (generateGrammar env spec maxRetries w) in
  fst (generateGrammar env spec maxRetries w) =
    Thrown (Error ("Failed to generate valid grammar after " +:+ show_nat maxRetries
                   +:+ " attempts. Last error: " +:+ List.last msgs "")) /\
  List.length msgs = maxRetries /\
  requests w' = requests w ++ retry_requests env spec (GLOBAL_SAMPLE w) [] msgs /\
  List.length (requests w') = List.length (requests w) + maxRetries /\
  files w' = files w /\
  (forall i j msg rq,
     (i < j)%nat -> msgs !! i = Some msg ->
     requests w' !! (List.length (requests w) + j) = Some rq ->
     includes (req_instructions rq)
       ("Attempt " +:+ show_nat (i + 1) +:+ ": " +:+ msg +:+ nl) = true).
Proof.
  intros Hn Hc Hf w'.
  assert (Hg : generateGrammar env spec maxRetries w =
               grammar_loop env spec maxRetries maxRetries 0 [] w).
  { unfold generateGrammar, bind.
    pose proof (getCached_world env "grammar" (grammar_cache_input spec) w) as Hw.
    destruct (getCached env "grammar" (grammar_cache_input spec) w) as [o w0].
    cbn [fst snd] in Hw, Hc. subst o w0. reflexivity. }
  subst w'. rewrite Hg.
  rewrite (grammar_loop_exhausted env spec maxRetries maxRetries 0 [] w msgs Hn
             eq_refl Hf).
  cbn [fst snd]. pose proof (failing_validations_length _ _ _ _ _ _ _ Hf) as Hl.
  assert (Hr : forall prev, List.length (retry_requests env spec (GLOBAL_SAMPLE w) prev msgs)
               = List.length msgs).
  { clear. induction msgs as [|m ms IH]; intros prev; [reflexivity|].
    cbn [retry_requests List.length]. rewrite IH. reflexivity. }
  split; [reflexivity|]. split; [exact Hl|]. split; [reflexivity|].
  split; [cbn [requests set_requests]; rewrite List.length_app, Hr, Hl; reflexivity|].
  split; [reflexivity|].
  intros i j msg rq Hij Hi Hj. cbn [requests set_requests] in Hj.
  rewrite lookup_app_r in Hj by lia.
  replace (List.length (requests w) + j - List.length (requests w)) with j in Hj by lia.
  apply retry_requests_lookup in Hj. subst rq.
  refine (request_quotes_each env spec (GLOBAL_SAMPLE w) ([] ++ take j msgs) i msg _).
  cbn [app]. rewrite lookup_take_lt by exact Hij. exact Hi.
Qed.

Lemma C3_witness :
  fst (generateGrammar env_three_bad "calc" 3 empty_world) =
    Thrown (Error ("Failed to generate valid grammar after 3 attempts. Last error: "
                   +:+ "Grammar syntax errors: Found mismatched quotes: "
                   +:+ dq +:+ "x'")) /\
  List.length (requests (snd (generateGrammar env_three_bad "calc" 3 empty_world))) = 3.
Proof.
  destruct (C3_retry_bound_and_last_error env_three_bad "calc" 3 empty_world
    ["Generated grammar is empty";
     "Grammar syntax errors: Found single quotes in grammar: 'x'. Use double quotes instead.";
     "Grammar syntax errors: Found mismatched quotes: " +:+ dq +:+ "x'"])
    as (H1 & _ & _ & H2 & _).
  - lia.
  - vm_compute; reflexivity.
  - vm_compute; reflexivity.
  - split; [exact H1|exact H2].
Defined.

(** C3 as stated fails: after three attempts that fail the validation
    with three different messages, the error thrown lists neither the
    first nor the second of them. *)
Lemma C3_counterexample :
  exists msgs e,
    failing_validations env_three_bad "calc" "" 3 0 [] = Some msgs /\
    fst (generateGrammar env_three_bad "calc" 3 empty_world) = Thrown e /\
    List.length (requests (snd (generateGrammar env_three_bad "calc" 3 empty_world))) = 3 /\
    enumerates (message e) msgs = false /\
    includes (message e) "Generated grammar is empty" = false.
Proof.
  eexists. eexists. split; [vm_compute; reflexivity|].
  split; [vm_compute; reflexivity|].
  split; vm_compute; auto.
Qed.

(* ================================================================= *)
(** ** [JSON.stringify] separates distinct values *)

Lemma unesc_esc_char c r : unesc_char (esc_char c +:+ r) = Some (c, r).
Proof. destruct c as [[] [] [] [] [] [] [] []]; reflexivity. Qed.

Lemma esc_char_apart c1 c2 r1 r2 :
  esc_char c1 +:+ r1 = esc_char c2 +:+ r2 -> c1 = c2 /\ r1 = r2.
Proof.
  intros H. apply (f_equal unesc_char) in H. rewrite !unesc_esc_char in H.
  injection H as -> ->. auto.
Qed.

Lemma esc_char_not_quote c r1 r2 : esc_char c +:+ r1 <> String DQ r2.
Proof.
  intros H. apply (f_equal unesc_char) in H. rewrite unesc_esc_char in H.
  discriminate.
Qed.

Lemma esc_apart s1 : forall s2 r1 r2,
  esc s1 +:+ String DQ r1 = esc s2 +:+ String DQ r2 -> s1 = s2 /\ r1 = r2.
Proof.
  induction s1 as [|c1 s1 IH]; intros [|c2 s2] r1 r2 H; cbn [esc] in H.
  - rewrite !app_empty_l in H. injection H as ->. auto.
  - rewrite app_empty_l, app_assoc' in H. symmetry in H.
    exfalso. eapply esc_char_not_quote, H.
  - rewrite app_empty_l, app_assoc' in H. exfalso. eapply esc_char_not_quote, H.
  - rewrite !app_assoc' in H. apply esc_char_apart in H as [-> H].
    apply IH in H as [-> ->]. auto.
Qed.

Lemma quote_apart s1 s2 r1 r2 :
  quote s1 +:+ r1 = quote s2 +:+ r2 -> s1 = s2 /\ r1 = r2.
Proof.
  unfold quote, dq. rewrite !app_cons, !app_empty_l, !app_assoc', !app_cons, !app_empty_l.
  intros H. injection H as H. eapply esc_apart, H.
Qed.

(** Induction on [json] that reaches the items and the members. *)
Lemma json_induction (P : json -> Prop) :
  (forall s, P (JString s)) ->
  (forall items, Forall P items -> P (JArray items)) ->
  (forall fields, Forall (fun kv => P (snd kv)) fields -> P (JObject fields)) ->
  forall v, P v.
Proof.
  intros Hs Ha Ho. fix IH 1. intros [s|items|fields].
  - apply Hs.
  - apply Ha. induction items as [|x xs IHxs]; constructor; [apply IH|exact IHxs].
  - apply Ho. induction fields as [|[k x] fs IHfs]; constructor; [apply IH|exact IHfs].
Qed.

(** The first character of a serialised value. *)
Lemma stringify_head v :
  exists c rest, JSON_stringify v = String c rest /\
                 (c = DQ \/ c = "["%char \/ c = "{"%char).
Proof.
  destruct v; cbn [JSON_stringify]; unfold quote, dq;
    rewrite ?app_cons, ?app_empty_l; eauto 6.
Qed.

Lemma string_cons_inj a b s t : String a s = String b t -> a = b /\ s = t.
Proof. intros H. injection H as -> ->. auto. Qed.

Section SeparatedApart.

Context {A : Type} (f : A -> string) (close : ascii).

(* an item never starts with a comma or with the closing bracket *)
Hypothesis item_head : forall x, exists c rest,
  f x = String c rest /\ c <> ","%char /\ c <> close.

Hypothesis close_not_comma : close <> ","%char.

Lemma separated_cons (sep : string) x xs :
  separated f sep (x :: xs) =
  f x +:+ match xs with [] => "" | _ => sep +:+ separated f sep xs end.
Proof. reflexivity. Qed.

Lemma separated_apart xs :
  Forall (fun x => forall y r1 r2, f x +:+ r1 = f y +:+ r2 -> x = y /\ r1 = r2) xs ->
  forall ys r1 r2,
  separated f "," xs +:+ String close r1 = separated f "," ys +:+ String close r2 ->
  xs = ys /\ r1 = r2.
Proof.
  induction 1 as [|x xs Hx Hxs IH]; intros [|y ys] r1 r2 H.
  - cbn [separated] in H. rewrite !app_empty_l in H. injection H as ->. auto.
  - exfalso. destruct (item_head y) as (c & rest & E & _ & Hc).
    rewrite separated_cons in H. cbn [separated] in H.
    rewrite app_empty_l, E, !app_cons in H. injection H as -> _. congruence.
  - exfalso. destruct (item_head x) as (c & rest & E & _ & Hc).
    rewrite separated_cons in H. cbn [separated] in H.
    rewrite app_empty_l, E, !app_cons in H. injection H as -> _. congruence.
  - rewrite !separated_cons, !app_assoc' in H. apply Hx in H as [-> H].
    destruct xs as [|x' xs], ys as [|y' ys]; cbv match in H.
    + rewrite !app_empty_l in H. injection H as ->. auto.
    + rewrite app_empty_l, !app_assoc', !app_cons in H. injection H as E _. congruence.
    + rewrite app_empty_l, !app_assoc', !app_cons in H. injection H as E _. congruence.
    + rewrite !app_cons, !app_empty_l in H. apply string_cons_inj in H as [_ H].
      apply IH in H as [E ->]. rewrite E. auto.
Qed.

End SeparatedApart.

Lemma stringify_apart v1 : forall v2 r1 r2,
  JSON_stringify v1 +:+ r1 = JSON_stringify v2 +:+ r2 -> v1 = v2 /\ r1 = r2.
Proof.
  induction v1 as [s1|xs IH|fs IH] using json_induction; intros v2 r1 r2 H.
  - destruct v2 as [s2|ys|gs]; cbn [JSON_stringify] in H.
    + apply quote_apart in H as [-> ->]. auto.
    + unfold quote, dq in H. rewrite !app_cons in H. discriminate.
    + unfold quote, dq in H. rewrite !app_cons in H. discriminate.
  - destruct v2 as [s2|ys|gs]; cbn [JSON_stringify] in H.
    + unfold quote, dq in H. rewrite !app_cons in H. discriminate.
    + rewrite !app_cons, !app_empty_l, !app_assoc', !app_cons, !app_empty_l in H.
      injection H as H.
      apply (separated_apart JSON_stringify "]"%char) in H.
      * destruct H as [-> ->]. auto.
      * intros x. destruct (stringify_head x) as (c & rest & E & Hc).
        exists c, rest. split; [exact E|].
        destruct Hc as [->| [->| ->]]; split; discriminate.
      * discriminate.
      * exact IH.
    + rewrite !app_cons in H. discriminate.
  - destruct v2 as [s2|ys|gs]; cbn [JSON_stringify] in H.
    + unfold quote, dq in H. rewrite !app_cons in H. discriminate.
    + rewrite !app_cons in H. discriminate.
    + rewrite !app_cons, !app_empty_l, !app_assoc', !app_cons, !app_empty_l in H.
      injection H as H.
      apply (separated_apart _ "}"%char) in H.
      * destruct H as [-> ->]. auto.
      * intros [k x]. unfold quote, dq. rewrite !app_cons.
        eexists _, _. split; [reflexivity|]. split; discriminate.
      * discriminate.
      * eapply Forall_impl; [exact IH|].
        intros [k x] Hx [k' y] q1 q2 E. cbn [snd] in Hx.
        rewrite !app_assoc' in E. apply quote_apart in E as [-> E].
        rewrite !app_cons, !app_empty_l in E. injection E as E.
        apply Hx in E as [-> ->]. auto.
Qed.

Lemma JSON_stringify_inj v1 v2 :
  JSON_stringify v1 = JSON_stringify v2 -> v1 = v2.
Proof.
  intros H. apply (stringify_apart v1 v2 "" ""). rewrite H. reflexivity.
Qed.

(* ================================================================= *)
(** ** Local validation: C4 *)

Lemma mismatched_quoting_iff s :
  mismatched_quoting s <-> has_char DQ s = true /\ has_char SQ s = true.
Proof.
  split.
  - intros (a & b & c & [-> | ->]); rewrite !has_char_app; cbn [has_char];
      rewrite !has_char_app; cbn [has_char]; rewrite !Ascii.eqb_refl;
      rewrite ?orb_true_r; auto.
  - intros [Hd Hs]. apply has_char_first in Hd as (a & t & -> & Ha).
    destruct (has_char SQ t) eqn:Ht.
    + apply has_char_first in Ht as (b & c & -> & _). exists a, b, c. auto.
    + rewrite has_char_app in Hs. cbn [has_char] in Hs. rewrite Ht in Hs.
      assert (Hsa : has_char SQ a = true).
      { destruct (has_char SQ a); [reflexivity|]. cbn in Hs. discriminate. }
      apply has_char_first in Hsa as (a1 & a2 & -> & _).
      exists a1, a2, t. right. rewrite app_assoc', app_cons. reflexivity.
Qed.

Lemma grammar_loop_spawns env spec maxRetries remaining :
  forall attempts prev w,
  spawns (snd (grammar_loop env spec maxRetries remaining attempts prev w)) = spawns w.
Proof.
  induction remaining as [|remaining IH]; intros attempts prev w; [reflexivity|].
  cbn [grammar_loop]. unfold try_catch. rewrite grammar_attempt_eq. cbv zeta.
  destruct (attempt_outcome env spec (GLOBAL_SAMPLE w) (List.length (requests w)) prev)
    as [msg|g].
  - destruct (maxRetries <=? S attempts)%nat; [reflexivity|]. rewrite IH. reflexivity.
  - cbn [snd]. rewrite saved_spawns. reflexivity.
Qed.

Lemma generateGrammar_spawns env spec maxRetries w :
  spawns (snd (generateGrammar env spec maxRetries w)) = spawns w.
Proof.
  unfold generateGrammar, bind.
  pose proof (getCached_world env "grammar" (grammar_cache_input spec) w) as Hw.
  pose proof (getCached_value env "grammar" (grammar_cache_input spec) w) as Hv.
  destruct (getCached env "grammar" (grammar_cache_input spec) w) as [o w0].
  cbn [fst snd] in Hw, Hv. subst o w0.
  match goal with |- context [match ?x with Some _ => _ | None => _ end] =>
    destruct x end; [reflexivity|apply grammar_loop_spawns].
Qed.

(** C4, as amended.  A non-empty grammar text produced by an attempt is
    rejected when it has a single-quoted span whose opening quote does
    not directly follow a slash, or a pair of quotes opened in one style
    and closed in the other: the attempt throws, so the text is neither
    returned nor cached, and the loop records the message and retries or
    gives up.  These two conditions are exactly what the validation
    rejects.  [generateGrammar] never starts the compiler. *)
Theorem C4_local_validation
    (env : Env) (spec : string) (maxRetries remaining attempts : nat)
    (prev : list string) (w : World) (events : list event) (text : string) :
  service_stream env (List.length (requests w))
    (grammar_request env spec (GLOBAL_SAMPLE w) prev) = inr events ->
  accumulate "Grammar generation failed" events "" = inr text ->
  trim text <> "" ->
  unslashed_single_quotes (trim text) \/ mismatched_quoting (trim text) ->
  let w1 := requested (grammar_request env spec (GLOBAL_SAMPLE w) prev) w in
  (exists msg,
     validateGrammar (trim text) = Some msg /\
     grammar_attempt env spec prev w = (Thrown (Error msg), w1) /\
     grammar_loop env spec maxRetries (S remaining) attempts prev w =
       (if (maxRetries <=? S attempts)%nat
        then (Thrown (Error (exhausted_message maxRetries msg)), w1)
        else grammar_loop env spec maxRetries remaining (S attempts)
               (prev ++ [msg]) w1)) /\
  files w1 = files w /\ spawns w1 = spawns w /\
  (forall g, validateGrammar g = None <->
             g <> "" /\ ~ unslashed_single_quotes g /\ ~ mismatched_quoting g) /\
  (forall n w0, spawns (snd (generateGrammar env spec n w0)) = spawns w0) /\
  (forall outputDir w0 e,
     fst (generateGrammar env spec 3 w0) = Thrown e ->
     fst (main_grammar_then_parser env spec outputDir w0) = Exited 1 /\
     spawns (snd (main_grammar_then_parser env spec outputDir w0)) = spawns w0).
Proof.
  intros Hs Ha Hne Hbad w1.
  assert (Hiff : forall g, validateGrammar g = None <->
             g <> "" /\ ~ unslashed_single_quotes g /\ ~ mismatched_quoting g).
  { intros g. rewrite validateGrammar_None_iff, mismatched_quoting_iff. reflexivity. }
  split; [|split; [reflexivity|split; [reflexivity|split;
    [exact Hiff|split; [intros; apply generateGrammar_spawns|]]]]].
  2: { intros outputDir w0 e He. unfold main_grammar_then_parser, try_catch, bind.
       pose proof (generateGrammar_spawns env spec 3 w0) as Hsp.
       destruct (generateGrammar env spec 3 w0) as [o wg]. cbn [fst snd] in He, Hsp.
       subst o. cbn [fst snd process_exit]. auto. }
  destruct (validateGrammar (trim text)) as [msg|] eqn:Hv.
  - exists msg.
    assert (Ho : attempt_outcome env spec (GLOBAL_SAMPLE w)
                   (List.length (requests w)) prev = inl msg).
    { unfold attempt_outcome. rewrite Hs, Ha, Hv. reflexivity. }
    split; [reflexivity|]. split.
    + rewrite grammar_attempt_eq. cbv zeta. rewrite Ho. reflexivity.
    + apply grammar_loop_on_failure, Ho.
  - exfalso. apply Hiff in Hv as (_ & H1 & H2). tauto.
Qed.

Lemma C4_witness :
  exists msg,
    validateGrammar (trim "start: 'x'") = Some msg /\
    grammar_attempt env_single_quote "calc" [] empty_world =
      (Thrown (Error msg),
       requested (grammar_request env_single_quote "calc"
                    (GLOBAL_SAMPLE empty_world) []) empty_world).
Proof.
  destruct (C4_local_validation env_single_quote "calc" 3 2 0 [] empty_world
              [EvString "start: 'x'"] "start: 'x'")
    as ((msg & H1 & H2 & _) & _).
  - vm_compute; reflexivity.
  - vm_compute; reflexivity.
  - vm_compute; discriminate.
  - left. exists "start: ", "x", "".
    split; [vm_compute; reflexivity|vm_compute; discriminate].
  - exists msg. split; [exact H1|exact H2].
Defined.

(** C4 as stated fails: a grammar whose single-quoted literal directly
    follows the closing slash of a regex pattern passes the validation,
    is returned and is cached. *)
Lemma C4_counterexample :
  single_quoted_literal_outside_regex slash_quote_grammar = true /\
  validateGrammar slash_quote_grammar = None /\
  fst (generateGrammar env_slash_quote "calc" 3 empty_world)
    = Returned slash_quote_grammar /\
  option_map ce_output
    (cache_lookup env_slash_quote "grammar" (grammar_cache_input "calc")
       (snd (generateGrammar env_slash_quote "calc" 3 empty_world)))
    = Some slash_quote_grammar.
Proof. vm_compute. auto. Qed.

(* ================================================================= *)
(** ** The cache: C2 and C1 *)

(** C2, as amended.  The cache key is the SHA-256 digest of the stage
    type followed by [JSON.stringify(input)].  For inputs without a key
    made of digits, as the cache inputs of the three stages are, that
    serialisation follows the insertion order of the fields: two such
    inputs are hashed from the same text exactly when they are the same
    value, fields in the same order; in that case, and only then up to a
    collision of the hash, they get the same key. *)
Theorem C2_cache_key_follows_field_order (type : string) (v1 v2 : json) :
  getCacheKey type v1 = SHA256.digest_hex (type +:+ JSON_stringify v1) /\
  (plain_keys v1 = true -> plain_keys v2 = true ->
   (JSON_stringify v1 = JSON_stringify v2 <-> v1 = v2) /\
   (type +:+ JSON_stringify v1 = type +:+ JSON_stringify v2 <-> v1 = v2)) /\
  (v1 = v2 -> getCacheKey type v1 = getCacheKey type v2) /\
  (forall spec grammarText semantics schema,
     plain_keys (grammar_cache_input spec) = true /\
     plain_keys (example_cache_input spec grammarText semantics) = true /\
     plain_keys (interpreter_cache_input grammarText schema semantics) = true).
Proof.
  split; [reflexivity|]. split; [|split].
  - intros _ _. split.
    + split; [apply JSON_stringify_inj|intros ->; reflexivity].
    + split; [|intros ->; reflexivity].
      intros H. apply JSON_stringify_inj. eapply String.app_inj, H.
  - intros ->. reflexivity.
  - intros spec grammarText semantics schema.
    assert (Hs : forall l, plain_keys (strings_json l) = true).
    { intros l. unfold strings_json. cbn [plain_keys].
      induction l as [|x l IH]; [reflexivity|exact IH]. }
    split; [reflexivity|]. split; [reflexivity|].
    unfold interpreter_cache_input, schema_json.
    cbn [plain_keys forallb fst snd]. rewrite !Hs. reflexivity.
Qed.

(** C2 as stated fails: the cache input of the example stage and the same
    three fields listed in another order get different keys. *)
Lemma C2_counterexample :
  exists v1 v2,
    v1 = example_cache_input "calc" "start: NUMBER" "evaluate" /\
    same_fields_any_order v1 v2 /\
    getCacheKey "example" v1 <> getCacheKey "example" v2.
Proof.
  exists (example_cache_input "calc" "start: NUMBER" "evaluate"),
    (JObject [("grammarText", JString "start: NUMBER"); ("spec", JString "calc");
              ("semantics", JString "evaluate")]).
  split; [reflexivity|]. split.
  - eexists _, _. split; [reflexivity|]. split; [reflexivity|]. apply perm_swap.
  - vm_compute. discriminate.
Qed.

Lemma cache_hit env type input w e :
  READ_FROM_CACHE env = true ->
  can_mkdir env (CACHE_DIR env) = true ->
  files w !! cachePath env type input = Some (CacheJson e) ->
  getCached env type input w = (Returned (Some e), w).
Proof.
  intros Hr Hm Hf.
  pose proof (getCached_world env type input w) as Hw.
  pose proof (getCached_value env type input w) as Hv.
  rewrite Hr, Hm, Hf in Hv. cbn [andb] in Hv.
  destruct (getCached env type input w) as [o w0]. cbn [fst snd] in Hw, Hv.
  subst. reflexivity.
Qed.

Lemma getCached_inv env type input w o :
  fst (getCached env type input w) = Returned o ->
  getCached env type input w = (Returned o, w) /\
  (forall e, o = Some e ->
     READ_FROM_CACHE env = true /\ can_mkdir env (CACHE_DIR env) = true /\
     files w !! cachePath env type input = Some (CacheJson e)).
Proof.
  intros H.
  pose proof (getCached_world env type input w) as Hw.
  pose proof (getCached_value env type input w) as Hv.
  rewrite H in Hv. injection Hv as Hv.
  destruct (getCached env type input w) as [o' w0]. cbn [fst snd] in H, Hw.
  subst o' w0. split; [reflexivity|]. intros e ->.
  destruct (READ_FROM_CACHE env); [|discriminate].
  destruct (can_mkdir env (CACHE_DIR env)); [|discriminate]. cbn [andb] in Hv.
  destruct (files w !! cachePath env type input) as [[s|e']|]; try discriminate.
  injection Hv as ->. auto.
Qed.

Lemma getCached_returns env type input w :
  exists o, fst (getCached env type input w) = Returned o.
Proof. rewrite getCached_value. eauto. Qed.

(** With writes enabled and the storage willing, [saveCache] leaves the
    entry behind. *)
Lemma saved_lookup env type input output w :
  WRITE_TO_CACHE env = true ->
  can_mkdir env (CACHE_DIR env) = true ->
  can_write env (cachePath env type input) = true ->
  exists ts,
    files (saved env type input output w) !! cachePath env type input
    = Some (CacheJson (MkEntry input output ts)).
Proof.
  intros Hw Hm Hc. unfold saved. rewrite Hw, Hm, Hc. cbn [andb].
  eexists. cbn [files set_files]. apply lookup_insert_eq.
Qed.

Lemma saved_requests_length env type input output w :
  List.length (requests (saved env type input output w)) = List.length (requests w).
Proof. rewrite saved_requests. reflexivity. Qed.

Section Storage.

Context (env : Env).

Hypothesis writes_on : WRITE_TO_CACHE env = true.

Hypothesis mkdir_ok : can_mkdir env (CACHE_DIR env) = true.

Lemma grammar_loop_returned spec maxRetries remaining :
  can_write env (cachePath env "grammar" (grammar_cache_input spec)) = true ->
  forall attempts prev w g,
  fst (grammar_loop env spec maxRetries remaining attempts prev w) = Returned g ->
  let w1 := snd (grammar_loop env spec maxRetries remaining attempts prev w) in
  (exists ts, files w1 !! cachePath env "grammar" (grammar_cache_input spec)
              = Some (CacheJson (MkEntry (grammar_cache_input spec) g ts))) /\
  List.length (requests w1) <= List.length (requests w) + remaining.
Proof.
  intros Hc. induction remaining as [|remaining IH]; intros attempts prev w g H;
    [discriminate|].
  cbn [grammar_loop] in H |- *. unfold try_catch in H |- *.
  rewrite grammar_attempt_eq in H |- *. cbv zeta in H |- *.
  destruct (attempt_outcome env spec (GLOBAL_SAMPLE w) (List.length (requests w)) prev)
    as [msg|g'].
  - destruct (maxRetries <=? S attempts)%nat; [discriminate|].
    destruct (IH _ _ _ _ H) as [He Hl]. split; [exact He|].
    etransitivity; [exact Hl|]. unfold requested. cbn [requests set_requests].
    rewrite List.length_app. cbn. lia.
  - cbn [fst snd] in H |- *. injection H as ->. split.
    + apply saved_lookup; assumption.
    + rewrite saved_requests_length. unfold requested. cbn [requests set_requests].
      rewrite List.length_app. cbn. lia.
Qed.

End Storage.

Section Idempotence.

Context (env : Env).

Hypothesis reads_on : READ_FROM_CACHE env = true.

Hypothesis writes_on : WRITE_TO_CACHE env = true.

Hypothesis mkdir_ok : can_mkdir env (CACHE_DIR env) = true.

Lemma generateGrammar_twice spec maxRetries w g :
  can_write env (cachePath env "grammar" (grammar_cache_input spec)) = true ->
  fst (generateGrammar env spec maxRetries w) = Returned g ->
  let w1 := snd (generateGrammar env spec maxRetries w) in
  generateGrammar env spec maxRetries w1 = (Returned g, w1) /\
  List.length (requests w1) <= List.length (requests w) + maxRetries.
Proof.
  intros Hc H w1.
  assert (He : (exists e, files w1 !! cachePath env "grammar" (grammar_cache_input spec)
                          = Some (CacheJson e) /\ ce_output e = g) /\
               List.length (requests w1) <= List.length (requests w) + maxRetries).
  { subst w1. revert H. unfold generateGrammar, bind.
    destruct (getCached_returns env "grammar" (grammar_cache_input spec) w) as [o Ho].
    destruct (getCached_inv _ _ _ _ _ Ho) as [-> Hinv].
    destruct o as [e|].
    - cbn [fst snd ret]. intros [= <-]. destruct (Hinv e eq_refl) as (_ & _ & Hf).
      split; [eauto|lia].
    - intros H.
      destruct (grammar_loop_returned env writes_on mkdir_ok spec maxRetries
                  maxRetries Hc 0 [] w g H) as [[ts Hts] Hl].
      split; [|exact Hl]. eexists. split; [exact Hts|reflexivity]. }
  destruct He as [(e & Hf & <-) Hl]. split; [|exact Hl].
  unfold generateGrammar, bind.
  rewrite (cache_hit env _ _ _ e reads_on mkdir_ok Hf). reflexivity.
Qed.

Lemma generateInterpreter_twice grammarText schema semantics w code :
  can_write env (cachePath env "interpreter"
                   (interpreter_cache_input grammarText schema semantics)) = true ->
  fst (generateInterpreter env grammarText schema semantics w) = Returned code ->
  let w1 := snd (generateInterpreter env grammarText schema semantics w) in
  generateInterpreter env grammarText schema semantics w1 = (Returned code, w1) /\
  List.length (requests w1) <= List.length (requests w) + 1.
Proof.
  intros Hc H w1.
  set (input := interpreter_cache_input grammarText schema semantics) in *.
  assert (He : (exists e, files w1 !! cachePath env "interpreter" input
                          = Some (CacheJson e) /\ ce_output e = code) /\
               List.length (requests w1) <= List.length (requests w) + 1).
  { subst w1. revert H. unfold generateInterpreter, bind. fold input.
    destruct (getCached_returns env "interpreter" input w) as [o Ho].
    destruct (getCached_inv _ _ _ _ _ Ho) as [-> Hinv].
    destruct o as [e|].
    - cbn [fst snd ret]. intros [= <-]. destruct (Hinv e eq_refl) as (_ & _ & Hf).
      split; [eauto|lia].
    - unfold append_sample_to_const, bind, get_world, create_text, throw, ret.
      destruct (truthy (GLOBAL_SAMPLE w)); [discriminate|].
      match goal with |- context [service_text ?a ?b ?c] =>
        destruct (service_text a b c) as [msg|response] end; [discriminate|].
      rewrite saveCache_eq. cbn [fst snd]. intros [= <-].
      destruct (saved_lookup env "interpreter" input (with_prelude response)
                  (set_requests
                     (requests w ++
                      [interpreter_request env
                         (interpreter_instructions_head +:+ interpreter_requirements)
                         grammarText schema semantics]) w)
                  writes_on mkdir_ok Hc) as [ts Hts].
      split; [eexists; split; [exact Hts|reflexivity]|].
      rewrite saved_requests_length. cbn [requests set_requests].
      rewrite List.length_app. cbn. lia. }
  destruct He as [(e & Hf & <-) Hl]. split; [|exact Hl].
  unfold generateInterpreter, bind. fold input.
  rewrite (cache_hit env _ _ _ e reads_on mkdir_ok Hf). reflexivity.
Qed.

Lemma generateExampleProgram_twice spec grammarText semantics w events text :
  can_write env (cachePath env "example"
                   (example_cache_input spec grammarText semantics)) = true ->
  service_stream env (List.length (requests w))
    (example_request env spec grammarText semantics (GLOBAL_SAMPLE w)) = inr events ->
  accumulate "Example generation failed" events "" = inr text ->
  let w1 := snd (generateExampleProgram env spec grammarText semantics w) in
  exists out,
    fst (generateExampleProgram env spec grammarText semantics w) = Returned out /\
    generateExampleProgram env spec grammarText semantics w1 = (Returned out, w1) /\
    List.length (requests w1) <= List.length (requests w) + 1.
Proof.
  intros Hc Hs Ha w1.
  set (input := example_cache_input spec grammarText semantics) in *.
  assert (He : exists e, fst (generateExampleProgram env spec grammarText semantics w)
                         = Returned (ce_output e) /\
               files w1 !! cachePath env "example" input = Some (CacheJson e) /\
               List.length (requests w1) <= List.length (requests w) + 1).
  { subst w1. unfold generateExampleProgram, bind. fold input.
    destruct (getCached_returns env "example" input w) as [o Ho].
    destruct (getCached_inv _ _ _ _ _ Ho) as [-> Hinv].
    destruct o as [e|].
    - cbn [fst snd ret]. destruct (Hinv e eq_refl) as (_ & _ & Hf).
      exists e. split; [reflexivity|]. split; [exact Hf|lia].
    - unfold try_catch, bind, get_world, create_stream, throw, ret.
      rewrite Hs, Ha, saveCache_eq. cbn [fst snd].
      destruct (saved_lookup env "example" input (trim text)
                  (set_requests
                     (requests w ++
                      [example_request env spec grammarText semantics (GLOBAL_SAMPLE w)])
                     w) writes_on mkdir_ok Hc) as [ts Hts].
      eexists. split; [|split; [exact Hts|]]; [reflexivity|].
      rewrite saved_requests_length. cbn [requests set_requests].
      rewrite List.length_app. cbn. lia. }
  destruct He as (e & Hout & Hf & Hl). exists (ce_output e).
  split; [exact Hout|]. split; [|exact Hl].
  unfold generateExampleProgram, bind. fold input.
  rewrite (cache_hit env _ _ _ e reads_on mkdir_ok Hf). reflexivity.
Qed.

End Idempotence.

(** C1, as amended.  With cache reads and cache writes both enabled and
    the cache directory and file writable: when [generateGrammar] or
    [generateInterpreter] returns, or [generateExampleProgram] is answered
    by a stream without an error event, a second call with the same input
    is a cache hit: it returns the same output and leaves the world as it
    is, so the service is not invoked again.  Over the two calls the
    service is invoked at most once by the example and interpreter
    stages, and at most [maxRetries] times by the grammar stage. *)
Theorem C1_cache_idempotence (env : Env) (w : World) :
  READ_FROM_CACHE env = true ->
  WRITE_TO_CACHE env = true ->
  can_mkdir env (CACHE_DIR env) = true ->
  (forall spec maxRetries g,
     can_write env (cachePath env "grammar" (grammar_cache_input spec)) = true ->
     fst (generateGrammar env spec maxRetries w) = Returned g ->
     let w1 := snd (generateGrammar env spec maxRetries w) in
     generateGrammar env spec maxRetries w1 = (Returned g, w1) /\
     List.length (requests w1) <= List.length (requests w) + maxRetries) /\
  (forall spec grammarText semantics events text,
     can_write env (cachePath env "example"
                      (example_cache_input spec grammarText semantics)) = true ->
     service_stream env (List.length (requests w))
       (example_request env spec grammarText semantics (GLOBAL_SAMPLE w))
       = inr events ->
     accumulate "Example generation failed" events "" = inr text ->
     let w1 := snd (generateExampleProgram env spec grammarText semantics w) in
     exists out,
       fst (generateExampleProgram env spec grammarText semantics w) = Returned out /\
       generateExampleProgram env spec grammarText semantics w1 = (Returned out, w1) /\
       List.length (requests w1) <= List.length (requests w) + 1) /\
  (forall grammarText schema semantics code,
     can_write env (cachePath env "interpreter"
                      (interpreter_cache_input grammarText schema semantics)) = true ->
     fst (generateInterpreter env grammarText schema semantics w) = Returned code ->
     let w1 := snd (generateInterpreter env grammarText schema semantics w) in
     generateInterpreter env grammarText schema semantics w1 = (Returned code, w1) /\
     List.length (requests w1) <= List.length (requests w) + 1).
Proof.
  intros Hr Hw Hm. split; [|split].
  - intros. apply generateGrammar_twice; assumption.
  - intros. eapply generateExampleProgram_twice; eassumption.
  - intros. apply generateInterpreter_twice; assumption.
Qed.

Lemma C1_witness :
  (let w1 := snd (generateGrammar env_calc "calc" 3 empty_world) in
   exists g, generateGrammar env_calc "calc" 3 w1 = (Returned g, w1) /\
             List.length (requests w1) <= 0 + 3) /\
  (let w1 := snd (generateExampleProgram env_calc "calc" "start: NUMBER" "evaluate"
                    empty_world) in
   exists out,
     generateExampleProgram env_calc "calc" "start: NUMBER" "evaluate" w1
       = (Returned out, w1) /\
     List.length (requests w1) <= 0 + 1) /\
  (let w1 := snd (generateInterpreter env_calc "start: sum" sum_schema "evaluate"
                    empty_world) in
   exists code,
     generateInterpreter env_calc "start: sum" sum_schema "evaluate" w1
       = (Returned code, w1) /\
     List.length (requests w1) <= 0 + 1).
Proof.
  destruct (C1_cache_idempotence env_calc empty_world) as (Hg & He & Hi);
    [vm_compute; reflexivity..|].
  split; [|split].
  - eexists. apply Hg; vm_compute; reflexivity.
  - edestruct He as (out & _ & H2 & H3);
      [vm_compute; reflexivity..|].
    exists out. split; [exact H2|exact H3].
  - eexists. apply Hi; vm_compute; reflexivity.
Defined.

(** C1 as stated fails: with cache writes enabled and cache reads
    switched off, the second call of each stage misses the cache and
    invokes the service again. *)
Lemma C1_counterexample :
  WRITE_TO_CACHE env_calc_no_reads = true /\
  (let w1 := snd (generateGrammar env_calc_no_reads "calc" 3 empty_world) in
   cache_lookup env_calc_no_reads "grammar" (grammar_cache_input "calc") w1 = None /\
   List.length (requests w1) = 1 /\
   List.length (requests (snd (generateGrammar env_calc_no_reads "calc" 3 w1))) = 2) /\
  (let w1 := snd (generateExampleProgram env_calc_no_reads "calc" "start: NUMBER"
                    "evaluate" empty_world) in
   cache_lookup env_calc_no_reads "example"
     (example_cache_input "calc" "start: NUMBER" "evaluate") w1 = None /\
   List.length (requests w1) = 1 /\
   List.length (requests (snd (generateExampleProgram env_calc_no_reads "calc"
                                 "start: NUMBER" "evaluate" w1))) = 2) /\
  (let w1 := snd (generateInterpreter env_calc_no_reads "start: sum" sum_schema
                    "evaluate" empty_world) in
   cache_lookup env_calc_no_reads "interpreter"
     (interpreter_cache_input "start: sum" sum_schema "evaluate") w1 = None /\
   List.length (requests w1) = 1 /\
   List.length (requests (snd (generateInterpreter env_calc_no_reads "start: sum"
                                 sum_schema "evaluate" w1))) = 2).
Proof. vm_compute. auto 10. Qed.

(* ================================================================= *)
(** ** Compilation: C5 *)

(** C5, as amended.  When the compiler exits with status zero,
    [compileGrammar] attempts the rewrite before it returns the paths: if
    the parser file can be read and written, its content is replaced by
    the rewritten text; if it cannot, the failure is swallowed, the file
    is left as the compiler left it, and the paths are returned all the
    same.  The retry loop returns at that first success.  On a parser
    holding the compiler's [get_parser], the rewrite puts the filtering
    [get_parser] in its place. *)
Theorem C5_post_processing_is_best_effort
    (env : Env) (cmd : string) (paths : CompileResult) (grammarText : string)
    (maxRetries remaining : nat) (lastError : option JsError) (w : World)
    (sp_stderr : string) (sp_parser : option string) :
  lark_js env (List.length (spawns w)) cmd
    [grammarFile paths; "-o"; parserFile paths] (files w)
    = SpawnExit 0 sp_stderr sp_parser ->
  let w2 := after_compiler cmd paths sp_parser w in
  let w3 := snd (run_lark_js env cmd paths grammarText w) in
  fst (run_lark_js env cmd paths grammarText w) = Returned paths /\
  files w3 =
    match files w2 !! parserFile paths with
    | Some d =>
        if can_write env (parserFile paths)
        then <[parserFile paths := Text (rewrite_parser (file_text d))]> (files w2)
        else files w2
    | None => files w2
    end /\
  compile_loop env cmd paths grammarText maxRetries (S remaining) lastError w
    = (Returned paths, w3) /\
  rewrite_parser compiled_parser = parser_before +:+ newGetParser +:+ parser_after.
Proof.
  intros H w2 w3.
  assert (E : run_lark_js env cmd paths grammarText w =
              (fix_parser env (parserFile paths) ;;; ret paths) w2).
  { unfold run_lark_js. rewrite H. reflexivity. }
  assert (E' : (fix_parser env (parserFile paths) ;;; ret paths) w2 =
    (Returned paths,
     match files w2 !! parserFile paths with
     | Some d =>
         if can_write env (parserFile paths)
         then set_files (<[parserFile paths := Text (rewrite_parser (file_text d))]>
                           (files w2)) w2
         else w2
     | None => w2
     end)).
  { unfold fix_parser, bind, try_catch, fs_readFile, fs_writeFile, modify, throw, ret.
    destruct (files w2 !! parserFile paths) as [d|]; [|reflexivity].
    destruct (can_write env (parserFile paths)); reflexivity. }
  subst w3. rewrite E, E'. cbn [fst snd]. split; [reflexivity|]. split; [|split].
  - destruct (files w2 !! parserFile paths) as [d|]; [|reflexivity].
    destruct (can_write env (parserFile paths)); reflexivity.
  - cbn [compile_loop]. unfold try_catch. rewrite E, E'. reflexivity.
  - vm_compute. reflexivity.
Qed.

Lemma C5_witness :
  fst (run_lark_js env_compiles "lark-js"
         (MkCompileResult "/out/grammar.lark" "/out/parser.cjs") calc_grammar
         empty_world)
    = Returned (MkCompileResult "/out/grammar.lark" "/out/parser.cjs") /\
  files (snd (run_lark_js env_compiles "lark-js"
                (MkCompileResult "/out/grammar.lark" "/out/parser.cjs")
                calc_grammar empty_world)) !! "/out/parser.cjs"
    = Some (Text (parser_before +:+ newGetParser +:+ parser_after)).
Proof.
  destruct (C5_post_processing_is_best_effort env_compiles "lark-js"
              (MkCompileResult "/out/grammar.lark" "/out/parser.cjs") calc_grammar
              3 2 None empty_world "" (Some compiled_parser))
    as (H1 & H2 & _ & H4); [vm_compute; reflexivity|].
  split; [exact H1|]. rewrite H2. vm_compute. reflexivity.
Defined.

(** C5 as stated fails: the compiler exits with status zero and the
    parser it wrote cannot be written again; [compileGrammar] returns
    the paths, and the parser file still holds the compiler's text, which
    is not the rewritten one. *)
Lemma C5_counterexample :
  let r := compileGrammar env_compiles_read_only calc_grammar "/out" 3 empty_world in
  lark_js env_compiles_read_only 0 "lark-js"
    ["/out/grammar.lark"; "-o"; "/out/parser.cjs"]
    (<["/out/grammar.lark" := Text calc_grammar]> ∅)
    = SpawnExit 0 "" (Some compiled_parser) /\
  fst r = Returned (MkCompileResult "/out/grammar.lark" "/out/parser.cjs") /\
  files (snd r) !! "/out/parser.cjs" = Some (Text compiled_parser) /\
  compiled_parser <> rewrite_parser compiled_parser /\
  includes compiled_parser "delete filteredData.options.strict" = false.
Proof. vm_compute. repeat split; discriminate. Qed.

(* ================================================================= *)
(** ** Schema extraction: C6 *)





(** The [Set] semantics of [collect]: no name twice, and exactly the
    names captured by some match. *)
Lemma set_add_elem xs x y : y ∈ set_add xs x <-> y ∈ xs \/ y = x.
Proof.
  unfold set_add. case_bool_decide as Hx.
  - split; [auto|]. intros [H| ->]; assumption.
  - rewrite elem_of_app, list_elem_of_singleton. reflexivity.
Qed.

Lemma set_add_NoDup xs x : NoDup xs -> NoDup (set_add xs x).
Proof.
  intros H. unfold set_add. case_bool_decide as Hx; [exact H|].
  apply NoDup_app. split; [exact H|]. split; [|apply NoDup_singleton].
  intros y Hy Hy'. apply list_elem_of_singleton in Hy'. subst y. contradiction.
Qed.

Lemma collect_fold (ms : list rmatch_result) : forall acc,
  NoDup acc ->
  let res := fold_left
               (fun acc m => match m_group m with
                             | Some name => set_add acc name
                             | None => acc
                             end) ms acc in
  NoDup res /\
  forall x, x ∈ res <-> x ∈ acc \/ exists m, m ∈ ms /\ m_group m = Some x.
Proof.
  induction ms as [|m ms IH]; intros acc Hacc; cbn [fold_left].
  - split; [exact Hacc|]. intros x. split; [auto|].
    intros [H|(m & Hm & _)]; [exact H|]. inversion Hm.
  - destruct (m_group m) as [name|] eqn:Hg.
    + destruct (IH (set_add acc name) (set_add_NoDup _ _ Hacc)) as [Hnd Hel].
      split; [exact Hnd|]. intros x. rewrite Hel, set_add_elem. split.
      * intros [[H| ->]|(m' & Hm' & Hx)]; [auto| |].
        -- right. exists m. split; [apply list_elem_of_here|exact Hg].
        -- right. exists m'. split; [apply list_elem_of_further, Hm'|exact Hx].
      * intros [H|(m' & Hm' & Hx)]; [auto|].
        apply elem_of_cons in Hm' as [->|Hm'].
        -- left. right. congruence.
        -- right. eauto.
    + destruct (IH acc Hacc) as [Hnd Hel]. split; [exact Hnd|].
      intros x. rewrite Hel. split.
      * intros [H|(m' & Hm' & Hx)]; [auto|]. right. exists m'.
        split; [apply list_elem_of_further, Hm'|exact Hx].
      * intros [H|(m' & Hm' & Hx)]; [auto|].
        apply elem_of_cons in Hm' as [->|Hm']; [congruence|]. right. eauto.
Qed.

Lemma collect_spec r grammarText :
  NoDup (collect r grammarText) /\
  forall x, x ∈ collect r grammarText <->
            exists m, m ∈ match_all r grammarText /\ m_group m = Some x.
Proof.
  destruct (collect_fold (match_all r grammarText) [] (@NoDup_nil_2 string)) as [Hnd Hel].
  split; [exact Hnd|]. intros x. unfold collect. rewrite Hel. split.
  - intros [H|H]; [inversion H|exact H].
  - auto.
Qed.


(* ================================================================= *)
(** ** The repair loop *)

Lemma regenerateInterpreterWithFix_eq env g schema sem em sc w :
  regenerateInterpreterWithFix env g schema sem em sc w =
  if truthy (GLOBAL_SAMPLE w)
  then (Thrown (Error "Assignment to constant variable."), w)
  else
    let rq := fix_request env g schema sem em sc in
    match service_text env (List.length (requests w)) rq with
    | inl msg => (Thrown (Error msg), requested rq w)
    | inr response => (Returned (with_prelude response), requested rq w)
    end.
Proof.
  unfold regenerateInterpreterWithFix, append_sample_to_const, bind, get_world,
    create_text, throw, ret, requested.
  destruct (truthy (GLOBAL_SAMPLE w)); [reflexivity|]. cbv zeta.
  destruct (service_text env (List.length (requests w))
              (fix_request env g schema sem em sc)); reflexivity.
Qed.

Lemma fix_attempt_spec env regenerate pf ifile w :
  ((exists c, fst (regenerate w) = Returned c) \/
   (exists e, fst (regenerate w) = Thrown e)) ->
  (exists e, fst (fix_attempt env regenerate pf ifile w) = Thrown e) /\
  GLOBAL_SAMPLE (snd (fix_attempt env regenerate pf ifile w))
    = GLOBAL_SAMPLE (snd (regenerate w)) /\
  requests (snd (fix_attempt env regenerate pf ifile w)) = requests (snd (regenerate w)) /\
  runs (snd (fix_attempt env regenerate pf ifile w)) = runs (snd (regenerate w)).
Proof.
  intros Hc. unfold fix_attempt, bind.
  destruct (regenerate w) as [o w1]. cbn [fst snd] in Hc |- *.
  destruct Hc as [[c ->] | [e ->]]; [|eauto].
  unfold fs_writeFile, modify, throw.
  destruct (can_write env ifile); [|cbn; eauto].
  unfold delete_require_cache, modify, import_module, bind, Date_now,
    makeRunnerFixed_get_parser, throw. cbn [fst snd].
  match goal with |- context [esm_cache ?w !! ?k] =>
    destruct (esm_cache w !! k) end; [cbn; eauto|].
  cbn [files set_files set_clock_reads set_require_cache].
  match goal with |- context [?m !! ifile] => destruct (m !! ifile) as [d|] end;
    [|cbn; eauto].
  destruct (interp_import env (file_text d)); cbn; eauto.
Qed.

(** No fix attempt ever returns: the re-run of the sample is never
    reached. *)
Lemma fix_attempt_never_returns env regenerate pf ifile w r :
  fst (fix_attempt env regenerate pf ifile w) <> Returned r.
Proof.
  unfold fix_attempt, bind. destruct (regenerate w) as [[c|e|s|] w1]; try discriminate.
  unfold fs_writeFile, modify, throw.
  destruct (can_write env ifile); [|discriminate].
  unfold delete_require_cache, modify, import_module, bind, Date_now,
    makeRunnerFixed_get_parser, throw. cbn [fst snd].
  match goal with |- context [esm_cache ?w !! ?k] =>
    destruct (esm_cache w !! k) end; [discriminate|].
  cbn [files set_files set_clock_reads set_require_cache].
  match goal with |- context [?m !! ifile] => destruct (m !! ifile) as [d|] end;
    [|discriminate].
  destruct (interp_import env (file_text d)); discriminate.
Qed.

Lemma fix_loop_exhausts env regenerate rq pf ifile stdin on_exhausted :
  regenerates regenerate rq ->
  forall remaining w,
  exists e w',
    fix_loop env regenerate pf ifile stdin (S remaining) on_exhausted w
    = on_exhausted e w' /\
    GLOBAL_SAMPLE w' = GLOBAL_SAMPLE w /\
    requests w' =
      requests w ++ repeat rq (if truthy (GLOBAL_SAMPLE w) then 0 else S remaining) /\
    runs w' = runs w.
Proof.
  intros Hreg. induction remaining as [|remaining IH]; intros w.
  - destruct (Hreg w) as (Ho & Hs & Hr & Hruns).
    destruct (fix_attempt_spec env regenerate pf ifile w Ho) as ([e He] & Hs' & Hr' & Hruns').
    cbn [fix_loop]. unfold try_catch, bind.
    destruct (fix_attempt env regenerate pf ifile w) as [o w1].
    cbn [fst snd] in He, Hs', Hr', Hruns'. subst o.
    exists e, w1. split; [reflexivity|]. split; [congruence|]. split; [|congruence].
    rewrite Hr', Hr. destruct (truthy (GLOBAL_SAMPLE w)); reflexivity.
  - destruct (Hreg w) as (Ho & Hs & Hr & Hruns).
    destruct (fix_attempt_spec env regenerate pf ifile w Ho) as ([e He] & Hs' & Hr' & Hruns').
    change (fix_loop env regenerate pf ifile stdin (S (S remaining)) on_exhausted w)
      with (try_catch
              (r <- fix_attempt env regenerate pf ifile ;; ret (r, stdin))
              (fun _ => fix_loop env regenerate pf ifile stdin (S remaining)
                          on_exhausted) w).
    unfold try_catch, bind.
    destruct (fix_attempt env regenerate pf ifile w) as [o w1].
    cbn [fst snd] in He, Hs', Hr', Hruns'. subst o.
    destruct (IH w1) as (e' & w' & E & Hs2 & Hr2 & Hruns2).
    exists e', w'. split; [exact E|]. split; [congruence|]. split; [|congruence].
    rewrite Hr2, Hr', Hr, Hs', Hs.
    destruct (truthy (GLOBAL_SAMPLE w)); cbn [repeat];
      rewrite ?app_nil_r, <- ?app_assoc; reflexivity.
Qed.

Lemma regenerateInterpreterWithFix_regenerates env g schema sem em sc :
  regenerates (regenerateInterpreterWithFix env g schema sem em sc)
    (fix_request env g schema sem em sc).
Proof.
  intros w. rewrite regenerateInterpreterWithFix_eq.
  destruct (truthy (GLOBAL_SAMPLE w)).
  - cbn. rewrite app_nil_r. eauto 6.
  - cbv zeta.
    destruct (service_text env (List.length (requests w))
                (fix_request env g schema sem em sc)); cbn; eauto 6.
Qed.

Ltac find_included :=
  rewrite ?app_assoc';
  repeat first [ solve [apply includes_here, prefix_app] | apply includes_app_l ].

Lemma prompt_includes g notes sem :
  includes (interpreter_prompt g notes sem) g = true /\
  includes (interpreter_prompt g notes sem) notes = true /\
  includes (interpreter_prompt g notes sem) sem = true.
Proof. unfold interpreter_prompt. repeat split; find_included. Qed.

Lemma fix_head_includes em sc :
  includes (fix_instructions_head em sc) em = true /\
  includes (fix_instructions_head em sc) sc = true.
Proof. unfold fix_instructions_head. repeat split; find_included. Qed.

Lemma includes_app_r s t sub : includes s sub = true -> includes (s +:+ t) sub = true.
Proof.
  induction s as [|a s IH].
  - cbn [includes]. rewrite orb_false_r. destruct sub; [|discriminate].
    intros _. rewrite app_empty_l. destruct t; reflexivity.
  - rewrite app_cons. cbn [includes]. intros H. apply orb_true_iff in H as [H|H].
    + apply orb_true_iff. left. revert H. clear.
      revert a s. induction sub as [|b sub IHs]; intros a s H; [reflexivity|].
      cbn [String.prefix] in H |- *. destruct (ascii_dec b a); [|discriminate].
      destruct s as [|a' s].
      * destruct sub; [|discriminate]. rewrite app_empty_l. destruct t; reflexivity.
      * rewrite app_cons. apply IHs, H.
    + rewrite (IH H). apply orb_true_r.
Qed.

Lemma user_fix_head_eq em sc ui cur :
  user_fix_instructions_head em sc ui cur =
  fix_instructions_head em sc +:+ user_fix_block ui cur.
Proof.
  unfold user_fix_instructions_head, fix_instructions_head, user_fix_block.
  rewrite !app_assoc'. reflexivity.
Qed.

(* ================================================================= *)
(** ** The repair loop: C9, C7 and C8 *)

(** [testGeneratedCode] once the first test has thrown and the current
    interpreter has been read: the operator's choice decides. *)
Lemma test_failed_then env line stdin1 pf ifile sample spec g schema sem n w e w0 d :
  first_test env (absolute env pf) (absolute env ifile) sample w = (Thrown e, w0) ->
  files w0 !! absolute env ifile = Some d ->
  testGeneratedCode env (line :: stdin1) pf ifile sample spec g schema sem n w =
  (if String.eqb (trim line) "1" then
     match stdin1 with
     | [] => fun w => (Blocked, w)
     | line2 :: stdin2 =>
         fix_loop env
           (regenerateInterpreterWithUserFix env g schema sem (message e) sample
              (file_text d) (trim line2))
           (absolute env pf) (absolute env ifile) stdin2 n
           (fun fixError =>
              match stdin2 with
              | [] => fun w => (Blocked, w)
              | line3 :: stdin3 =>
                  if String.eqb (trim line3) "1" then
                    testGeneratedCode env stdin3 pf ifile sample spec g schema sem n
                  else if String.eqb (trim line3) "2" then
                    ret (Failure (message fixError) true, stdin3)
                  else process_exit 1
              end)
     end
   else if String.eqb (trim line) "2" then
     fix_loop env
       (regenerateInterpreterWithFix env g schema sem (message e) sample)
       (absolute env pf) (absolute env ifile) stdin1 n
       (fun fixError => ret (Failure (message fixError) false, stdin1))
   else if String.eqb (trim line) "3" then
     ret (Failure (message e) true, stdin1)
   else process_exit 1) w0.
Proof.
  intros Hfirst Hfile. cbn [testGeneratedCode]. unfold try_catch at 1.
  unfold bind at 1. rewrite Hfirst. unfold bind at 1. unfold fs_readFile.
  rewrite Hfile. reflexivity.
Qed.

(** C9, as amended.  At the main prompt after a failed test, every
    answer that, trimmed as [promptUser] trims it, is neither 1 nor 2 nor
    3 ends the process at once with exit status 1: the empty answer, 4,
    or any other text. *)
Theorem C9_abort_is_the_catch_all
    (env : Env) (line : string) (stdin1 : list string)
    (parserFile interpreterFile sampleCode spec grammarText : string)
    (schema : Schema) (semantics : string) (maxRetries : nat)
    (w w0 : World) (error : JsError) (current : FileData) :
  first_test env (absolute env parserFile) (absolute env interpreterFile)
    sampleCode w = (Thrown error, w0) ->
  files w0 !! absolute env interpreterFile = Some current ->
  trim line <> "1" -> trim line <> "2" -> trim line <> "3" ->
  testGeneratedCode env (line :: stdin1) parserFile interpreterFile sampleCode
    spec grammarText schema semantics maxRetries w
  = (Exited 1, w0).
Proof.
  intros Hfirst Hfile H1 H2 H3.
  rewrite (test_failed_then _ _ _ _ _ _ _ _ _ _ _ _ _ _ _ Hfirst Hfile).
  apply String.eqb_neq in H1, H2, H3. rewrite H1, H2, H3. reflexivity.
Qed.

Lemma C9_witness :
  testGeneratedCode env_repair ["  "; "1"] "/out/parser.cjs" "/out/interpreter.mjs"
    "1+2*3" "calc" calc_grammar sum_schema "evaluate" 3 world_repair
  = (Exited 1,
     snd (first_test env_repair "/out/parser.cjs" "/out/interpreter.mjs" "1+2*3"
            world_repair)).
Proof.
  refine (C9_abort_is_the_catch_all env_repair "  " ["1"] "/out/parser.cjs"
            "/out/interpreter.mjs" "1+2*3" "calc" calc_grammar sum_schema
            "evaluate" 3 world_repair _ (Error "Unknown node type: foo")
            (Text broken_interpreter) _ _ _ _ _);
    first [ vm_compute; reflexivity | vm_compute; discriminate ].
Defined.

(** C9 as stated fails: an answer need not be exactly 1, 2 or 3 to be
    taken for that choice.  The answer " 3 ", a 3 between two spaces, is
    none of the three texts, and the process does not end: the failure is
    returned with [continued] set, as for the choice 3. *)
Lemma C9_counterexample :
  " 3 " <> "1" /\ " 3 " <> "2" /\ " 3 " <> "3" /\
  fst (testGeneratedCode env_repair [" 3 "] "/out/parser.cjs" "/out/interpreter.mjs"
         "1+2*3" "calc" calc_grammar sum_schema "evaluate" 3 world_repair)
  = Returned (Failure "Unknown node type: foo" true, []).
Proof.
  split; [discriminate|]. split; [discriminate|]. split; [discriminate|].
  vm_compute. reflexivity.
Qed.

(** C7, as amended.  After a failed test, when the operator chooses the
    automatic fix and no global sample is set, every regeneration sends
    the request built from the grammar text, the schema, the semantics,
    the message of the triggering error and the sample input, all of
    which it carries; there are [maxRetries] such requests.  The request
    of the operator-instructed regeneration has the same input and the
    same instructions with one block more, which holds the operator's
    text and the current interpreter: the automatic request is given
    neither. *)
Theorem C7_automatic_fix_inputs
    (env : Env) (line : string) (stdin1 : list string)
    (parserFile interpreterFile sampleCode spec grammarText : string)
    (schema : Schema) (semantics : string) (maxRetries : nat)
    (w w0 : World) (error : JsError) (current : FileData) :
  first_test env (absolute env parserFile) (absolute env interpreterFile)
    sampleCode w = (Thrown error, w0) ->
  files w0 !! absolute env interpreterFile = Some current ->
  trim line = "2" ->
  GLOBAL_SAMPLE w0 = "" ->
  let rq := fix_request env grammarText schema semantics (message error) sampleCode in
  let w' := snd (testGeneratedCode env (line :: stdin1) parserFile interpreterFile
                   sampleCode spec grammarText schema semantics maxRetries w) in
  requests w' = requests w0 ++ repeat rq maxRetries /\
  uses rq grammarText = true /\
  uses rq (JSON_pretty "" (astNotes schema)) = true /\
  uses rq semantics = true /\
  uses rq (message error) = true /\
  uses rq sampleCode = true /\
  (forall currentCode userInstructions,
     let urq := user_fix_request env grammarText schema semantics (message error)
                  sampleCode currentCode userInstructions in
     req_model urq = req_model rq /\ req_stream urq = req_stream rq /\
     req_tool urq = req_tool rq /\ req_input urq = req_input rq /\
     req_instructions rq =
       fix_instructions_head (message error) sampleCode
       +:+ common_issues +:+ interpreter_requirements /\
     req_instructions urq =
       fix_instructions_head (message error) sampleCode
       +:+ user_fix_block userInstructions currentCode
       +:+ common_issues +:+ interpreter_requirements).
Proof.
  intros Hfirst Hfile Hline Hsample rq w'.
  split; [|split; [|split; [|split; [|split; [|split]]]]].
  - subst w'. rewrite (test_failed_then _ _ _ _ _ _ _ _ _ _ _ _ _ _ _ Hfirst Hfile).
    rewrite Hline. cbn [String.eqb Ascii.eqb Bool.eqb].
    destruct maxRetries as [|n]; [cbn; rewrite app_nil_r; reflexivity|].
    destruct (fix_loop_exhausts env _ rq (absolute env parserFile)
                (absolute env interpreterFile) stdin1
                (fun fixError => ret (Failure (message fixError) false, stdin1))
                (regenerateInterpreterWithFix_regenerates env grammarText schema
                   semantics (message error) sampleCode) n w0)
      as (e & w1 & E & _ & Hr & _).
    rewrite E. cbn [snd ret]. rewrite Hr, Hsample. reflexivity.
  - unfold uses, rq, fix_request, interpreter_request. cbn [req_input req_instructions].
    rewrite (proj1 (prompt_includes _ _ _)). apply orb_true_r.
  - unfold uses, rq, fix_request, interpreter_request. cbn [req_input req_instructions].
    rewrite (proj1 (proj2 (prompt_includes _ _ _))). apply orb_true_r.
  - unfold uses, rq, fix_request, interpreter_request. cbn [req_input req_instructions].
    rewrite (proj2 (proj2 (prompt_includes _ _ _))). apply orb_true_r.
  - unfold uses, rq, fix_request, interpreter_request. cbn [req_input req_instructions].
    rewrite (includes_app_r _ _ _ (proj1 (fix_head_includes _ _))). reflexivity.
  - unfold uses, rq, fix_request, interpreter_request. cbn [req_input req_instructions].
    rewrite (includes_app_r _ _ _ (proj2 (fix_head_includes _ _))). reflexivity.
  - intros cur ui urq. unfold urq, rq, user_fix_request, fix_request,
      interpreter_request. cbn [req_model req_stream req_tool req_input req_instructions].
    repeat split. rewrite user_fix_head_eq, !app_assoc'. reflexivity.
Qed.

Lemma C7_witness :
  requests (snd (testGeneratedCode env_repair ["2"] "/out/parser.cjs"
                   "/out/interpreter.mjs" "1+2*3" "calc" calc_grammar sum_schema
                   "evaluate" 3 world_repair))
  = requests (snd (first_test env_repair "/out/parser.cjs" "/out/interpreter.mjs"
                     "1+2*3" world_repair))
    ++ repeat (fix_request env_repair calc_grammar sum_schema "evaluate"
                 (message (Error "Unknown node type: foo")) "1+2*3") 3.
Proof.
  refine (proj1 (C7_automatic_fix_inputs env_repair "2" [] "/out/parser.cjs"
              "/out/interpreter.mjs" "1+2*3" "calc" calc_grammar sum_schema
              "evaluate" 3 world_repair
              (snd (first_test env_repair "/out/parser.cjs" "/out/interpreter.mjs"
                      "1+2*3" world_repair))
              (Error "Unknown node type: foo") (Text broken_interpreter) _ _ _ _));
    vm_compute; reflexivity.
Defined.

(** C7 as stated fails: the requests of the automatic fix do not carry
    the current interpreter, which the operator-instructed request does. *)
Lemma C7_counterexample :
  let w' := snd (testGeneratedCode env_repair ["2"] "/out/parser.cjs"
                   "/out/interpreter.mjs" "1+2*3" "calc" calc_grammar sum_schema
                   "evaluate" 3 world_repair) in
  files world_repair !! "/out/interpreter.mjs" = Some (Text broken_interpreter) /\
  List.length (requests w') = 3 /\
  forallb (fun rq => negb (uses rq broken_interpreter)) (requests w') = true /\
  uses (user_fix_request env_repair calc_grammar sum_schema "evaluate"
          "Unknown node type: foo" "1+2*3" broken_interpreter "handle neg")
    broken_interpreter = true.
Proof. vm_compute. auto. Qed.

(** After a failed test and the choice of the automatic fix, the sample
    is not run again and the result is never a success. *)
Lemma automatic_fix_never_succeeds
    env line stdin1 pf ifile sample spec g schema sem n w e w0 d :
  first_test env (absolute env pf) (absolute env ifile) sample w = (Thrown e, w0) ->
  files w0 !! absolute env ifile = Some d ->
  trim line = "2" ->
  let r := testGeneratedCode env (line :: stdin1) pf ifile sample spec g schema sem n w in
  runs (snd r) = runs w0 /\
  forall result rest, fst r <> Returned (Success result, rest).
Proof.
  intros Hfirst Hfile Hline r. subst r.
  rewrite (test_failed_then _ _ _ _ _ _ _ _ _ _ _ _ _ _ _ Hfirst Hfile).
  rewrite Hline. cbn [String.eqb Ascii.eqb Bool.eqb].
  destruct n as [|n]; [cbn; split; [reflexivity|discriminate]|].
  destruct (fix_loop_exhausts env _ _ (absolute env pf) (absolute env ifile) stdin1
              (fun fixError => ret (Failure (message fixError) false, stdin1))
              (regenerateInterpreterWithFix_regenerates env g schema sem (message e)
                 sample) n w0)
    as (e' & w1 & E & _ & _ & Hruns).
  rewrite E. cbn [fst snd ret]. split; [exact Hruns|discriminate].
Qed.

(** C8, on the code as it is.  In the run where the first interpreter
    fails on the sample and the operator chooses the automatic fix, the
    service regenerates an interpreter that evaluates the sample to 7 and
    the loop writes it to the interpreter file; yet the sample is run
    once only, before the first regeneration, the parser, whose cache
    entry is deleted, is not required again, and the result is the
    failure "get_parser is not defined".  In general no fix attempt ever
    returns, whatever was regenerated, and after the choice of the
    automatic fix the sample is never run again and the result is never a
    success. *)
Theorem C8_repaired_interpreter_is_never_rerun :
  let r := testGeneratedCode env_repair ["2"] "/out/parser.cjs"
             "/out/interpreter.mjs" "1+2*3" "calc" calc_grammar sum_schema
             "evaluate" 3 world_repair in
  fst r = Returned (Failure "get_parser is not defined" false, []) /\
  files (snd r) !! "/out/interpreter.mjs" = Some (Text repaired_interpreter) /\
  run_sample env_repair compiled_parser repaired_interpreter "1+2*3" = inr "7" /\
  runs (snd r) = [(compiled_parser, broken_interpreter, "1+2*3")] /\
  List.length (requests (snd r)) = 3 /\
  require_cache (snd r) = ∅ /\
  (forall env regenerate parserFile interpreterFile w result,
     fst (fix_attempt env regenerate parserFile interpreterFile w) <> Returned result) /\
  (forall env line stdin1 parserFile interpreterFile sampleCode spec grammarText
          schema semantics maxRetries w w0 error current,
     first_test env (absolute env parserFile) (absolute env interpreterFile)
       sampleCode w = (Thrown error, w0) ->
     files w0 !! absolute env interpreterFile = Some current ->
     trim line = "2" ->
     let r := testGeneratedCode env (line :: stdin1) parserFile interpreterFile
                sampleCode spec grammarText schema semantics maxRetries w in
     runs (snd r) = runs w0 /\
     forall result rest, fst r <> Returned (Success result, rest)).
Proof.
  split; [vm_compute; reflexivity|].
  split; [vm_compute; reflexivity|].
  split; [vm_compute; reflexivity|].
  split; [vm_compute; reflexivity|].
  split; [vm_compute; reflexivity|].
  split; [vm_compute; reflexivity|].
  split; [intros; apply fix_attempt_never_returns|].
  intros. eapply automatic_fix_never_succeeds; eassumption.
Qed.

Lemma C8_witness :
  runs (snd (testGeneratedCode env_repair ["2"] "/out/parser.cjs"
               "/out/interpreter.mjs" "1+2*3" "calc" calc_grammar sum_schema
               "evaluate" 3 world_repair))
  = runs (snd (first_test env_repair "/out/parser.cjs" "/out/interpreter.mjs"
                 "1+2*3" world_repair)).
Proof.
  destruct C8_repaired_interpreter_is_never_rerun as (_ & _ & _ & _ & _ & _ & _ & H).
  refine (proj1 (H env_repair "2" [] "/out/parser.cjs" "/out/interpreter.mjs"
                   "1+2*3" "calc" calc_grammar sum_schema "evaluate" 3 world_repair
                   (snd (first_test env_repair "/out/parser.cjs"
                           "/out/interpreter.mjs" "1+2*3" world_repair))
                   (Error "Unknown node type: foo") (Text broken_interpreter) _ _ _));
    vm_compute; reflexivity.
Defined.

(* ================================================================= *)
(** * Further properties of the code *)

(* ================================================================= *)
(** ** The cache helpers on their own *)

(** The cache helpers swallow every failure.  [getCached] always
    returns; it writes no file, sends nothing and starts nothing (it may
    make the cache directory).  It finds nothing when cache reads are
    off, when the cache directory cannot be made and when the file of the
    key does not exist; it finds the entry when reads are on, the
    directory can be made and the file holds an entry as [saveCache]
    writes it.  [saveCache] always returns; it sends nothing and touches
    no file but the one of the key, and not even that one when writes are
    off or the directory or the file cannot be written. *)
Theorem cache_helpers_never_fail
    (env : Env) (type : string) (input : json) (output : string) (w : World) :
  (let r := getCached env type input w in
   exists found,
     fst r = Returned found /\
     files (snd r) = files w /\ requests (snd r) = requests w /\
     spawns (snd r) = spawns w /\ GLOBAL_SAMPLE (snd r) = GLOBAL_SAMPLE w /\
     (READ_FROM_CACHE env = false \/ can_mkdir env (CACHE_DIR env) = false \/
      files w !! cachePath env type input = None -> found = None) /\
     (forall e,
        READ_FROM_CACHE env = true -> can_mkdir env (CACHE_DIR env) = true ->
        files w !! cachePath env type input = Some (CacheJson e) ->
        found = Some e)) /\
  (let w1 := snd (saveCache env type input output w) in
   fst (saveCache env type input output w) = Returned tt /\
   requests w1 = requests w /\ spawns w1 = spawns w /\
   GLOBAL_SAMPLE w1 = GLOBAL_SAMPLE w /\
   (forall path, path <> cachePath env type input ->
                 files w1 !! path = files w !! path) /\
   (WRITE_TO_CACHE env = false \/ can_mkdir env (CACHE_DIR env) = false \/
    can_write env (cachePath env type input) = false ->
    files w1 = files w)).
Proof.
  split.
  - cbv zeta.
    pose proof (getCached_world env type input w) as Hw.
    pose proof (getCached_value env type input w) as Hv.
    destruct (getCached env type input w) as [o w']. cbn [fst snd] in Hw, Hv |- *.
    subst w' o. eexists. split; [reflexivity|].
    split; [reflexivity|]. split; [reflexivity|]. split; [reflexivity|].
    split; [reflexivity|]. split.
    + intros [H|[H|H]]; rewrite H.
      * reflexivity.
      * rewrite andb_false_r. reflexivity.
      * destruct (READ_FROM_CACHE env && can_mkdir env (CACHE_DIR env)); reflexivity.
    + intros e Hr Hm Hf. rewrite Hr, Hm, Hf. reflexivity.
  - cbv zeta. rewrite saveCache_eq. cbn [fst snd].
    split; [reflexivity|]. split; [apply saved_requests|].
    split; [apply saved_spawns|]. split; [apply saved_sample|].
    unfold saved.
    destruct (WRITE_TO_CACHE env); cbn [andb];
      [|split; [reflexivity|reflexivity]].
    destruct (can_mkdir env (CACHE_DIR env)); [|split; reflexivity].
    destruct (can_write env (cachePath env type input)).
    + split.
      * intros path Hne. cbn [files set_files set_clock_reads].
        apply lookup_insert_ne. congruence.
      * intros [H|[H|H]]; discriminate.
    + split; reflexivity.
Qed.

(** A saved entry is found again.  With cache reads and writes on and
    the directory and the file writable, a lookup after [saveCache] finds
    the entry just written, whatever the file held before: the input, the
    output, and the time of the write. *)
Theorem saveCache_then_getCached
    (env : Env) (type : string) (input : json) (output : string) (w : World) :
  READ_FROM_CACHE env = true ->
  WRITE_TO_CACHE env = true ->
  can_mkdir env (CACHE_DIR env) = true ->
  can_write env (cachePath env type input) = true ->
  let w1 := snd (saveCache env type input output w) in
  getCached env type input w1 =
    (Returned (Some (MkEntry input output
                       (toISOString env (date_now env (clock_reads w))))), w1).
Proof.
  intros Hr Hw Hm Hc. cbv zeta. rewrite saveCache_eq. cbn [snd].
  apply cache_hit; [exact Hr|exact Hm|].
  unfold saved. rewrite Hw, Hm, Hc. cbn [andb files set_files].
  apply lookup_insert_eq.
Qed.

Lemma saveCache_then_getCached_witness :
  let w1 := snd (saveCache base_env "grammar" (grammar_cache_input "calc")
                   "start: NUMBER" empty_world) in
  getCached base_env "grammar" (grammar_cache_input "calc") w1 =
    (Returned (Some (MkEntry (grammar_cache_input "calc") "start: NUMBER" "0")), w1).
Proof.
  refine (saveCache_then_getCached base_env "grammar" (grammar_cache_input "calc")
            "start: NUMBER" empty_world _ _ _ _); vm_compute; reflexivity.
Defined.

(* ================================================================= *)
(** ** What [generateGrammar] returns *)

Lemma trim_start_cons a s1 :
  trim_start (String a s1) =
  if is_space a then trim_start s1
  else
    match s1 with
    | String b s2 =>
        if is_space2 a b then trim_start s2
        else
          match s2 with
          | String c s3 => if is_space3 a b c then trim_start s3 else String a s1
          | EmptyString => String a s1
          end
    | EmptyString => String a s1
    end.
Proof. reflexivity. Qed.

Lemma trim_start_fixed s : starts_blank s = false -> trim_start s = s.
Proof.
  destruct s as [|a [|b [|c s]]]; cbn [starts_blank trim_start]; intros H.
  - reflexivity.
  - rewrite orb_false_r in H. rewrite H. reflexivity.
  - apply orb_false_iff in H as [-> H]. rewrite orb_false_r in H. rewrite H.
    reflexivity.
  - apply orb_false_iff in H as [-> H]. apply orb_false_iff in H as [-> ->].
    reflexivity.
Qed.

Lemma trim_start_head_bounded n : forall s,
  String.length s <= n -> starts_blank (trim_start s) = false.
Proof.
  induction n as [|n IH]; intros s Hn.
  - destruct s; [reflexivity|cbn in Hn; lia].
  - destruct s as [|a [|b [|c s]]]; cbn [String.length] in Hn.
    + reflexivity.
    + rewrite trim_start_cons. destruct (is_space a) eqn:Ea; [reflexivity|].
      cbn [starts_blank]. rewrite Ea. reflexivity.
    + rewrite trim_start_cons. destruct (is_space a) eqn:Ea; [apply IH; cbn; lia|].
      destruct (is_space2 a b) eqn:Eab; [reflexivity|].
      cbn [starts_blank]. rewrite Ea, Eab. reflexivity.
    + rewrite trim_start_cons. destruct (is_space a) eqn:Ea; [apply IH; cbn; lia|].
      destruct (is_space2 a b) eqn:Eab; [apply IH; cbn; lia|].
      destruct (is_space3 a b c) eqn:Eabc; [apply IH; lia|].
      cbn [starts_blank]. rewrite Ea, Eab, Eabc. reflexivity.
Qed.

Lemma trim_start_head s : starts_blank (trim_start s) = false.
Proof. apply (trim_start_head_bounded (String.length s)). lia. Qed.

Lemma trim_start_idem s : trim_start (trim_start s) = trim_start s.
Proof. apply trim_start_fixed, trim_start_head. Qed.

Lemma trim_start_app_bounded n : forall a b,
  String.length a <= n -> trim_start a = "" -> trim_start (a +:+ b) = trim_start b.
Proof.
  induction n as [|n IH]; intros a b Hn Ha.
  - destruct a; [reflexivity|cbn in Hn; lia].
  - destruct a as [|x [|y [|z a]]]; cbn [String.length] in Hn.
    + reflexivity.
    + rewrite trim_start_cons in Ha. destruct (is_space x) eqn:Ex; [|discriminate].
      rewrite app_cons. rewrite trim_start_cons. rewrite Ex. reflexivity.
    + rewrite trim_start_cons in Ha. rewrite !app_cons. rewrite trim_start_cons.
      destruct (is_space x) eqn:Ex.
      * apply (IH (String y "") b); [cbn; lia|exact Ha].
      * destruct (is_space2 x y) eqn:Exy; [reflexivity|discriminate].
    + rewrite trim_start_cons in Ha. rewrite !app_cons. rewrite trim_start_cons.
      destruct (is_space x) eqn:Ex.
      * apply (IH (String y (String z a)) b); [cbn; lia|exact Ha].
      * destruct (is_space2 x y) eqn:Exy.
        -- apply (IH (String z a) b); [cbn; lia|exact Ha].
        -- destruct (is_space3 x y z) eqn:Exyz; [|discriminate].
           apply (IH a b); [lia|exact Ha].
Qed.

Lemma blank_app a b : blank a = true -> blank b = true -> blank (a +:+ b) = true.
Proof.
  unfold blank. intros Ha Hb.
  rewrite (trim_start_app_bounded (String.length a) a b (le_n _)); [exact Hb|].
  destruct (trim_start a); [reflexivity|discriminate].
Qed.

Lemma trim_end_suffix s : exists u, s = trim_end s +:+ u /\ blank u = true.
Proof.
  induction s as [|c s (u & Hs & Hu)]; [exists ""; auto|].
  cbn [trim_end]. destruct (blank (String c s)) eqn:E.
  - exists (String c s). auto.
  - exists u. rewrite app_cons, <- Hs. auto.
Qed.

Lemma blank_trim_end s : blank (trim_end s) = blank s.
Proof.
  destruct (trim_end_suffix s) as (u & Hs & Hu).
  destruct (blank (trim_end s)) eqn:E.
  - symmetry. rewrite Hs. apply blank_app; assumption.
  - destruct s as [|c s]; [discriminate|]. cbn [trim_end] in E.
    destruct (blank (String c s)); [discriminate|reflexivity].
Qed.

Lemma trim_end_idem s : trim_end (trim_end s) = trim_end s.
Proof.
  induction s as [|c s IH]; [reflexivity|].
  cbn [trim_end]. destruct (blank (String c s)) eqn:E; [reflexivity|].
  pose proof (blank_trim_end (String c s)) as H. cbn [trim_end] in H.
  rewrite E in H. cbn [trim_end]. rewrite H, IH. reflexivity.
Qed.

Lemma starts_blank_prefix a u : starts_blank a = true -> starts_blank (a +:+ u) = true.
Proof.
  destruct a as [|x [|y [|z a]]]; rewrite ?app_cons; cbn [starts_blank]; intros H.
  - discriminate.
  - rewrite orb_false_r in H. rewrite H. reflexivity.
  - apply orb_true_iff in H as [->|H]; [reflexivity|]. rewrite orb_false_r in H.
    rewrite H. apply orb_true_r.
  - exact H.
Qed.

Lemma trim_idem s : trim (trim s) = trim s.
Proof.
  unfold trim. rewrite (trim_start_fixed (trim_end (trim_start s))).
  - apply trim_end_idem.
  - destruct (starts_blank (trim_end (trim_start s))) eqn:E; [|reflexivity].
    destruct (trim_end_suffix (trim_start s)) as (u & Hs & _).
    apply (starts_blank_prefix _ u) in E. rewrite <- Hs, trim_start_head in E.
    discriminate.
Qed.

Lemma attempt_outcome_accepts env spec sample k prev g :
  attempt_outcome env spec sample k prev = inr g ->
  validateGrammar g = None /\ trim g = g.
Proof.
  unfold attempt_outcome.
  destruct (service_stream env k _) as [msg|events]; [discriminate|].
  destruct (accumulate _ events "") as [msg|text]; [discriminate|].
  destruct (validateGrammar (trim text)) eqn:E; [discriminate|].
  intros [= <-]. split; [exact E|apply trim_idem].
Qed.

Lemma grammar_loop_accepts env spec maxRetries remaining :
  forall attempts prev w g,
  fst (grammar_loop env spec maxRetries remaining attempts prev w) = Returned g ->
  let w1 := snd (grammar_loop env spec maxRetries remaining attempts prev w) in
  validateGrammar g = None /\ trim g = g /\
  List.length (requests w) < List.length (requests w1) /\
  List.length (requests w1) <= List.length (requests w) + remaining.
Proof.
  induction remaining as [|remaining IH]; intros attempts prev w g; [discriminate|].
  cbn [grammar_loop]. unfold try_catch. rewrite grammar_attempt_eq. cbv zeta.
  destruct (attempt_outcome env spec (GLOBAL_SAMPLE w) (List.length (requests w)) prev)
    as [msg|g'] eqn:E.
  - cbn [message Error].
    destruct (maxRetries <=? S attempts)%nat; [discriminate|].
    intros H. specialize (IH _ _ _ _ H). cbv zeta in IH.
    destruct IH as (Hv & Ht & Hlo & Hhi).
    set (w2 := requested (grammar_request env spec (GLOBAL_SAMPLE w) prev) w) in *.
    assert (List.length (requests w2) = List.length (requests w) + 1) as Hw2.
    { unfold w2, requested. cbn [requests set_requests].
      rewrite List.length_app. reflexivity. }
    repeat split; [exact Hv|exact Ht|lia|lia].
  - intros [= <-]. cbn [snd].
    destruct (attempt_outcome_accepts _ _ _ _ _ _ E) as [Hv Ht].
    rewrite saved_requests. unfold requested. cbn [requests set_requests].
    rewrite List.length_app. cbn [List.length].
    repeat split; [exact Hv|exact Ht|lia|lia].
Qed.

(** A grammar that [generateGrammar] returns after a cache miss has
    passed the local checks.  It is trimmed and not empty, it has no
    single-quoted span whose opening quote does not follow a slash, and
    it does not hold both a double and a single quote.  At least one
    request and at most [maxRetries] requests were sent for it. *)
Theorem fresh_grammar_is_validated
    (env : Env) (spec : string) (maxRetries : nat) (w : World) (g : string) :
  fst (getCached env "grammar" (grammar_cache_input spec) w) = Returned None ->
  fst (generateGrammar env spec maxRetries w) = Returned g ->
  let w1 := snd (generateGrammar env spec maxRetries w) in
  validateGrammar g = None /\
  g <> "" /\ trim g = g /\
  ~ unslashed_single_quotes g /\
  ~ (has_char DQ g = true /\ has_char SQ g = true) /\
  List.length (requests w) < List.length (requests w1) /\
  List.length (requests w1) <= List.length (requests w) + maxRetries.
Proof.
  intros Hmiss. apply getCached_inv in Hmiss as [Hmiss _].
  unfold generateGrammar, bind. rewrite Hmiss.
  intros H. apply grammar_loop_accepts in H. cbv zeta in H |- *.
  destruct H as (Hv & Ht & Hlo & Hhi).
  pose proof (proj1 (validateGrammar_None_iff g) Hv) as (Hne & Hs & Hq).
  repeat split; assumption.
Qed.

Lemma fresh_grammar_is_validated_witness :
  let g := "start: sum" +:+ nl +:+ "sum: NUMBER (ADD_OP NUMBER)*" +:+ nl
           +:+ "NUMBER: /[0-9]+/" +:+ nl +:+ "ADD_OP: " +:+ dq +:+ "+" +:+ dq in
  validateGrammar g = None /\ g <> "" /\ trim g = g.
Proof.
  destruct (fresh_grammar_is_validated env_calc "calc" 3 empty_world
              ("start: sum" +:+ nl +:+ "sum: NUMBER (ADD_OP NUMBER)*" +:+ nl
               +:+ "NUMBER: /[0-9]+/" +:+ nl +:+ "ADD_OP: " +:+ dq +:+ "+" +:+ dq))
    as (H1 & H2 & H3 & _).
  - vm_compute; reflexivity.
  - vm_compute; reflexivity.
  - cbv zeta. auto.
Defined.

(** A cache hit is returned as it is.  When the file of the key holds an
    entry, each cached stage returns the stored output and leaves the
    world untouched: nothing is sent, the stored grammar is not checked
    (an output that the local validation rejects is returned all the
    same), and the stored interpreter is returned even when a sample is
    set. *)
Theorem cache_hit_is_returned_unchecked
    (env : Env) (w : World) (e : CacheEntry) :
  READ_FROM_CACHE env = true ->
  can_mkdir env (CACHE_DIR env) = true ->
  (forall spec maxRetries,
     files w !! cachePath env "grammar" (grammar_cache_input spec)
       = Some (CacheJson e) ->
     generateGrammar env spec maxRetries w = (Returned (ce_output e), w)) /\
  (forall spec grammarText semantics,
     files w !! cachePath env "example"
                  (example_cache_input spec grammarText semantics)
       = Some (CacheJson e) ->
     generateExampleProgram env spec grammarText semantics w
       = (Returned (ce_output e), w)) /\
  (forall grammarText schema semantics,
     files w !! cachePath env "interpreter"
                  (interpreter_cache_input grammarText schema semantics)
       = Some (CacheJson e) ->
     generateInterpreter env grammarText schema semantics w
       = (Returned (ce_output e), w)).
Proof.
  intros Hr Hm. repeat split; intros.
  - unfold generateGrammar, bind. rewrite (cache_hit _ _ _ _ _ Hr Hm H). reflexivity.
  - unfold generateExampleProgram, bind. rewrite (cache_hit _ _ _ _ _ Hr Hm H).
    reflexivity.
  - unfold generateInterpreter, bind. rewrite (cache_hit _ _ _ _ _ Hr Hm H).
    reflexivity.
Qed.

Lemma cache_hit_is_returned_unchecked_witness :
  let w := snd (saveCache base_env "grammar" (grammar_cache_input "calc")
                  "start: 'x'" empty_world) in
  generateGrammar base_env "calc" 3 w = (Returned "start: 'x'", w) /\
  validateGrammar "start: 'x'" <> None.
Proof.
  split; [|vm_compute; discriminate].
  refine (proj1 (cache_hit_is_returned_unchecked base_env
                   (snd (saveCache base_env "grammar" (grammar_cache_input "calc")
                           "start: 'x'" empty_world))
                   (MkEntry (grammar_cache_input "calc") "start: 'x'" "0") _ _)
            "calc" 3 _); vm_compute; reflexivity.
Defined.

(* ================================================================= *)
(** ** The retry loop of [compileGrammar] *)

Lemma fix_parser_returns env pf w :
  fst (fix_parser env pf w) = Returned tt /\
  spawns (snd (fix_parser env pf w)) = spawns w /\
  forall path, path <> pf -> files (snd (fix_parser env pf w)) !! path = files w !! path.
Proof.
  unfold fix_parser, try_catch, bind, fs_readFile, fs_writeFile, modify, throw, ret.
  destruct (files w !! pf) as [d|]; [|cbn; auto].
  destruct (can_write env pf); cbn; [|auto].
  repeat split. intros path Hne. apply lookup_insert_ne. congruence.
Qed.

(** One run of the compiler: it is put on record, it returns the paths or
    throws an error that carries the grammar text, and it leaves every
    file but the parser file alone. *)
Lemma run_lark_js_spec env cmd paths g w :
  let r := run_lark_js env cmd paths g w in
  spawns (snd r) = spawns w ++ [(cmd, [grammarFile paths; "-o"; parserFile paths])] /\
  (forall path, path <> parserFile paths -> files (snd r) !! path = files w !! path) /\
  (fst r = Returned paths \/
   exists e, fst r = Thrown e /\ err_grammarText e = Some g).
Proof.
  cbv zeta. unfold run_lark_js.
  destruct (lark_js env (List.length (spawns w)) cmd _ (files w))
    as [code msg | status err parser].
  - cbn. repeat split; eauto.
  - destruct (status =? 0)%nat.
    + unfold bind.
      match goal with |- context [fix_parser env ?pf ?w2] =>
        destruct (fix_parser_returns env pf w2) as (Hf & Hs & Hfr);
        destruct (fix_parser env pf w2) as [o w3] end.
      cbn [fst snd] in Hf, Hs, Hfr. subst o. cbn [fst snd ret].
      split; [|split; [|left; reflexivity]].
      * rewrite Hs. destruct parser; reflexivity.
      * intros path Hne. rewrite (Hfr path Hne).
        destruct parser; cbn [files set_files set_spawns]; [|reflexivity].
        apply lookup_insert_ne. congruence.
    + cbn [fst snd]. split; [destruct parser; reflexivity|].
      split; [|right; eexists; split; reflexivity].
      intros path Hne. destruct parser; cbn [files set_files set_spawns]; [|reflexivity].
      apply lookup_insert_ne. congruence.
Qed.

Lemma compile_loop_spec env cmd paths g maxRetries :
  forall remaining lastError w,
  (remaining = 0 -> exists e, lastError = Some e /\ err_grammarText e = Some g) ->
  let r := compile_loop env cmd paths g maxRetries remaining lastError w in
  let spawn := (cmd, [grammarFile paths; "-o"; parserFile paths]) in
  (forall path, path <> parserFile paths -> files (snd r) !! path = files w !! path) /\
  ((fst r = Returned paths /\
    exists k, 1 <= k <= remaining /\ spawns (snd r) = spawns w ++ repeat spawn k) \/
   (exists e,
      err_grammarText e = Some g /\
      fst r = Thrown (MkError ("Grammar compilation failed after "
                               +:+ show_nat maxRetries
                               +:+ " attempts. Last error: " +:+ message e)
                        None (Some g) (Some e)) /\
      spawns (snd r) = spawns w ++ repeat spawn remaining)).
Proof.
  induction remaining as [|remaining IH]; intros lastError w Hlast; cbv zeta.
  - destruct (Hlast eq_refl) as (e & -> & He). cbn [compile_loop].
    split; [reflexivity|]. right. exists e. cbn. rewrite app_nil_r. auto.
  - cbn [compile_loop]. unfold try_catch.
    destruct (run_lark_js_spec env cmd paths g w) as (Hs & Hfr & Ho).
    destruct (run_lark_js env cmd paths g w) as [o w1]. cbn [fst snd] in Hs, Hfr, Ho.
    destruct Ho as [-> | (e & -> & He)].
    + cbn [fst snd]. split; [exact Hfr|]. left. split; [reflexivity|].
      exists 1. split; [lia|exact Hs].
    + specialize (IH (Some e) w1 (fun _ => ex_intro _ e (conj eq_refl He))).
      cbv zeta in IH. destruct IH as (Hfr' & IH).
      split; [intros path Hne; rewrite (Hfr' path Hne); apply Hfr, Hne|].
      destruct IH as [(Hr & k & Hk & Hsp) | (e' & He' & Hr & Hsp)].
      * left. split; [exact Hr|]. exists (S k). split; [lia|].
        rewrite Hsp, Hs, <- app_assoc. reflexivity.
      * right. exists e'. split; [exact He'|]. split; [exact Hr|].
        rewrite Hsp, Hs, <- app_assoc. reflexivity.
Qed.

Lemma choose_lark_js_spec env w :
  exists cmd, choose_lark_js env w = (Returned cmd, w) /\
    (cmd = path_join (path_join (path_join (cwd env) "venv") "bin") "lark-js" \/
     cmd = path_join (path_join (path_join (package_dir env) "venv") "bin") "lark-js" \/
     cmd = "lark-js").
Proof.
  unfold choose_lark_js, bind, fs_exists, ret.
  destruct (bool_decide _); [eauto|].
  destruct (bool_decide _); eauto.
Qed.

Lemma grammar_file_is_not_parser_file dir :
  path_join dir "grammar.lark" <> path_join dir "parser.cjs".
Proof.
  unfold path_join. intros H. apply String.app_inj in H. discriminate.
Qed.

Lemma compileGrammar_eq env g dir n w :
  can_mkdir env dir = true ->
  can_write env (path_join dir "grammar.lark") = true ->
  exists cmd,
    (cmd = path_join (path_join (path_join (cwd env) "venv") "bin") "lark-js" \/
     cmd = path_join (path_join (path_join (package_dir env) "venv") "bin") "lark-js" \/
     cmd = "lark-js") /\
    compileGrammar env g dir n w =
    compile_loop env cmd
      (MkCompileResult (path_join dir "grammar.lark") (path_join dir "parser.cjs"))
      g n n None
      (set_files (<[path_join dir "grammar.lark" := Text g]> (files w)) w).
Proof.
  intros Hm Hw. unfold compileGrammar, bind, fs_mkdir, fs_writeFile, modify, ret.
  cbn [grammarFile parserFile]. rewrite Hm, Hw.
  match goal with |- context [choose_lark_js env ?w1] =>
    destruct (choose_lark_js_spec env w1) as (cmd & -> & Hcmd) end.
  exists cmd. split; [exact Hcmd|reflexivity].
Qed.

(** The outcomes of [compileGrammar] with a positive retry bound, once
    the output directory is made and the grammar file written, for
    directory names in normal form (to which [path.join] only adds the
    names joined).  The compiler is started between one and [maxRetries]
    times, always with the same command and the same three arguments.  Either the two paths
    are returned, or the compiler was started [maxRetries] times and the
    error thrown names that number and the message of the last failure,
    and carries the grammar text and that last failure, which carries the
    grammar text too.  In both cases the grammar file holds the grammar
    text and no file other than the grammar file and the parser file has
    changed. *)
Theorem compileGrammar_outcomes
    (env : Env) (grammarText outputDir : string) (maxRetries : nat) (w : World) :
  normal_dir outputDir = true ->
  normal_dir (cwd env) = true ->
  normal_dir (package_dir env) = true ->
  can_mkdir env outputDir = true ->
  can_write env (path_join outputDir "grammar.lark") = true ->
  0 < maxRetries ->
  let gf := path_join outputDir "grammar.lark" in
  let pf := path_join outputDir "parser.cjs" in
  let r := compileGrammar env grammarText outputDir maxRetries w in
  exists cmd k,
    (cmd = path_join (path_join (path_join (cwd env) "venv") "bin") "lark-js" \/
     cmd = path_join (path_join (path_join (package_dir env) "venv") "bin") "lark-js" \/
     cmd = "lark-js") /\
    1 <= k <= maxRetries /\
    spawns (snd r) = spawns w ++ repeat (cmd, [gf; "-o"; pf]) k /\
    files (snd r) !! gf = Some (Text grammarText) /\
    (forall path, path <> gf -> path <> pf -> files (snd r) !! path = files w !! path) /\
    (fst r = Returned (MkCompileResult gf pf) \/
     k = maxRetries /\
     exists e,
       err_grammarText e = Some grammarText /\
       fst r = Thrown (MkError ("Grammar compilation failed after "
                                +:+ show_nat maxRetries
                                +:+ " attempts. Last error: " +:+ message e)
                         None (Some grammarText) (Some e))).
Proof.
  intros _ _ _ Hm Hw Hpos. cbv zeta.
  destruct (compileGrammar_eq env grammarText outputDir maxRetries w Hm Hw)
    as (cmd & Hcmd & ->).
  set (w1' := set_files _ w).
  destruct (compile_loop_spec env cmd
              (MkCompileResult (path_join outputDir "grammar.lark")
                 (path_join outputDir "parser.cjs"))
              grammarText maxRetries maxRetries None w1') as (Hfr & Ho).
  { intros ->. lia. }
  cbn [grammarFile parserFile] in Hfr, Ho.
  assert (Hgp := grammar_file_is_not_parser_file outputDir).
  destruct Ho as [(Hr & k & Hk & Hsp) | (e & He & Hr & Hsp)].
  - exists cmd, k. split; [exact Hcmd|]. split; [exact Hk|]. split; [exact Hsp|].
    split; [rewrite (Hfr _ Hgp); apply lookup_insert_eq|].
    split; [|left; exact Hr].
    intros path H1 H2. rewrite (Hfr _ H2). unfold w1'. cbn [files set_files].
    apply lookup_insert_ne. congruence.
  - exists cmd, maxRetries. split; [exact Hcmd|]. split; [lia|]. split; [exact Hsp|].
    split; [rewrite (Hfr _ Hgp); apply lookup_insert_eq|].
    split; [|right; split; [reflexivity|exists e; auto]].
    intros path H1 H2. rewrite (Hfr _ H2). unfold w1'. cbn [files set_files].
    apply lookup_insert_ne. congruence.
Qed.

Lemma compileGrammar_outcomes_witness :
  let r := compileGrammar env_compiles calc_grammar "/out" 3 empty_world in
  exists cmd k,
    (cmd = "/work/venv/bin/lark-js" \/ cmd = "/pkg/venv/bin/lark-js" \/ cmd = "lark-js") /\
    1 <= k <= 3 /\
    spawns (snd r) = repeat (cmd, ["/out/grammar.lark"; "-o"; "/out/parser.cjs"]) k /\
    files (snd r) !! "/out/grammar.lark" = Some (Text calc_grammar).
Proof.
  destruct (compileGrammar_outcomes env_compiles calc_grammar "/out" 3 empty_world)
    as (cmd & k & H1 & H2 & H3 & H4 & _).
  - vm_compute; reflexivity.
  - vm_compute; reflexivity.
  - vm_compute; reflexivity.
  - vm_compute; reflexivity.
  - vm_compute; reflexivity.
  - lia.
  - exists cmd, k. auto.
Defined.

(** The set-up of [compileGrammar] and a retry bound of zero.  When the
    output directory cannot be made, or the grammar file cannot be
    written, the error of that step is thrown and the world is left as it
    was: the compiler is not started.  With [maxRetries] zero the grammar
    file is written, the compiler is not started either, and what is
    thrown is the [TypeError] of reading the message of the null last
    error, not the error that reports the failed compilation. *)
Theorem compileGrammar_setup_and_zero_retries
    (env : Env) (grammarText outputDir : string) (maxRetries : nat) (w : World) :
  let gf := path_join outputDir "grammar.lark" in
  let r := compileGrammar env grammarText outputDir maxRetries w in
  (can_mkdir env outputDir = false -> exists e, r = (Thrown e, w)) /\
  (can_mkdir env outputDir = true -> can_write env gf = false ->
   exists e, r = (Thrown e, w)) /\
  (can_mkdir env outputDir = true -> can_write env gf = true -> maxRetries = 0 ->
   r = (Thrown (Error "Cannot read properties of null (reading 'message')"),
        set_files (<[gf := Text grammarText]> (files w)) w)).
Proof.
  cbv zeta. repeat split.
  - intros Hm. unfold compileGrammar, bind, fs_mkdir. rewrite Hm. eexists. reflexivity.
  - intros Hm Hw. unfold compileGrammar, bind, fs_mkdir, fs_writeFile, ret.
    cbn [grammarFile]. rewrite Hm, Hw. eexists. reflexivity.
  - intros Hm Hw ->.
    destruct (compileGrammar_eq env grammarText outputDir 0 w Hm Hw) as (cmd & _ & ->).
    reflexivity.
Qed.

Lemma compileGrammar_setup_and_zero_retries_witness :
  compileGrammar env_compiles calc_grammar "/out" 0 empty_world
  = (Thrown (Error "Cannot read properties of null (reading 'message')"),
     set_files (<["/out/grammar.lark" := Text calc_grammar]> ∅) empty_world).
Proof.
  refine (proj2 (proj2 (compileGrammar_setup_and_zero_retries env_compiles calc_grammar
                          "/out" 0 empty_world)) _ _ _); vm_compute; reflexivity.
Defined.

(* ================================================================= *)
(** ** How [generateGrammar] fails *)

Lemma grammar_loop_throws env spec maxRetries :
  forall remaining attempts prev w,
  attempts + S remaining = maxRetries ->
  let r := grammar_loop env spec maxRetries (S remaining) attempts prev w in
  (exists g, fst r = Returned g) \/
  (exists msg, fst r = Thrown (Error (exhausted_message maxRetries msg)) /\
     List.length (requests (snd r)) = List.length (requests w) + S remaining /\
     files (snd r) = files w).
Proof.
  induction remaining as [|remaining IH]; intros attempts prev w Hsum; cbv zeta.
  - cbn [grammar_loop]. unfold try_catch. rewrite grammar_attempt_eq. cbv zeta.
    destruct (attempt_outcome env spec (GLOBAL_SAMPLE w) (List.length (requests w)) prev)
      as [msg|g]; [|left; eauto].
    cbn [message Error]. replace (maxRetries <=? S attempts)%nat with true
      by (symmetry; apply Nat.leb_le; lia).
    right. exists msg. unfold throw, requested. cbn [fst snd requests set_requests files].
    rewrite List.length_app. auto.
  - change (grammar_loop env spec maxRetries (S (S remaining)) attempts prev w)
      with (try_catch (grammar_attempt env spec prev)
              (fun error =>
                 if (maxRetries <=? S attempts)%nat then
                   throw (Error ("Failed to generate valid grammar after "
                                 +:+ show_nat maxRetries
                                 +:+ " attempts. Last error: " +:+ message error))
                 else grammar_loop env spec maxRetries (S remaining) (S attempts)
                        (prev ++ [message error])) w).
    unfold try_catch. rewrite grammar_attempt_eq. cbv zeta.
    destruct (attempt_outcome env spec (GLOBAL_SAMPLE w) (List.length (requests w)) prev)
      as [msg|g]; [|left; eauto].
    cbn [message Error]. replace (maxRetries <=? S attempts)%nat with false
      by (symmetry; apply Nat.leb_gt; lia).
    destruct (IH (S attempts) (prev ++ [msg])
                (requested (grammar_request env spec (GLOBAL_SAMPLE w) prev) w))
      as [Hg | (msg' & Hr & Hl & Hf)]; [lia|left; exact Hg|].
    right. exists msg'. split; [exact Hr|]. rewrite Hl, Hf. unfold requested.
    cbn [requests set_requests files]. rewrite List.length_app. cbn [List.length].
    split; [lia|reflexivity].
Qed.

(** How [generateGrammar] ends after a cache miss.  It returns or it
    throws; it never ends the process.  With a positive retry bound, the
    error it throws is always the one that names the bound and the
    message of the last attempt, exactly [maxRetries] requests have been
    sent by then, and no file has been written.  The [throw] that follows
    the loop is reached only with a retry bound of zero, and then nothing
    is sent. *)
Theorem generateGrammar_failure
    (env : Env) (spec : string) (maxRetries : nat) (w : World) :
  fst (getCached env "grammar" (grammar_cache_input spec) w) = Returned None ->
  let r := generateGrammar env spec maxRetries w in
  (maxRetries = 0 ->
   r = (Thrown (Error "Failed to generate grammar: max retries exceeded"), w)) /\
  (0 < maxRetries ->
   (exists g, fst r = Returned g) \/
   (exists msg,
      fst r = Thrown (Error ("Failed to generate valid grammar after "
                             +:+ show_nat maxRetries
                             +:+ " attempts. Last error: " +:+ msg)) /\
      List.length (requests (snd r)) = List.length (requests w) + maxRetries /\
      files (snd r) = files w)).
Proof.
  intros Hmiss. apply getCached_inv in Hmiss as [Hmiss _]. cbv zeta.
  unfold generateGrammar, bind. rewrite Hmiss. split.
  - intros ->. reflexivity.
  - intros Hpos. destruct maxRetries as [|n]; [lia|].
    apply (grammar_loop_throws env spec (S n) n 0 [] w). reflexivity.
Qed.

Lemma generateGrammar_failure_witness :
  generateGrammar env_calc_no_reads "calc" 0 empty_world
  = (Thrown (Error "Failed to generate grammar: max retries exceeded"), empty_world).
Proof.
  refine (proj1 (generateGrammar_failure env_calc_no_reads "calc" 0 empty_world _) _);
    vm_compute; reflexivity.
Defined.

(* ================================================================= *)
(** ** A sample and the instructions declared with [const] *)

Lemma truthy_nonempty s : s <> "" -> truthy s = true.
Proof. destruct s; [congruence|reflexivity]. Qed.

Lemma fix_loop_regeneration_throws env regenerate pf ifile stdin on_exhausted e :
  forall w, regenerate w = (Thrown e, w) ->
  forall remaining,
  fix_loop env regenerate pf ifile stdin (S remaining) on_exhausted w = on_exhausted e w.
Proof.
  intros w Hreg. induction remaining as [|remaining IH].
  - cbn [fix_loop]. unfold try_catch, bind, fix_attempt, bind. rewrite Hreg. reflexivity.
  - change (fix_loop env regenerate pf ifile stdin (S (S remaining)) on_exhausted w)
      with (try_catch
              (r <- fix_attempt env regenerate pf ifile ;; ret (r, stdin))
              (fun _ => fix_loop env regenerate pf ifile stdin (S remaining)
                          on_exhausted) w).
    unfold try_catch, bind, fix_attempt, bind. rewrite Hreg. apply IH.
Qed.

(** With a sample set, no interpreter is ever requested.  The three
    functions that build the interpreter's instructions declare them with
    [const] and then append the sample to them: when [GLOBAL_SAMPLE] is
    not empty, [generateInterpreter] (after a cache miss) and the two
    regenerations throw "Assignment to constant variable." before they
    send anything, and leave the world as it is.  After a failed test,
    the automatic fix therefore sends no request and fails with that
    message. *)
Theorem sample_breaks_interpreter_generation (env : Env) (w : World) :
  GLOBAL_SAMPLE w <> "" ->
  let e := Error "Assignment to constant variable." in
  (forall grammarText schema semantics,
     fst (getCached env "interpreter"
            (interpreter_cache_input grammarText schema semantics) w) = Returned None ->
     generateInterpreter env grammarText schema semantics w = (Thrown e, w)) /\
  (forall grammarText schema semantics errorMessage sampleCode,
     regenerateInterpreterWithFix env grammarText schema semantics errorMessage
       sampleCode w = (Thrown e, w)) /\
  (forall grammarText schema semantics errorMessage sampleCode currentCode
          userInstructions,
     regenerateInterpreterWithUserFix env grammarText schema semantics errorMessage
       sampleCode currentCode userInstructions w = (Thrown e, w)) /\
  (forall line stdin1 parserFile interpreterFile sampleCode spec grammarText schema
          semantics maxRetries w0 error current,
     first_test env (absolute env parserFile) (absolute env interpreterFile)
       sampleCode w0 = (Thrown error, w) ->
     files w !! absolute env interpreterFile = Some current ->
     trim line = "2" ->
     0 < maxRetries ->
     testGeneratedCode env (line :: stdin1) parserFile interpreterFile sampleCode
       spec grammarText schema semantics maxRetries w0
     = (Returned (Failure "Assignment to constant variable." false, stdin1), w)).
Proof.
  intros Hs. apply truthy_nonempty in Hs. cbv zeta.
  assert (Hconst : append_sample_to_const w
                   = (Thrown (Error "Assignment to constant variable."), w)).
  { unfold append_sample_to_const, bind, get_world. rewrite Hs. reflexivity. }
  repeat split.
  - intros g schema sem Hmiss. apply getCached_inv in Hmiss as [Hmiss _].
    unfold generateInterpreter, bind at 1. rewrite Hmiss. unfold bind at 1.
    rewrite Hconst. reflexivity.
  - intros. unfold regenerateInterpreterWithFix, bind at 1. rewrite Hconst. reflexivity.
  - intros. unfold regenerateInterpreterWithUserFix, bind at 1. rewrite Hconst.
    reflexivity.
  - intros line stdin1 pf ifile sample spec g schema sem n w0 error current
      Hfirst Hfile Hline Hpos.
    rewrite (test_failed_then _ _ _ _ _ _ _ _ _ _ _ _ _ _ _ Hfirst Hfile).
    rewrite Hline. cbn [String.eqb Ascii.eqb Bool.eqb].
    destruct n as [|n]; [lia|].
    rewrite (fix_loop_regeneration_throws _ _ _ _ _ _
               (Error "Assignment to constant variable.")).
    + reflexivity.
    + rewrite regenerateInterpreterWithFix_eq, Hs. reflexivity.
Qed.

Lemma sample_breaks_interpreter_generation_witness :
  generateInterpreter env_calc_no_reads calc_grammar sum_schema "evaluate"
    (MkWorld ∅ "1+2" [] [] ∅ ∅ 0 [])
  = (Thrown (Error "Assignment to constant variable."), MkWorld ∅ "1+2" [] [] ∅ ∅ 0 []).
Proof.
  refine (proj1 (sample_breaks_interpreter_generation env_calc_no_reads
                   (MkWorld ∅ "1+2" [] [] ∅ ∅ 0 []) _)
            calc_grammar sum_schema "evaluate" _).
  - discriminate.
  - vm_compute; reflexivity.
Defined.

(* ================================================================= *)
(** ** [generateExampleProgram] never fails *)

Lemma generateExampleProgram_value env spec g sem w :
  let input := example_cache_input spec g sem in
  let rq := example_request env spec g sem (GLOBAL_SAMPLE w) in
  generateExampleProgram env spec g sem w =
  match fst (getCached env "example" input w) with
  | Returned (Some entry) => (Returned (ce_output entry), w)
  | _ =>
      match service_stream env (List.length (requests w)) rq with
      | inl _ => (Returned (example_fallback spec), requested rq w)
      | inr events =>
          match accumulate "Example generation failed" events "" with
          | inl _ => (Returned (example_fallback spec), requested rq w)
          | inr text =>
              (Returned (trim text), saved env "example" input (trim text) (requested rq w))
          end
      end
  end.
Proof.
  cbv zeta. unfold generateExampleProgram, bind at 1.
  pose proof (getCached_world env "example" (example_cache_input spec g sem) w) as Hw.
  destruct (getCached_returns env "example" (example_cache_input spec g sem) w) as [o Ho].
  destruct (getCached env "example" (example_cache_input spec g sem) w) as [o' w'].
  cbn [fst snd] in Hw, Ho |- *. subst o' w'.
  destruct o as [entry|]; [reflexivity|].
  unfold try_catch, bind, get_world, create_stream, requested.
  destruct (service_stream env (List.length (requests w))
              (example_request env spec g sem (GLOBAL_SAMPLE w))) as [msg|events];
    [reflexivity|].
  destruct (accumulate "Example generation failed" events "") as [msg|text];
    [reflexivity|].
  rewrite saveCache_eq. reflexivity.
Qed.

(** [generateExampleProgram] always returns.  After a cache miss it
    sends one request.  When the service refuses the request or the
    stream carries an error event, the fallback text naming the
    specification is returned and nothing is cached.  Otherwise the
    trimmed text of the stream is returned, and cached, without any
    check: an empty example is returned as it is. *)
Theorem generateExampleProgram_always_returns
    (env : Env) (spec grammarText semantics : string) (w : World) :
  let r := generateExampleProgram env spec grammarText semantics w in
  let rq := example_request env spec grammarText semantics (GLOBAL_SAMPLE w) in
  (exists out, fst r = Returned out) /\
  (fst (getCached env "example" (example_cache_input spec grammarText semantics) w)
     = Returned None ->
   match service_stream env (List.length (requests w)) rq with
   | inl _ => r = (Returned (example_fallback spec), requested rq w)
   | inr events =>
       match accumulate "Example generation failed" events "" with
       | inl _ => r = (Returned (example_fallback spec), requested rq w)
       | inr text =>
           r = (Returned (trim text),
                saved env "example" (example_cache_input spec grammarText semantics)
                  (trim text) (requested rq w))
       end
   end).
Proof.
  cbv zeta. rewrite generateExampleProgram_value. cbv zeta. split.
  - destruct (fst (getCached env "example" _ w)) as [[entry|]|e|s|];
      try (cbn; eauto; fail);
      destruct (service_stream env _ _) as [msg|events]; try (cbn; eauto; fail);
      destruct (accumulate _ events "") as [msg|text]; cbn; eauto.
  - intros ->.
    destruct (service_stream env _ _) as [msg|events]; [reflexivity|].
    destruct (accumulate _ events ""); reflexivity.
Qed.

(* ================================================================= *)
(** ** [testGeneratedCode] beyond the automatic fix *)

(** The first test sends nothing and writes no file. *)
Lemma first_test_frame env pf ifile sample w :
  exists o w0,
    first_test env pf ifile sample w = (o, w0) /\
    requests w0 = requests w /\ files w0 = files w /\
    spawns w0 = spawns w /\ GLOBAL_SAMPLE w0 = GLOBAL_SAMPLE w /\
    ((exists result, o = Returned (Success result)) \/ exists e, o = Thrown e).
Proof.
  unfold first_test, bind, delete_require_cache, modify, require_module,
    import_module, bind, Date_now, run_modules, ret, throw.
  repeat (match goal with
          | |- context [match ?x with _ => _ end] =>
              lazymatch x with
              | context [match _ with _ => _ end] => fail
              | _ => destruct x
              end
          end; cbv beta iota);
    do 2 eexists; (split; [reflexivity|]); cbn; eauto 10.
Qed.

(** The outcomes of [testGeneratedCode] that involve no repair.  When
    the first test passes, its result is returned at once: the operator
    is not asked anything, nothing is sent and no file is written.  When
    it fails and the operator answers 3, the failure is returned with
    [continued] set and the message of the test's error, again without a
    request or a write. *)
Theorem test_without_repair
    (env : Env) (stdin : list string)
    (parserFile interpreterFile sampleCode spec grammarText : string)
    (schema : Schema) (semantics : string) (maxRetries : nat) (w w0 : World) :
  let test := first_test env (absolute env parserFile) (absolute env interpreterFile)
                sampleCode w in
  let r := testGeneratedCode env stdin parserFile interpreterFile sampleCode spec
             grammarText schema semantics maxRetries w in
  (forall result,
     test = (Returned (Success result), w0) ->
     r = (Returned (Success result, stdin), w0)) /\
  (forall error current line stdin1,
     test = (Thrown error, w0) ->
     files w0 !! absolute env interpreterFile = Some current ->
     stdin = line :: stdin1 ->
     trim line = "3" ->
     r = (Returned (Failure (message error) true, stdin1), w0)) /\
  (snd test = w0 -> requests w0 = requests w /\ files w0 = files w).
Proof.
  cbv zeta. split; [|split].
  - intros result H. destruct stdin; cbn [testGeneratedCode];
      unfold try_catch, bind; rewrite H; reflexivity.
  - intros error current line stdin1 H Hfile -> Hline.
    rewrite (test_failed_then _ _ _ _ _ _ _ _ _ _ _ _ _ _ _ H Hfile), Hline.
    reflexivity.
  - intros <-.
    destruct (first_test_frame env (absolute env parserFile)
                (absolute env interpreterFile) sampleCode w)
      as (o & w1 & -> & H1 & H2 & _).
    split; assumption.
Qed.

Lemma test_without_repair_witness :
  testGeneratedCode env_repair [" 3 "] "/out/parser.cjs" "/out/interpreter.mjs"
    "1+2*3" "calc" calc_grammar sum_schema "evaluate" 3 world_repair
  = (Returned (Failure "Unknown node type: foo" true, []),
     snd (first_test env_repair "/out/parser.cjs" "/out/interpreter.mjs" "1+2*3"
            world_repair)).
Proof.
  refine (proj1 (proj2 (test_without_repair env_repair [" 3 "] "/out/parser.cjs"
                          "/out/interpreter.mjs" "1+2*3" "calc" calc_grammar
                          sum_schema "evaluate" 3 world_repair _))
            (Error "Unknown node type: foo") (Text broken_interpreter) " 3 " []
            _ _ _ _); vm_compute; reflexivity.
Defined.

(** A failed test with no interpreter file to read.  The [catch] block
    reads the interpreter file before it asks anything; when the file
    does not exist the first test has failed and that read throws, so
    [testGeneratedCode] throws without prompting the operator and without
    sending anything. *)
Theorem test_with_missing_interpreter
    (env : Env) (stdin : list string)
    (parserFile interpreterFile sampleCode spec grammarText : string)
    (schema : Schema) (semantics : string) (maxRetries : nat) (w : World) :
  files w !! absolute env interpreterFile = None ->
  esm_cache w !! (absolute env interpreterFile +:+ "?t="
                  +:+ show_nat (date_now env (clock_reads w))) = None ->
  let r := testGeneratedCode env stdin parserFile interpreterFile sampleCode spec
             grammarText schema semantics maxRetries w in
  (exists e, fst r = Thrown e) /\
  requests (snd r) = requests w /\ files (snd r) = files w.
Proof.
  intros Hfile Hesm. cbv zeta.
  assert (Hfirst : exists e w0,
            first_test env (absolute env parserFile) (absolute env interpreterFile)
              sampleCode w = (Thrown e, w0) /\
            files w0 = files w /\ requests w0 = requests w).
  { unfold first_test, bind, delete_require_cache, modify, require_module,
      import_module, bind, Date_now, run_modules, ret, throw.
    cbn [require_cache set_require_cache files esm_cache clock_reads].
    repeat (match goal with
            | |- context [match ?x with _ => _ end] =>
                lazymatch x with
                | context [match _ with _ => _ end] => fail
                | context [esm_cache] => fail
                | context [files _ !! absolute env interpreterFile] => fail
                | _ => destruct x
                end
            end;
            cbv beta iota;
            cbn [fst snd require_cache set_require_cache files esm_cache clock_reads
                 set_clock_reads];
            rewrite ?Hesm, ?Hfile);
      do 2 eexists; (split; [reflexivity|]); cbn; auto. }
  destruct Hfirst as (e & w0 & Hfirst & Hf & Hr).
  assert (E : testGeneratedCode env stdin parserFile interpreterFile sampleCode spec
                grammarText schema semantics maxRetries w
              = (Thrown (Error ("ENOENT: no such file or directory, open '"
                                +:+ absolute env interpreterFile +:+ "'")), w0)).
  { destruct stdin; cbn [testGeneratedCode]; unfold try_catch, bind at 1;
      rewrite Hfirst; unfold bind, fs_readFile; rewrite Hf, Hfile; reflexivity. }
  rewrite E. cbn [fst snd]. eauto.
Qed.

Lemma test_with_missing_interpreter_witness :
  exists e,
    fst (testGeneratedCode env_repair [] "/out/parser.cjs" "/out/interpreter.mjs"
           "1+2*3" "calc" calc_grammar sum_schema "evaluate" 3
           (MkWorld (<["/out/parser.cjs" := Text compiled_parser]> ∅) "" [] [] ∅ ∅ 0 []))
    = Thrown e.
Proof.
  refine (proj1 (test_with_missing_interpreter env_repair [] "/out/parser.cjs"
                   "/out/interpreter.mjs" "1+2*3" "calc" calc_grammar sum_schema
                   "evaluate" 3
                   (MkWorld (<["/out/parser.cjs" := Text compiled_parser]> ∅)
                      "" [] [] ∅ ∅ 0 []) _ _)); vm_compute; reflexivity.
Defined.

Lemma regenerateInterpreterWithUserFix_regenerates env g schema sem em sc cur ui :
  regenerates (regenerateInterpreterWithUserFix env g schema sem em sc cur ui)
    (user_fix_request env g schema sem em sc cur ui).
Proof.
  intros w. unfold regenerateInterpreterWithUserFix, append_sample_to_const, bind,
    get_world, create_text, throw, ret.
  destruct (truthy (GLOBAL_SAMPLE w)).
  - cbn. rewrite app_nil_r. eauto 6.
  - destruct (service_text env (List.length (requests w))
                (user_fix_request env g schema sem em sc cur ui)); cbn; eauto 6.
Qed.

(** The repair with the operator's instructions.  After a failed test,
    the answer 1 and a line of instructions, each of the [maxRetries]
    attempts sends the request that carries those instructions and the
    interpreter that failed (none when a sample is set), and none of them
    succeeds or runs the sample.  Once they are exhausted the operator's
    next answer decides: after 1 the whole of [testGeneratedCode] runs
    again on the lines that are left, and only that run tests what the
    repair wrote; after 2 the failure is returned with [continued] set;
    any other answer ends the process with status 1. *)
Theorem test_with_operator_instructions
    (env : Env) (line1 line2 line3 : string) (stdin3 : list string)
    (parserFile interpreterFile sampleCode spec grammarText : string)
    (schema : Schema) (semantics : string) (maxRetries : nat)
    (w w0 : World) (error : JsError) (current : FileData) :
  first_test env (absolute env parserFile) (absolute env interpreterFile)
    sampleCode w = (Thrown error, w0) ->
  files w0 !! absolute env interpreterFile = Some current ->
  trim line1 = "1" ->
  0 < maxRetries ->
  let r := testGeneratedCode env (line1 :: line2 :: line3 :: stdin3) parserFile
             interpreterFile sampleCode spec grammarText schema semantics
             maxRetries w in
  let rq := user_fix_request env grammarText schema semantics (message error)
              sampleCode (file_text current) (trim line2) in
  exists fixError w1,
    requests w1 = requests w0
                  ++ repeat rq (if truthy (GLOBAL_SAMPLE w0) then 0 else maxRetries) /\
    runs w1 = runs w0 /\
    r = (if String.eqb (trim line3) "1" then
           testGeneratedCode env stdin3 parserFile interpreterFile sampleCode spec
             grammarText schema semantics maxRetries w1
         else if String.eqb (trim line3) "2" then
           (Returned (Failure (message fixError) true, stdin3), w1)
         else (Exited 1, w1)).
Proof.
  intros Hfirst Hfile Hline Hpos. cbv zeta.
  rewrite (test_failed_then _ _ _ _ _ _ _ _ _ _ _ _ _ _ _ Hfirst Hfile), Hline.
  cbn [String.eqb Ascii.eqb Bool.eqb].
  destruct maxRetries as [|n]; [lia|].
  match goal with |- context [fix_loop env ?rg ?a ?b ?c (S n) ?k w0] =>
    destruct (fix_loop_exhausts env rg
                (user_fix_request env grammarText schema semantics (message error)
                   sampleCode (file_text current) (trim line2))
                a b c k
                (regenerateInterpreterWithUserFix_regenerates _ _ _ _ _ _ _ _) n w0)
      as (fixError & w1 & E & _ & Hreq & Hruns) end.
  exists fixError, w1. split; [exact Hreq|]. split; [exact Hruns|].
  rewrite E. destruct (String.eqb (trim line3) "1"); [reflexivity|].
  destruct (String.eqb (trim line3) "2"); reflexivity.
Qed.

Lemma test_with_operator_instructions_witness :
  fst (testGeneratedCode env_repair ["1"; "handle neg"; "1"] "/out/parser.cjs"
         "/out/interpreter.mjs" "1+2*3" "calc" calc_grammar sum_schema "evaluate" 3
         world_repair)
  = Returned (Success "7", []).
Proof.
  destruct (test_with_operator_instructions env_repair "1" "handle neg" "1" []
              "/out/parser.cjs" "/out/interpreter.mjs" "1+2*3" "calc" calc_grammar
              sum_schema "evaluate" 3 world_repair
              (snd (first_test env_repair "/out/parser.cjs" "/out/interpreter.mjs"
                      "1+2*3" world_repair))
              (Error "Unknown node type: foo") (Text broken_interpreter))
    as (fixError & w1 & _ & _ & _).
  - vm_compute; reflexivity.
  - vm_compute; reflexivity.
  - vm_compute; reflexivity.
  - lia.
  - vm_compute; reflexivity.
Defined.

(** A retry bound of zero in [testGeneratedCode].  After a failed test,
    when the operator chooses a repair (2, or 1 and a line of
    instructions), neither loop runs: nothing is sent, no file is
    written, and the function ends without a [return], so that its
    result is [undefined], neither a success nor a failure. *)
Theorem test_with_zero_retries
    (env : Env) (line : string) (stdin1 : list string)
    (parserFile interpreterFile sampleCode spec grammarText : string)
    (schema : Schema) (semantics : string)
    (w w0 : World) (error : JsError) (current : FileData) :
  first_test env (absolute env parserFile) (absolute env interpreterFile)
    sampleCode w = (Thrown error, w0) ->
  files w0 !! absolute env interpreterFile = Some current ->
  let r := testGeneratedCode env (line :: stdin1) parserFile interpreterFile
             sampleCode spec grammarText schema semantics 0 w in
  (trim line = "2" -> r = (Returned (Undefined, stdin1), w0)) /\
  (trim line = "1" ->
   forall line2 stdin2, stdin1 = line2 :: stdin2 ->
                        r = (Returned (Undefined, stdin2), w0)).
Proof.
  intros Hfirst Hfile. cbv zeta.
  rewrite (test_failed_then _ _ _ _ _ _ _ _ _ _ _ _ _ _ _ Hfirst Hfile).
  split.
  - intros ->. reflexivity.
  - intros -> line2 stdin2 ->. reflexivity.
Qed.

Lemma test_with_zero_retries_witness :
  testGeneratedCode env_repair ["2"] "/out/parser.cjs" "/out/interpreter.mjs"
    "1+2*3" "calc" calc_grammar sum_schema "evaluate" 0 world_repair
  = (Returned (Undefined, []),
     snd (first_test env_repair "/out/parser.cjs" "/out/interpreter.mjs" "1+2*3"
            world_repair)).
Proof.
  refine (proj1 (test_with_zero_retries env_repair "2" [] "/out/parser.cjs"
                   "/out/interpreter.mjs" "1+2*3" "calc" calc_grammar sum_schema
                   "evaluate" world_repair _ (Error "Unknown node type: foo")
                   (Text broken_interpreter) _ _) _); vm_compute; reflexivity.
Defined.

(* ================================================================= *)
(** ** The text of a stream *)

(** What the loop of [generateExampleProgram] over the stream
    accumulates (lines 597-619).  When no event carries an
    error, the result is the text accumulated so far followed by the
    chunks of all the events in their order of arrival.  Otherwise an
    error is thrown at the first event that carries one, whatever text
    came before it: its message is the message of that event's error,
    or the fallback of the stage when that message is empty.  Consuming a
    stream in two parts gives the same result as consuming it whole. *)
Theorem accumulate_is_concatenation
    (fallback : string) (events more : list event) (text : string) :
  accumulate fallback events text =
    match first_error events with
    | Some msg => inl (or_else msg fallback)
    | None => inr (text +:+ String.concat "" (map event_text events))
    end /\
  accumulate fallback (events ++ more) text =
    match accumulate fallback events text with
    | inl msg => inl msg
    | inr text' => accumulate fallback more text'
    end.
Proof.
  split.
  - revert text. induction events as [|e events IH]; intros text.
    + cbn. rewrite app_empty_r. reflexivity.
    + assert (Hcat : forall t, (text +:+ t) +:+ String.concat "" (map event_text events)
                     = text +:+ String.concat "" (t :: map event_text events)).
      { intros t. rewrite app_assoc'. f_equal.
        destruct events; cbn; [rewrite app_empty_r|]; reflexivity. }
      destruct e as [s|o]; cbn [accumulate first_error event_error map event_text].
      * rewrite IH. destruct (first_error events); [reflexivity|].
        rewrite Hcat. reflexivity.
      * destruct (ev_error o) as [msg|]; [reflexivity|].
        rewrite IH. destruct (first_error events); [reflexivity|].
        rewrite Hcat. reflexivity.
  - revert text. induction events as [|e events IH]; intros text; [reflexivity|].
    destruct e as [s|o]; cbn [accumulate app]; [apply IH|].
    destruct (ev_error o); [reflexivity|apply IH].
Qed.

(* ================================================================= *)
(** ** The rewrite of the parser on other texts *)

Lemma lit_match_rest s : forall st st',
  lit_match s st = Some st' -> ms_rest st = s +:+ ms_rest st'.
Proof.
  induction s as [|c s IH]; intros st st'; cbn [lit_match].
  - intros [= <-]. reflexivity.
  - destruct (ms_rest st) as [|a rest] eqn:E; [discriminate|].
    destruct (Ascii.eqb a c) eqn:Ea; [|discriminate].
    apply Ascii.eqb_eq in Ea as ->. intros H. apply IH in H. cbn [ms_rest] in H.
    rewrite H. reflexivity.
Qed.

Lemma star_lazy_rest p k s : forall prev len cap x,
  star_lazy p k prev len cap s = Some x ->
  exists a st, s = a +:+ ms_rest st /\ k st = Some x.
Proof.
  induction s as [|c s IH]; intros prev len cap x; cbn [star_lazy].
  - destruct (k (MState prev "" len cap)) eqn:E; [|discriminate].
    intros [= <-]. exists "", (MState prev "" len cap). auto.
  - destruct (k (MState prev (String c s) len cap)) eqn:E.
    + intros [= <-]. exists "", (MState prev (String c s) len cap). auto.
    + destruct (p c); [|discriminate]. intros H. apply IH in H as (a & st & -> & Hk).
      exists (String c a), st. auto.
Qed.

(** A match of [getParserRegex] starts with the header of [get_parser]
    and holds the [return] statement of the compiler's version. *)
Lemma getParserRegex_here prev s st :
  match_here getParserRegex prev s = Some st ->
  String.prefix "function get_parser(options = {}) {" s = true /\
  includes s "return Lark._load_from_dict({ data: DATA, memo: MEMO, ...options });"
    = true.
Proof.
  unfold match_here, getParserRegex. rewrite rmatch_seq. cbn [rmatch].
  destruct (lit_match _ _) as [st1|] eqn:E1; [|discriminate].
  apply lit_match_rest in E1. cbn [ms_rest] in E1. intros H.
  apply star_lazy_rest in H as (a & st2 & Ea & H).
  destruct (lit_match _ st2) as [st3|] eqn:E3; [|discriminate].
  apply lit_match_rest in E3.
  split.
  - rewrite E1. apply prefix_app.
  - rewrite E1, Ea, E3. apply includes_app_l, includes_app_l, includes_here, prefix_app.
Qed.

Lemma includes_tail c s sub : includes (String c s) sub = false -> includes s sub = false.
Proof. cbn [includes]. intros H. apply orb_false_iff in H. apply H. Qed.

Lemma includes_head s sub : includes s sub = false -> String.prefix sub s = false.
Proof. destruct s; cbn [includes]; intros H; apply orb_false_iff in H; apply H. Qed.

Lemma search_None r s : forall prev before,
  (forall prev' a b, s = a +:+ b -> match_here r prev' b = None) ->
  search r prev before s = None.
Proof.
  induction s as [|c s IH]; intros prev before H; cbn [search].
  - rewrite (H prev "" "" eq_refl). reflexivity.
  - rewrite (H prev "" (String c s) eq_refl). apply IH.
    intros prev' a b ->. apply (H prev' (String c a) b). reflexivity.
Qed.

(** A parser without the expected [get_parser] is left as it is.  When
    the text of the parser file lacks the header of [get_parser] as the
    compiler writes it, or the [return] statement of the compiler's
    version, the rewrite changes nothing: [compileGrammar] writes the
    file back with the content it read. *)
Theorem rewrite_parser_needs_the_compiled_get_parser (content : string) :
  includes content "function get_parser(options = {}) {" = false \/
  includes content
    "return Lark._load_from_dict({ data: DATA, memo: MEMO, ...options });" = false ->
  rewrite_parser content = content /\
  forall env parserFile w,
    files w !! parserFile = Some (Text content) ->
    files (snd (fix_parser env parserFile w)) !! parserFile = Some (Text content).
Proof.
  intros H.
  assert (Hsearch : search getParserRegex None "" content = None).
  { apply search_None. intros prev a b -> .
    destruct (match_here getParserRegex prev b) as [st|] eqn:E; [|reflexivity].
    apply getParserRegex_here in E as [Hp Hi]. exfalso.
    destruct H as [H|H].
    - rewrite (includes_app_l a b _ (includes_here _ _ Hp)) in H. discriminate.
    - rewrite (includes_app_l a b _ Hi) in H. discriminate. }
  assert (Hrw : rewrite_parser content = content).
  { unfold rewrite_parser, js_replace. rewrite Hsearch. reflexivity. }
  split; [exact Hrw|].
  intros env pf w Hfile.
  unfold fix_parser, try_catch, bind, fs_readFile, fs_writeFile, modify, throw, ret.
  rewrite Hfile. cbn [file_text]. rewrite Hrw.
  destruct (can_write env pf); cbn [fst snd files set_files]; [|exact Hfile].
  apply lookup_insert_eq.
Qed.

Lemma rewrite_parser_needs_the_compiled_get_parser_witness :
  rewrite_parser (parser_before +:+ newGetParser +:+ parser_after)
  = parser_before +:+ newGetParser +:+ parser_after.
Proof.
  refine (proj1 (rewrite_parser_needs_the_compiled_get_parser
                   (parser_before +:+ newGetParser +:+ parser_after) _)).
  right. vm_compute. reflexivity.
Defined.

(* ================================================================= *)
(** ** The local validation, by the quote characters of the text *)

Lemma unslashed_has_single_quote g : unslashed_single_quotes g -> has_char SQ g = true.
Proof.
  intros (a & b & c & -> & _). rewrite has_char_app. cbn [has_char].
  rewrite Ascii.eqb_refl. rewrite orb_true_l. apply orb_true_r.
Qed.

(** The local validation in terms of the quote characters.  A non-empty
    grammar without any single quote character always passes.  A grammar
    that holds both a double and a single quote character never passes,
    wherever the two are (in a literal, a pattern or a comment): the
    error lists it under the mismatched quotes.  A non-empty grammar
    without a double quote character passes exactly when it has no
    single-quoted span whose opening quote does not follow a slash. *)
Theorem validateGrammar_by_quote_characters (g : string) :
  (g <> "" -> has_char SQ g = false -> validateGrammar g = None) /\
  (has_char DQ g = true -> has_char SQ g = true ->
   exists msg, validateGrammar g = Some msg /\
               includes msg "Found mismatched quotes: " = true) /\
  (g <> "" -> has_char DQ g = false ->
   (validateGrammar g = None <-> ~ unslashed_single_quotes g)).
Proof.
  split; [|split].
  - intros Hne Hs. apply validateGrammar_None_iff. split; [exact Hne|]. split.
    + intros H. apply unslashed_has_single_quote in H. congruence.
    + intros [_ H]. congruence.
  - intros Hd Hs.
    assert (Hm : js_match mismatchedQuotes g <> None).
    { intros H. apply js_match_None in H. apply H, mismatched_somewhere. auto. }
    unfold validateGrammar, syntaxErrors.
    destruct g as [|c g]; [discriminate|]. cbn [truthy].
    destruct (js_match mismatchedQuotes (String c g)) as [mm|]; [|congruence].
    destruct (js_match singleQuotePattern (String c g)) as [m|]; cbn [app];
      eexists; (split; [reflexivity|]); unfold join; cbn [String.concat].
    + apply includes_app_l, includes_app_l, includes_app_l, includes_here, prefix_app.
    + apply includes_app_l, includes_here, prefix_app.
  - intros Hne Hd. rewrite validateGrammar_None_iff. split.
    + intros (_ & H & _). exact H.
    + intros H. split; [exact Hne|]. split; [exact H|]. intros [H' _]. congruence.
Qed.

Lemma validateGrammar_by_quote_characters_witness :
  exists msg,
    validateGrammar ("start: " +:+ dq +:+ "a" +:+ dq +:+ " /[']/") = Some msg /\
    includes msg "Found mismatched quotes: " = true.
Proof.
  refine (proj1 (proj2 (validateGrammar_by_quote_characters
                          ("start: " +:+ dq +:+ "a" +:+ dq +:+ " /[']/"))) _ _);
    vm_compute; reflexivity.
Defined.

(* ================================================================= *)
(** ** The names of the cache files *)

Lemma hex_spec digits : forall x acc,
  exists h, SHA256.hex digits x acc = h +:+ acc /\
            String.length h = digits /\ all_chars is_hex_digit h = true.
Proof.
  induction digits as [|d IH]; intros x acc; cbn [SHA256.hex].
  - exists "". auto.
  - destruct (IH (N.shiftr x 4) (String (SHA256.hex_digit (N.land x 15)) acc))
      as (h & -> & Hl & Hh).
    exists (h +:+ String (SHA256.hex_digit (N.land x 15)) "").
    rewrite app_assoc'. split; [reflexivity|].
    rewrite string_length_app. cbn [String.length]. split; [lia|].
    assert (Hd : is_hex_digit (SHA256.hex_digit (N.land x 15)) = true).
    { assert (N.land x 15 < 16)%N as Hlt.
      { change 15%N with (N.ones 4). rewrite N.land_ones. apply N.mod_lt. discriminate. }
      assert (N.land x 15 = 0 \/ N.land x 15 = 1 \/ N.land x 15 = 2 \/ N.land x 15 = 3 \/
              N.land x 15 = 4 \/ N.land x 15 = 5 \/ N.land x 15 = 6 \/ N.land x 15 = 7 \/
              N.land x 15 = 8 \/ N.land x 15 = 9 \/ N.land x 15 = 10 \/
              N.land x 15 = 11 \/ N.land x 15 = 12 \/ N.land x 15 = 13 \/
              N.land x 15 = 14 \/ N.land x 15 = 15)%N as Hc by lia.
      repeat destruct Hc as [-> | Hc]; try rewrite Hc; reflexivity. }
    clear -Hh Hd. induction h as [|c h IHh]; cbn [all_chars] in *.
    + rewrite app_empty_l. cbn [all_chars]. rewrite Hd. reflexivity.
    + rewrite app_cons. cbn [all_chars]. apply andb_true_iff in Hh as [-> Hh].
      exact (IHh Hh).
Qed.

Lemma round_length h kw : List.length h = 8 -> List.length (SHA256.round h kw) = 8.
Proof.
  intros H. do 9 (destruct h as [|? h]; try discriminate). reflexivity.
Qed.

Lemma compress_length h block :
  List.length h = 8 -> List.length (SHA256.compress h block) = 8.
Proof.
  intros H. unfold SHA256.compress. rewrite length_map, length_combine, H.
  assert (forall kws h0, List.length h0 = 8 ->
            List.length (fold_left SHA256.round kws h0) = 8) as Hfold.
  { induction kws as [|kw kws IH]; intros h0 H0; [exact H0|].
    cbn [fold_left]. apply IH, round_length, H0. }
  rewrite (Hfold _ _ H). reflexivity.
Qed.

Lemma blocks_length fuel : forall ws h,
  List.length h = 8 -> List.length (SHA256.blocks fuel ws h) = 8.
Proof.
  induction fuel as [|fuel IH]; intros ws h H; cbn [SHA256.blocks]; [exact H|].
  destruct ws; [exact H|]. apply IH, compress_length, H.
Qed.

Lemma all_chars_app p a b : all_chars p (a +:+ b) = all_chars p a && all_chars p b.
Proof.
  induction a as [|c a IH]; [reflexivity|].
  rewrite app_cons. cbn [all_chars]. rewrite IH. apply andb_assoc.
Qed.

Lemma digest_format s :
  String.length (SHA256.digest_hex s) = 64 /\
  all_chars is_hex_digit (SHA256.digest_hex s) = true.
Proof.
  unfold SHA256.digest_hex. cbv zeta.
  match goal with |- context [SHA256.blocks ?f ?ws SHA256.H0] =>
    pose proof (blocks_length f ws SHA256.H0 eq_refl) as Hlen;
    generalize dependent (SHA256.blocks f ws SHA256.H0) end.
  intros h Hlen. do 9 (destruct h as [|? h]; try discriminate).
  cbn [fold_right].
  repeat match goal with |- context [SHA256.hex 8 ?x ?acc] =>
    let h := fresh "h" in let Hl := fresh "Hl" in let Hh := fresh "Hh" in
    destruct (hex_spec 8 x acc) as (h & -> & Hl & Hh) end.
  rewrite !string_length_app, !all_chars_app. cbn [String.length all_chars].
  repeat match goal with H : all_chars _ _ = true |- _ => rewrite H; clear H end.
  split; [lia|reflexivity].
Qed.

Lemma app_inj_tail_length (a b x y : string) :
  a +:+ x = b +:+ y -> String.length x = String.length y -> a = b /\ x = y.
Proof.
  revert b. induction a as [|c a IH]; intros [|d b]; rewrite ?app_cons, ?app_empty_l.
  - auto.
  - intros -> H. cbn [String.length] in H. rewrite string_length_app in H. lia.
  - intros <- H. cbn [String.length] in H. rewrite string_length_app in H. lia.
  - intros [= -> H] Hl. destruct (IH b H Hl) as [-> ->]. auto.
Qed.

(** The names of the cache files.  A cache key is 64 lower-case
    hexadecimal digits, so that a cache file is named by the stage type,
    a hyphen, those digits and [.json].  Two lookups use the same file
    exactly when they are of the same stage type and have the same key:
    entries of different stages never share a file. *)
Theorem cache_files_are_named_by_stage_and_key
    (env : Env) (type1 type2 : string) (input1 input2 : json) :
  String.length (getCacheKey type1 input1) = 64 /\
  all_chars is_hex_digit (getCacheKey type1 input1) = true /\
  (cachePath env type1 input1 = cachePath env type2 input2 <->
   type1 = type2 /\ getCacheKey type1 input1 = getCacheKey type2 input2).
Proof.
  destruct (digest_format (type1 +:+ JSON_stringify input1)) as [Hl1 Hh1].
  destruct (digest_format (type2 +:+ JSON_stringify input2)) as [Hl2 _].
  fold (getCacheKey type1 input1) in Hl1, Hh1. fold (getCacheKey type2 input2) in Hl2.
  split; [exact Hl1|]. split; [exact Hh1|]. split.
  - unfold cachePath, path_join. intros H.
    apply String.app_inj, String.app_inj in H.
    apply app_inj_tail_length in H as [-> H].
    + split; [reflexivity|].
      apply String.app_inj in H. apply app_inj_tail_length in H as [H _]; auto.
    + rewrite !string_length_app, Hl1, Hl2. reflexivity.
  - intros [-> E]. unfold cachePath. rewrite E. reflexivity.
Qed.

(* ================================================================= *)
(** ** The identifiers [main] derives from the specification *)

Lemma substring_chars p : forall n s,
  all_chars p s = true -> all_chars p (String.substring 0 n s) = true.
Proof.
  induction n as [|n IH]; intros [|c s]; cbn [String.substring all_chars]; try reflexivity.
  intros H. apply andb_true_iff in H as [-> H]. apply IH, H.
Qed.

Lemma substring_length : forall n s, String.length (String.substring 0 n s) <= n.
Proof.
  induction n as [|n IH]; intros [|c s]; cbn [String.substring String.length]; try lia.
  specialize (IH s). lia.
Qed.

Lemma replace_chars_drop p s :
  all_chars (fun c => negb (p c)) (replace_chars p (fun _ => "") s) = true.
Proof.
  induction s as [|c s IH]; [reflexivity|].
  cbn [replace_chars]. destruct (p c) eqn:E.
  - rewrite app_empty_l. exact IH.
  - rewrite app_cons, app_empty_l. cbn [all_chars]. rewrite E. exact IH.
Qed.

(** The language identifier and the file extension that [main] derives
    from the specification when the command line gives none.  The
    identifier is made of at most ten lower-case letters and digits, and
    the extension of at most three of them; both are empty when the
    specification is an ASCII text without a letter or a digit. *)
Theorem derived_identifiers_are_short_and_alphanumeric (spec : string) :
  let id := derived_languageId spec in
  let ext := slice_to 3 id in
  let alnum := fun c => in_range 97 122 c || in_range 48 57 c in
  String.length id <= 10 /\ all_chars alnum id = true /\
  String.length ext <= 3 /\ all_chars alnum ext = true /\
  (ascii_text spec = true ->
   all_chars (fun c => negb (alnum (lower_char c))) spec = true ->
   id = "" /\ ext = "").
Proof.
  cbv zeta. unfold derived_languageId, slice_to.
  assert (Hall : all_chars (fun c => in_range 97 122 c || in_range 48 57 c)
                   (replace_chars
                      (fun c => negb (in_range 97 122 c || in_range 48 57 c))
                      (fun _ => "") (toLowerCase spec)) = true).
  { pose proof (replace_chars_drop
                  (fun c => negb (in_range 97 122 c || in_range 48 57 c))
                  (toLowerCase spec)) as H.
    revert H. generalize (replace_chars
                            (fun c => negb (in_range 97 122 c || in_range 48 57 c))
                            (fun _ => "") (toLowerCase spec)).
    induction s as [|c s IH]; [reflexivity|]. cbn [all_chars].
    rewrite negb_involutive. intros H. apply andb_true_iff in H as [-> H].
    exact (IH H). }
  split; [apply substring_length|]. split; [apply substring_chars, Hall|].
  split; [apply substring_length|]. split; [apply substring_chars, substring_chars, Hall|].
  intros _ Hnone.
  assert (replace_chars (fun c => negb (in_range 97 122 c || in_range 48 57 c))
            (fun _ => "") (toLowerCase spec) = "") as ->.
  { clear Hall. induction spec as [|c s IH]; [reflexivity|].
    cbn [all_chars] in Hnone. apply andb_true_iff in Hnone as [Hc Hs].
    cbn [toLowerCase replace_chars]. rewrite Hc, app_empty_l. exact (IH Hs). }
  split; reflexivity.
Qed.

(* ================================================================= *)
(** ** What [extractASTSchema] lists *)

Lemma scan_elem r m : forall s prev skip,
  m ∈ scan r prev skip s ->
  exists s1 s2 st, s = s1 +:+ s2 /\
    match_here r (last_char prev s1) s2 = Some st /\ m = result_of s2 st.
Proof.
  induction s as [|a s IH]; intros prev skip H.
  - cbn [scan] in H. destruct skip; [|inversion H].
    destruct (match_here r prev "") as [st|] eqn:Hm; [|inversion H].
    apply list_elem_of_singleton in H as ->.
    exists "", "", st. auto.
  - cbn [scan] in H.
    destruct (match skip with 0 => match_here r prev (String a s) | S _ => None end)
      as [st|] eqn:Hm.
    + destruct skip; [|discriminate].
      apply elem_of_cons in H as [-> | H].
      * exists "", (String a s), st. auto.
      * destruct (IH _ _ H) as (s1 & s2 & st' & -> & Hs & ->).
        exists (String a s1), s2, st'. auto.
    + destruct (IH _ _ H) as (s1 & s2 & st' & -> & Hs & ->).
      exists (String a s1), s2, st'. auto.
Qed.

Lemma substring_prefix a b : String.substring 0 (String.length a) (a +:+ b) = a.
Proof.
  induction a as [|c a IH]; [destruct b; reflexivity|].
  rewrite app_cons. cbn [String.length String.substring]. rewrite IH. reflexivity.
Qed.

(** A match of an identifier, as the group of the three expressions has
    it: a first character and a greedy run of further ones. *)
Lemma identifier_group first more st k x :
  rmatch (RGroup (RSeq (RClass first) (RStar more))) st k = Some x ->
  exists c run rest,
    ms_rest st = String c run +:+ rest /\ first c = true /\
    all_chars more run = true /\
    k (MState (last_char (Some c) run) rest
         (S (ms_len st) + String.length run) (Some (String c run))) = Some x.
Proof.
  rewrite rmatch_group, rmatch_seq. cbn [rmatch].
  destruct (ms_rest st) as [|c rest0] eqn:E; [discriminate|].
  destruct (first c) eqn:Hc; [|discriminate].
  cbn [ms_prev ms_len ms_cap ms_rest]. intros H.
  apply star_greedy_inv in H as (run & rest & -> & Hrun & H).
  cbn [ms_prev ms_rest ms_len] in H.
  exists c, run, rest. rewrite app_cons. split; [reflexivity|]. split; [exact Hc|].
  split; [exact Hrun|].
  replace (S (ms_len st) + String.length run - ms_len st) with
    (String.length (String c run)) in H by (cbn [String.length]; lia).
  rewrite <- app_cons, substring_prefix in H. exact H.
Qed.

Lemma rmatch_bol st k :
  rmatch RBol st k = if at_line_start (ms_prev st) then k st else None.
Proof. reflexivity. Qed.

Lemma declaration_here first more prev s st :
  match_here
    (RSeq RBol (RSeq (RGroup (RSeq (RClass first) (RStar more)))
                  (RSeq (RStar is_space) (RChar ":")))) prev s = Some st ->
  at_line_start prev = true /\
  exists c run space after,
    ms_cap st = Some (String c run) /\ first c = true /\ all_chars more run = true /\
    all_chars is_space space = true /\
    s = String c run +:+ space +:+ ":" +:+ after.
Proof.
  unfold match_here. rewrite rmatch_seq, rmatch_bol. cbn [ms_prev].
  destruct (at_line_start prev); [|discriminate]. intros H. split; [reflexivity|].
  rewrite rmatch_seq in H.
  apply identifier_group in H as (c & run & rest & Hs & Hc & Hrun & H).
  cbn [ms_rest] in Hs. rewrite rmatch_seq, rmatch_star in H.
  cbn [ms_prev ms_len ms_cap ms_rest] in H.
  apply star_greedy_inv in H as (space & rest' & -> & Hsp & H).
  rewrite rmatch_char in H. cbn [ms_rest ms_cap] in H.
  destruct rest' as [|a after]; [discriminate|].
  destruct (Ascii.eqb a ":") eqn:Ea; [|discriminate].
  apply Ascii.eqb_eq in Ea as ->. injection H as <-.
  exists c, run, space, after. cbn [ms_cap]. auto.
Qed.

Lemma collected_declarations first more g x :
  x ∈ collect
        (RSeq RBol (RSeq (RGroup (RSeq (RClass first) (RStar more)))
                      (RSeq (RStar is_space) (RChar ":")))) g ->
  declared_at_line_start first more g x.
Proof.
  intros H. apply collect_spec in H as (m & Hm & Hg).
  apply scan_elem in Hm as (s1 & s2 & st & -> & Hhere & ->).
  apply declaration_here in Hhere
    as (Hline & c & run & space & after & Hcap & Hc & Hrun & Hsp & ->).
  cbn [m_group result_of] in Hg. rewrite Hcap in Hg. injection Hg as <-.
  exists s1, space, after, c, run. auto 10.
Qed.

Lemma rmatch_lit s st k :
  rmatch (RLit s) st k =
  match lit_match s st with Some st' => k st' | None => None end.
Proof. reflexivity. Qed.

Lemma arrow_here prev s st :
  match_here aliasRe prev s = Some st ->
  exists c run space after,
    ms_cap st = Some (String c run) /\ lc_start c = true /\
    all_chars lc_rest run = true /\ all_chars is_space space = true /\
    s = "->" +:+ space +:+ String c run +:+ after.
Proof.
  unfold match_here, aliasRe. rewrite rmatch_seq, rmatch_lit.
  destruct (lit_match "->" _) as [st1|] eqn:E1; [|discriminate].
  pose proof (lit_match_rest _ _ _ E1) as Hrest. cbn [ms_rest] in Hrest.
  rewrite rmatch_seq, rmatch_star. intros H.
  apply star_greedy_inv in H as (space & rest' & Hs & Hsp & H).
  apply identifier_group in H as (c & run & rest & Hs' & Hc & Hrun & H).
  cbn [ms_rest] in Hs'. injection H as <-.
  exists c, run, space, rest. cbn [ms_cap]. rewrite Hrest, Hs, Hs'. auto 10.
Qed.

Lemma chars_of_both_cases c :
  lc_rest c = true -> uc_rest c = true -> in_range 48 57 c || is_char "_" c = true.
Proof.
  unfold lc_rest, uc_rest, in_range, is_char, code.
  destruct c as [[] [] [] [] [] [] [] []]; vm_compute; congruence.
Qed.

(** What [extractASTSchema] lists, for an ASCII grammar text (on which
    the classes of the expressions are exact).  Every listed rule is
    written in the
    grammar text at the start of a line, as a lower-case identifier
    followed by optional white space and a colon; every listed token
    likewise, as an upper-case identifier; every listed alias is a
    lower-case identifier written after an arrow and optional white
    space.  So a rule that is indented or carries a modifier before its
    name is not listed.  A name listed both as a rule and as a token is
    made of underscores and digits only.  A text without a colon has no
    rules and no tokens, and for a text without an arrow the node types
    are the rules. *)
Theorem schema_lists_declared_names (grammarText : string) :
  ascii_text grammarText = true ->
  let schema := extractASTSchema grammarText in
  (forall x, x ∈ rules schema -> declared_at_line_start lc_start lc_rest grammarText x) /\
  (forall x, x ∈ tokens schema -> declared_at_line_start uc_start uc_rest grammarText x) /\
  (forall x, x ∈ aliases schema -> written_after_arrow grammarText x) /\
  (forall x, x ∈ rules schema -> x ∈ tokens schema ->
             all_chars (fun c => in_range 48 57 c || is_char "_" c) x = true) /\
  (has_char ":" grammarText = false -> rules schema = [] /\ tokens schema = []) /\
  (includes grammarText "->" = false ->
   aliases schema = [] /\ nodeTypes schema = rules schema).
Proof.
  intros _. cbv zeta. unfold extractASTSchema. cbn [rules tokens aliases nodeTypes].
  assert (Hr : forall x, x ∈ collect ruleRe grammarText ->
                         declared_at_line_start lc_start lc_rest grammarText x)
    by (intros x; apply collected_declarations).
  assert (Ht : forall x, x ∈ collect tokenRe grammarText ->
                         declared_at_line_start uc_start uc_rest grammarText x)
    by (intros x; apply collected_declarations).
  assert (Ha : forall x, x ∈ collect aliasRe grammarText ->
                         written_after_arrow grammarText x).
  { intros x H. apply collect_spec in H as (m & Hm & Hg).
    apply scan_elem in Hm as (s1 & s2 & st & -> & Hhere & ->).
    apply arrow_here in Hhere
      as (c & run & space & after & Hcap & Hc & Hrun & Hsp & ->).
    cbn [m_group result_of] in Hg. rewrite Hcap in Hg. injection Hg as <-.
    exists s1, space, after, c, run. auto 10. }
  split; [exact Hr|]. split; [exact Ht|]. split; [exact Ha|]. split; [|split].
  - intros x Hx1 Hx2.
    destruct (Hr x Hx1) as (_ & _ & _ & c & run & -> & Hc & Hrun & _).
    destruct (Ht _ Hx2) as (_ & _ & _ & c' & run' & [= <- <-] & Hc' & Hrun' & _).
    cbn [all_chars]. apply andb_true_iff. split.
    + apply chars_of_both_cases.
      * unfold lc_rest. unfold lc_start in Hc.
        apply orb_true_iff in Hc as [Hc|Hc]; rewrite Hc;
          [reflexivity|apply orb_true_r].
      * unfold uc_rest. unfold uc_start in Hc'.
        apply orb_true_iff in Hc' as [Hc'|Hc']; rewrite Hc';
          [reflexivity|apply orb_true_r].
    + clear -Hrun Hrun'. induction run as [|a run IH]; [reflexivity|].
      cbn [all_chars] in *. apply andb_true_iff in Hrun as [Ha Hrun].
      apply andb_true_iff in Hrun' as [Ha' Hrun'].
      rewrite (chars_of_both_cases a Ha Ha'). exact (IH Hrun Hrun').
  - intros Hcolon.
    assert (Hnone : forall first more x,
              ~ declared_at_line_start first more grammarText x).
    { intros first more x (before & space & after & c & run & _ & _ & _ & _ & E & _).
      rewrite E in Hcolon. rewrite !has_char_app in Hcolon. cbn [has_char] in Hcolon.
      rewrite Ascii.eqb_refl in Hcolon. cbn in Hcolon.
      rewrite !orb_true_r in Hcolon. discriminate. }
    split.
    + destruct (collect ruleRe grammarText) as [|x l] eqn:E; [reflexivity|].
      exfalso. apply (Hnone lc_start lc_rest x), Hr. left.
    + destruct (collect tokenRe grammarText) as [|x l] eqn:E; [reflexivity|].
      exfalso. apply (Hnone uc_start uc_rest x), Ht. left.
  - intros Harrow.
    assert (collect aliasRe grammarText = []) as ->.
    { destruct (collect aliasRe grammarText) as [|x l] eqn:E; [reflexivity|].
      exfalso. destruct (Ha x ltac:(left)) as (before & space & after & c & run & _ & _ & _ & _ & E').
      rewrite E' in Harrow.
      rewrite (includes_app_l before _ "->" (includes_here _ _ (prefix_app _ _))) in Harrow.
      discriminate. }
    split; reflexivity.
Qed.

Lemma schema_lists_declared_names_witness :
  ascii_text schema_grammar = true /\
  declared_at_line_start lc_start lc_rest schema_grammar "sum" /\
  written_after_arrow schema_grammar "neg".
Proof.
  assert (H : ascii_text schema_grammar = true) by (vm_compute; reflexivity).
  destruct (schema_lists_declared_names schema_grammar H) as (Hr & _ & Ha & _).
  split; [exact H|]. split.
  - apply Hr. apply list_elem_of_In. vm_compute. auto.
  - apply Ha. apply list_elem_of_In. vm_compute. auto.
Defined.

(* ================================================================= *)
(** ** The command line *)

(** One step of the loop of [parseArgs], by the argument that follows
    (a flag that takes a value is recognised only when there is one). *)
Lemma parse_from_cons arg rest result :
  parse_from (arg :: rest) result =
  match rest with
  | value :: rest' =>
      if String.eqb arg "--spec" then parse_from rest' (set_spec value result)
      else if String.eqb arg "--semantics" then
        parse_from rest' (set_semantics value result)
      else if String.eqb arg "--sample" then parse_from rest' (set_sample value result)
      else if String.eqb arg "--output" then parse_from rest' (set_output value result)
      else if String.eqb arg "--vscode" then parse_from rest (set_vscode true result)
      else if String.eqb arg "--lang-id" then
        parse_from rest' (set_languageId value result)
      else if String.eqb arg "--lang-name" then
        parse_from rest' (set_languageName value result)
      else if String.eqb arg "--file-ext" then
        parse_from rest' (set_fileExtension value result)
      else if String.eqb arg "--help" || String.eqb arg "-h" then process_exit 0
      else parse_from rest result
  | [] =>
      if String.eqb arg "--vscode" then ret (set_vscode true result)
      else if String.eqb arg "--help" || String.eqb arg "-h" then process_exit 0
      else ret result
  end.
Proof.
  cbn [parse_from].
  destruct rest as [|value rest'];
    destruct (String.eqb arg "--spec"), (String.eqb arg "--semantics"),
      (String.eqb arg "--sample"), (String.eqb arg "--output"),
      (String.eqb arg "--vscode"), (String.eqb arg "--lang-id"),
      (String.eqb arg "--lang-name"), (String.eqb arg "--file-ext");
    reflexivity.
Qed.

(** [parse_from] on every list, by induction on the length: it leaves the
    world alone; it returns unless a help flag occurs among the arguments;
    and a property of the result that every setter of a flag occurring
    among the arguments may break, and no other, is kept. *)
Lemma parse_from_spec (P : Args -> Prop) (flags : list string) :
  (forall v r, "--spec" ∉ flags -> P r -> P (set_spec v r)) ->
  (forall v r, "--semantics" ∉ flags -> P r -> P (set_semantics v r)) ->
  (forall v r, "--sample" ∉ flags -> P r -> P (set_sample v r)) ->
  (forall v r, "--output" ∉ flags -> P r -> P (set_output v r)) ->
  (forall r, "--vscode" ∉ flags -> P r -> P (set_vscode true r)) ->
  (forall v r, "--lang-id" ∉ flags -> P r -> P (set_languageId v r)) ->
  (forall v r, "--lang-name" ∉ flags -> P r -> P (set_languageName v r)) ->
  (forall v r, "--file-ext" ∉ flags -> P r -> P (set_fileExtension v r)) ->
  forall n args result w,
  List.length args <= n ->
  (forall a, a ∈ args -> a ∉ flags) ->
  P result ->
  (exists r, parse_from args result w = (Returned r, w) /\ P r) \/
  (parse_from args result w = (Exited 0, w) /\ ("--help" ∈ args \/ "-h" ∈ args)).
Proof.
  intros Hspec Hsem Hsam Hout Hvs Hid Hname Hext.
  induction n as [|n IH]; intros args result w Hlen Hflags HP.
  { destruct args; [|cbn in Hlen; lia]. left. exists result. auto. }
  destruct args as [|arg rest]; [left; exists result; auto|].
  cbn [List.length] in Hlen.
  assert (Harg : arg ∉ flags) by (apply Hflags; left).
  assert (Hrest : forall a, a ∈ rest -> a ∉ flags) by (intros a Ha; apply Hflags; right; exact Ha).
  assert (Hstep : forall result', P result' ->
            (exists r, parse_from rest result' w = (Returned r, w) /\ P r) \/
            (parse_from rest result' w = (Exited 0, w) /\
             ("--help" ∈ arg :: rest \/ "-h" ∈ arg :: rest))).
  { intros result' HP'. destruct (IH rest result' w ltac:(lia) Hrest HP')
      as [H | [H [Hh|Hh]]]; [left; exact H|right..];
      (split; [exact H|]); [left|right]; right; exact Hh. }
  assert (Hstep2 : forall value rest' result', rest = value :: rest' -> P result' ->
            (exists r, parse_from rest' result' w = (Returned r, w) /\ P r) \/
            (parse_from rest' result' w = (Exited 0, w) /\
             ("--help" ∈ arg :: rest \/ "-h" ∈ arg :: rest))).
  { intros value rest' result' -> HP'.
    destruct (IH rest' result' w) as [H | [H [Hh|Hh]]];
      [cbn [List.length] in Hlen; lia
      |intros a Ha; apply Hrest; right; exact Ha|exact HP'|left; exact H|right..];
      (split; [exact H|]); [left|right]; right; right; exact Hh. }
  rewrite parse_from_cons.
  destruct rest as [|value rest'].
  - destruct (String.eqb arg "--vscode") eqn:E1.
    + apply String.eqb_eq in E1 as ->. left. eexists. split; [reflexivity|]. auto.
    + destruct (String.eqb arg "--help") eqn:E2.
      * apply String.eqb_eq in E2 as ->. right. split; [reflexivity|]. left. left.
      * destruct (String.eqb arg "-h") eqn:E3.
        -- apply String.eqb_eq in E3 as ->. right. split; [reflexivity|]. right. left.
        -- left. eexists. split; [reflexivity|]. exact HP.
  - repeat match goal with
           | |- context [if String.eqb arg ?f then _ else _] =>
               let E := fresh "E" in
               destruct (String.eqb arg f) eqn:E;
               [apply String.eqb_eq in E as ->;
                first [ apply (Hstep2 value rest' _ eq_refl); auto
                      | apply Hstep; auto ] |]
           end.
    destruct (String.eqb arg "--help") eqn:Ehelp.
    + apply String.eqb_eq in Ehelp as ->. right. split; [reflexivity|]. left. left.
    + destruct (String.eqb arg "-h") eqn:Eh.
      * apply String.eqb_eq in Eh as ->. right. split; [reflexivity|]. right. left.
      * apply Hstep, HP.
Qed.

(** [parseArgs] ends the process only for help.  It never throws and
    leaves the world as it is.  When neither [--help] nor [-h] occurs
    among the arguments it returns; when it does not return, it has
    ended the process with status 0 and one of the two occurs. *)
Theorem parseArgs_exits_only_for_help (p : Process) (w : World) :
  ((exists result, parseArgs p w = (Returned result, w)) \/
   parseArgs p w = (Exited 0, w) /\
   ("--help" ∈ skipn 2 (argv p) \/ "-h" ∈ skipn 2 (argv p))) /\
  ("--help" ∉ skipn 2 (argv p) -> "-h" ∉ skipn 2 (argv p) ->
   exists result, parseArgs p w = (Returned result, w)).
Proof.
  unfold parseArgs.
  assert (H := parse_from_spec (fun _ => True) [] ltac:(auto) ltac:(auto) ltac:(auto)
                 ltac:(auto) ltac:(auto) ltac:(auto) ltac:(auto) ltac:(auto)
                 _ (skipn 2 (argv p)) initial_args w (le_n _)
                 ltac:(intros a _; apply not_elem_of_nil) I).
  split.
  - destruct H as [(r & H & _) | H]; [left; eauto|right; exact H].
  - intros H1 H2. destruct H as [(r & H & _) | [_ [H|H]]]; [eauto|contradiction..].
Qed.

Lemma parseArgs_exits_only_for_help_witness :
  exists result,
    parseArgs (MkProcess ["node"; "index.js"; "--spec"; "--help"] true [] (fun _ => true))
      empty_world = (Returned result, empty_world).
Proof.
  destruct (parseArgs_exits_only_for_help
              (MkProcess ["node"; "index.js"; "--spec"; "--help"] true []
                 (fun _ => true)) empty_world) as [[H | [H _]] _].
  - exact H.
  - vm_compute in H. discriminate H.
Defined.

(** A flag that does not occur leaves its property alone.  In the result
    of [parseArgs], each property whose flag does not occur among the
    arguments has its initial value: the empty text for the specification,
    the semantics, the sample and the three language properties,
    [./output] for the output directory, and [false] for [vscode]. *)
Theorem parseArgs_keeps_defaults (p : Process) (w w' : World) (result : Args) :
  parseArgs p w = (Returned result, w') ->
  let args := skipn 2 (argv p) in
  ("--spec" ∉ args -> args_spec result = "") /\
  ("--semantics" ∉ args -> args_semantics result = "") /\
  ("--sample" ∉ args -> args_sample result = "") /\
  ("--output" ∉ args -> args_output result = "./output") /\
  ("--vscode" ∉ args -> args_vscode result = false) /\
  ("--lang-id" ∉ args -> args_languageId result = "") /\
  ("--lang-name" ∉ args -> args_languageName result = "") /\
  ("--file-ext" ∉ args -> args_fileExtension result = "").
Proof.
  unfold parseArgs. intros Hparse. cbv zeta.
  assert (Hone : forall (flag : string) (P : Args -> Prop),
            P initial_args ->
            (forall v r, "--spec" ∉ [flag] -> P r -> P (set_spec v r)) ->
            (forall v r, "--semantics" ∉ [flag] -> P r -> P (set_semantics v r)) ->
            (forall v r, "--sample" ∉ [flag] -> P r -> P (set_sample v r)) ->
            (forall v r, "--output" ∉ [flag] -> P r -> P (set_output v r)) ->
            (forall r, "--vscode" ∉ [flag] -> P r -> P (set_vscode true r)) ->
            (forall v r, "--lang-id" ∉ [flag] -> P r -> P (set_languageId v r)) ->
            (forall v r, "--lang-name" ∉ [flag] -> P r -> P (set_languageName v r)) ->
            (forall v r, "--file-ext" ∉ [flag] -> P r -> P (set_fileExtension v r)) ->
            flag ∉ skipn 2 (argv p) -> P result).
  { intros flag P H0 H1 H2 H3 H4 H5 H6 H7 H8 Hflag.
    destruct (parse_from_spec P [flag] H1 H2 H3 H4 H5 H6 H7 H8 _ (skipn 2 (argv p))
                initial_args w (le_n _)) as [(r & Hr & HP) | [Hr _]].
    - intros a Ha Hin. apply list_elem_of_singleton in Hin as ->. contradiction.
    - exact H0.
    - rewrite Hparse in Hr. injection Hr as <- _. exact HP.
    - rewrite Hparse in Hr. discriminate. }
  repeat split; intros Hflag;
    match goal with
    | |- ?f result = ?v =>
        eapply (Hone _ (fun r => f r = v)); [reflexivity|..|exact Hflag];
          intros; cbn; first [assumption | exfalso; match goal with
                                H : _ ∉ [_] |- _ => apply H, list_elem_of_singleton;
                                                     reflexivity end]
    end.
Qed.

Lemma parseArgs_keeps_defaults_witness :
  args_semantics (MkArgs "calc" "" "--output" "./output" true "" "" "") = "".
Proof.
  refine (proj1 (proj2
            (parseArgs_keeps_defaults
               (MkProcess ["node"; "index.js"; "--spec"; "calc"; "--vscode";
                           "--sample"; "--output"] true [] (fun _ => true))
               empty_world empty_world
               (MkArgs "calc" "" "--output" "./output" true "" "" "") _)) _).
  - vm_compute; reflexivity.
  - vm_compute. intros H.
    repeat (apply elem_of_cons in H as [H|H]; [discriminate H|]).
    apply elem_of_nil in H. exact H.
Defined.

(* ================================================================= *)
(** ** [main] *)

Lemma grammar_loop_kind env spec maxRetries remaining :
  forall attempts prev w,
  let r := grammar_loop env spec maxRetries remaining attempts prev w in
  GLOBAL_SAMPLE (snd r) = GLOBAL_SAMPLE w /\
  ((exists g, fst r = Returned g) \/ exists e, fst r = Thrown e).
Proof.
  induction remaining as [|remaining IH]; intros attempts prev w; cbv zeta.
  - cbn. eauto.
  - cbn [grammar_loop]. unfold try_catch. rewrite grammar_attempt_eq. cbv zeta.
    destruct (attempt_outcome env spec (GLOBAL_SAMPLE w) (List.length (requests w)) prev)
      as [msg|g].
    + destruct (maxRetries <=? S attempts)%nat; [cbn; eauto|].
      destruct (IH (S attempts) (prev ++ [message (Error msg)])
                  (requested (grammar_request env spec (GLOBAL_SAMPLE w) prev) w))
        as [Hs Hk].
      split; [rewrite Hs; reflexivity|exact Hk].
    + cbn [fst snd]. rewrite saved_sample. eauto.
Qed.

Lemma generateGrammar_kind env spec maxRetries w :
  let r := generateGrammar env spec maxRetries w in
  GLOBAL_SAMPLE (snd r) = GLOBAL_SAMPLE w /\
  ((exists g, fst r = Returned g) \/ exists e, fst r = Thrown e).
Proof.
  cbv zeta. unfold generateGrammar, bind.
  pose proof (getCached_world env "grammar" (grammar_cache_input spec) w) as Hw.
  destruct (getCached_returns env "grammar" (grammar_cache_input spec) w) as [o Ho].
  destruct (getCached env "grammar" (grammar_cache_input spec) w) as [o' w'].
  cbn [fst snd] in Hw, Ho. subst o' w'.
  destruct o as [entry|]; [cbn; eauto|]. apply grammar_loop_kind.
Qed.

Lemma run_lark_js_sample env cmd paths g w :
  GLOBAL_SAMPLE (snd (run_lark_js env cmd paths g w)) = GLOBAL_SAMPLE w.
Proof.
  unfold run_lark_js.
  destruct (lark_js env (List.length (spawns w)) cmd _ (files w))
    as [code msg | status err parser]; [reflexivity|].
  destruct (status =? 0)%nat; [|destruct parser; reflexivity].
  unfold bind, fix_parser, try_catch, bind, fs_readFile, fs_writeFile, modify, throw, ret.
  destruct parser; cbn [files set_files set_spawns];
    repeat (match goal with
            | |- context [match ?x with _ => _ end] =>
                lazymatch x with
                | context [match _ with _ => _ end] => fail
                | _ => destruct x
                end
            end; cbv beta iota); reflexivity.
Qed.

Lemma compile_loop_kind env cmd paths g maxRetries :
  forall remaining lastError w,
  let r := compile_loop env cmd paths g maxRetries remaining lastError w in
  GLOBAL_SAMPLE (snd r) = GLOBAL_SAMPLE w /\
  ((exists x, fst r = Returned x) \/ exists e, fst r = Thrown e).
Proof.
  induction remaining as [|remaining IH]; intros lastError w; cbv zeta.
  - cbn [compile_loop]. destruct lastError; cbn; eauto.
  - cbn [compile_loop]. unfold try_catch.
    pose proof (run_lark_js_sample env cmd paths g w) as Hs.
    destruct (run_lark_js_spec env cmd paths g w) as (_ & _ & Ho).
    destruct (run_lark_js env cmd paths g w) as [o w1]. cbn [fst snd] in Hs, Ho.
    destruct Ho as [-> | (e & -> & _)]; [cbn; eauto|].
    destruct (IH (Some e) w1) as [Hs' Hk]. split; [congruence|exact Hk].
Qed.

Lemma compileGrammar_kind env g dir n w :
  let r := compileGrammar env g dir n w in
  GLOBAL_SAMPLE (snd r) = GLOBAL_SAMPLE w /\
  ((exists x, fst r = Returned x) \/ exists e, fst r = Thrown e).
Proof.
  cbv zeta.
  destruct (can_mkdir env dir) eqn:Hm.
  - destruct (can_write env (path_join dir "grammar.lark")) eqn:Hw.
    + destruct (compileGrammar_eq env g dir n w Hm Hw) as (cmd & _ & ->).
      match goal with |- context [compile_loop env cmd ?ps g n n None ?w1] =>
        destruct (compile_loop_kind env cmd ps g n n None w1) as [Hs Hk] end.
      split; [rewrite Hs; reflexivity|exact Hk].
    + unfold compileGrammar, bind, fs_mkdir, fs_writeFile, ret.
      cbn [grammarFile]. rewrite Hm, Hw. cbn. eauto.
  - unfold compileGrammar, bind, fs_mkdir. rewrite Hm. cbn. eauto.
Qed.

Lemma generateExampleProgram_kind env spec g sem w :
  let r := generateExampleProgram env spec g sem w in
  GLOBAL_SAMPLE (snd r) = GLOBAL_SAMPLE w /\ exists out, fst r = Returned out.
Proof.
  cbv zeta. rewrite generateExampleProgram_value. cbv zeta.
  destruct (fst (getCached env "example" _ w)) as [[entry|]|e|s|];
    try (cbn; eauto; fail);
    destruct (service_stream env _ _) as [msg|events]; try (cbn; eauto; fail);
    destruct (accumulate _ events "") as [msg|text]; cbn [fst snd];
    rewrite ?saved_sample; cbn; eauto.
Qed.

Lemma parse_from_outcome args result w :
  (exists r, parse_from args result w = (Returned r, w)) \/
  parse_from args result w = (Exited 0, w).
Proof.
  destruct (parse_from_spec (fun _ => True) [] ltac:(auto) ltac:(auto) ltac:(auto)
              ltac:(auto) ltac:(auto) ltac:(auto) ltac:(auto) ltac:(auto)
              _ args result w (le_n _) ltac:(intros a _; apply not_elem_of_nil) I)
    as [(r & H & _) | [H _]]; eauto.
Qed.

(** How [main] ends before the pipeline starts, and how it never ends.
    The command line is read first: a help flag ends the process with
    status 0 whether or not the API key is set, and the world is as it
    was.  Otherwise, without a (non-empty) [OPENAI_API_KEY] the process
    ends with status 1 and only the global sample has been set: nothing
    is sent, written or started.  And whatever the collaborators and
    [generateVSCodeExtension] do, [main] never throws. *)
Theorem main_ends_early_and_never_throws
    (generateVSCodeExtension : ExtensionOptions -> M ExtensionResult)
    (env : Env) (p : Process) (w : World) :
  (parseArgs p w = (Exited 0, w) ->
   main generateVSCodeExtension env p w = (Exited 0, w)) /\
  (forall args,
     parseArgs p w = (Returned args, w) ->
     environ env !! "OPENAI_API_KEY" = None \/
     environ env !! "OPENAI_API_KEY" = Some "" ->
     main generateVSCodeExtension env p w
     = (Exited 1, set_GLOBAL_SAMPLE (args_sample args) w)) /\
  (forall e, fst (main generateVSCodeExtension env p w) <> Thrown e).
Proof.
  split; [|split].
  - intros H. unfold main, bind at 1. rewrite H. reflexivity.
  - intros args H Hkey. unfold main, bind at 1. rewrite H.
    unfold bind at 1, modify.
    assert (or_else (args_sample args) "" = args_sample args) as ->
      by (destruct (args_sample args); reflexivity).
    destruct Hkey as [-> | ->]; reflexivity.
  - intros e. unfold main, bind at 1.
    destruct (parse_from_outcome (skipn 2 (argv p)) initial_args w) as [[args H] | H];
      unfold parseArgs; rewrite H; [|discriminate].
    unfold bind at 1, modify.
    destruct (negb (truthy (default "" (environ env !! "OPENAI_API_KEY"))));
      [discriminate|].
    unfold try_catch.
    match goal with |- context [let (o, w') := ?m in _] => destruct m as [[a|e'|s|] w1] end;
      discriminate.
Qed.

Lemma main_ends_early_and_never_throws_witness :
  main no_extension base_env (calc_process []) empty_world
  = (Exited 1, set_GLOBAL_SAMPLE "" empty_world).
Proof.
  refine (proj1 (proj2 (main_ends_early_and_never_throws no_extension base_env
                          (calc_process []) empty_world))
            (MkArgs "calc" "" "" "/out" false "" "" "") _ _).
  - vm_compute; reflexivity.
  - left. vm_compute; reflexivity.
Defined.

Lemma generateInterpreter_with_sample env g schema sem w :
  READ_FROM_CACHE env = false ->
  GLOBAL_SAMPLE w <> "" ->
  generateInterpreter env g schema sem w
  = (Thrown (Error "Assignment to constant variable."), w).
Proof.
  intros Hr Hs. apply truthy_nonempty in Hs.
  unfold generateInterpreter, bind at 1, getCached. rewrite Hr. cbn [negb].
  unfold ret at 1. unfold bind at 1, append_sample_to_const, bind, get_world.
  rewrite Hs. reflexivity.
Qed.

(** With a sample on the command line and the cache left as it is by
    default, [main] always fails.  Cache reads are off unless
    [LANG_GEN_READ_CACHE] is [true]; then, whatever the service and the
    compiler answer, a run of [main] with a non-empty [--sample] and the
    API key set ends the process with status 1: when the grammar and the
    parser are obtained, [generateInterpreter] throws on its constant
    instructions.  ([generateVSCodeExtension] is only assumed to return or
    throw and to leave the global sample alone.) *)
Theorem main_with_sample_exits
    (generateVSCodeExtension : ExtensionOptions -> M ExtensionResult)
    (env : Env) (p : Process) (w : World) (args : Args) (key : string) :
  parseArgs p w = (Returned args, w) ->
  args_sample args <> "" ->
  environ env !! "OPENAI_API_KEY" = Some key -> key <> "" ->
  READ_FROM_CACHE env = false ->
  (forall options w0,
     GLOBAL_SAMPLE (snd (generateVSCodeExtension options w0)) = GLOBAL_SAMPLE w0 /\
     ((exists r, fst (generateVSCodeExtension options w0) = Returned r) \/
      exists e, fst (generateVSCodeExtension options w0) = Thrown e)) ->
  fst (main generateVSCodeExtension env p w) = Exited 1.
Proof.
  intros Hparse Hsample Hkey Hne Hread Hgen.
  unfold main, bind at 1. rewrite Hparse. unfold bind at 1, modify.
  rewrite Hkey. change (default "" (Some key)) with key.
  rewrite (truthy_nonempty _ Hne). cbn [negb].
  assert (or_else (args_sample args) "" = args_sample args) as ->
    by (destruct (args_sample args); reflexivity).
  set (w0 := set_GLOBAL_SAMPLE (args_sample args) w).
  assert (Hs0 : GLOBAL_SAMPLE w0 = args_sample args) by reflexivity.
  set (spec := or_else (args_spec args) _).
  set (semantics := or_else (args_semantics args) _).
  unfold try_catch.
  match goal with |- fst (let (o, w') := ?body w0 in _) = _ =>
    assert (Hbody : exists e, fst (body w0) = Thrown e);
      [|destruct Hbody as [e He]; destruct (body w0) as [o w'];
        cbn [fst] in He; subst o; reflexivity]
  end.
  unfold bind at 1.
  destruct (generateGrammar_kind env spec 3 w0) as [Hs1 Hk1].
  destruct (generateGrammar env spec 3 w0) as [o1 w1]. cbn [fst snd] in Hs1, Hk1.
  destruct Hk1 as [[g ->] | [e ->]]; [|eauto].
  unfold bind at 1.
  destruct (compileGrammar_kind env g (args_output args) 3 w1) as [Hs2 Hk2].
  destruct (compileGrammar env g (args_output args) 3 w1) as [o2 w2].
  cbn [fst snd] in Hs2, Hk2.
  destruct Hk2 as [[paths ->] | [e ->]]; [|eauto].
  assert (Hint : forall w3, GLOBAL_SAMPLE w3 = GLOBAL_SAMPLE w2 ->
            generateInterpreter env g (extractASTSchema g) semantics w3
            = (Thrown (Error "Assignment to constant variable."), w3)).
  { intros w3 Hw3. apply generateInterpreter_with_sample; [exact Hread|]. congruence. }
  unfold bind at 1.
  destruct (args_vscode args).
  - unfold bind at 1, main_vscode, bind at 1, Date_now. unfold bind at 1.
    match goal with |- context [generateExampleProgram env spec g semantics ?w3] =>
      destruct (generateExampleProgram_kind env spec g semantics w3) as [Hs3 [out Hk3]];
      destruct (generateExampleProgram env spec g semantics w3) as [o3 w3'] end.
    cbn [fst snd] in Hs3, Hk3. subst o3.
    match goal with |- context [generateVSCodeExtension ?o w3'] =>
      destruct (Hgen o w3') as [Hs4 Hk4];
      destruct (generateVSCodeExtension o w3') as [o4 w4] end.
    cbn [fst snd] in Hs4, Hk4.
    destruct Hk4 as [[r ->] | [e ->]]; [|eauto].
    unfold ret at 1. unfold bind at 1. rewrite Hint; [eauto|].
    rewrite Hs4, Hs3. reflexivity.
  - unfold ret at 1. unfold bind at 1. rewrite Hint; eauto.
Qed.

Lemma main_with_sample_exits_witness :
  fst (main no_extension env_pipeline calc_process_with_sample empty_world) = Exited 1.
Proof.
  refine (main_with_sample_exits no_extension env_pipeline calc_process_with_sample
            empty_world (MkArgs "calc" "" "1+2" "/out" false "" "" "") "sk-test"
            _ _ _ _ _ _).
  - vm_compute; reflexivity.
  - discriminate.
  - vm_compute; reflexivity.
  - discriminate.
  - vm_compute; reflexivity.
  - intros options w0. split; [reflexivity|]. right. eexists. reflexivity.
Defined.

(** A failed test does not fail the run.  The output directory being an
    absolute name in normal form: when the grammar, the parser and the
    interpreter are obtained and [testGeneratedCode] resolves to a
    failure (the operator chose to continue, or the automatic repair gave
    up), [main] goes on: it writes the command-line runner next to the
    other files and returns, so that the process ends normally even
    though the generated interpreter failed its test. *)
Theorem main_completes_after_a_failed_test
    (generateVSCodeExtension : ExtensionOptions -> M ExtensionResult)
    (env : Env) (p : Process) (w w1 w2 w3 w4 : World) (args : Args) (key : string)
    (grammarText code : string) (paths : CompileResult)
    (error : string) (continued : bool) (rest : list string) :
  let spec := or_else (args_spec args)
                "A tiny calculator (integers, + - * /, parentheses, unary minus)" in
  let semantics := or_else (args_semantics args)
                     (or_else (readStdin p) "Evaluate expressions to a number") in
  let outputDir := args_output args in
  let schema := extractASTSchema grammarText in
  let interpreterFile := path_join outputDir "interpreter.mjs" in
  let runnerFile := path_join outputDir "run.mjs" in
  parseArgs p w = (Returned args, w) ->
  String.prefix "/" outputDir = true -> normal_dir outputDir = true ->
  environ env !! "OPENAI_API_KEY" = Some key -> key <> "" ->
  args_vscode args = false ->
  generateGrammar env spec 3 (set_GLOBAL_SAMPLE (args_sample args) w)
    = (Returned grammarText, w1) ->
  compileGrammar env grammarText outputDir 3 w1 = (Returned paths, w2) ->
  generateInterpreter env grammarText schema semantics w2 = (Returned code, w3) ->
  can_write env interpreterFile = true ->
  testGeneratedCode env (console_lines p) (parserFile paths) interpreterFile
    (or_else (args_sample args) "1+2*3;") spec grammarText schema semantics 3
    (set_files (<[interpreterFile := Text code]> (files w3)) w3)
    = (Returned (Failure error continued, rest), w4) ->
  can_write env runnerFile = true ->
  can_chmod p runnerFile = true ->
  main generateVSCodeExtension env p w
  = (Returned tt,
     set_files (<[runnerFile := Text (runnerCode spec (args_fileExtension args))]>
                  (files w4)) w4).
Proof.
  cbv zeta. intros Hparse _ _ Hkey Hne Hvs Hg Hc Hi Hwi Ht Hwr Hch.
  unfold main, bind at 1. rewrite Hparse. unfold bind at 1, modify.
  rewrite Hkey. change (default "" (Some key)) with key.
  rewrite (truthy_nonempty _ Hne). cbn [negb].
  assert (or_else (args_sample args) "" = args_sample args) as ->
    by (destruct (args_sample args); reflexivity).
  unfold try_catch. unfold bind at 1. rewrite Hg.
  unfold bind at 1. rewrite Hc. rewrite Hvs.
  unfold bind at 1. unfold ret at 1.
  unfold bind at 1. rewrite Hi.
  unfold bind at 1, fs_writeFile at 1. rewrite Hwi. unfold modify at 1.
  unfold bind at 1. rewrite Ht. cbn [fst].
  unfold bind at 1.
  assert (exists b, read_success (Failure error continued) w4 = (Returned b, w4))
    as [b ->] by (eexists; reflexivity).
  unfold bind at 1, fs_writeFile. rewrite Hwr. unfold modify.
  unfold fs_chmod. cbn [files set_files]. rewrite lookup_insert_eq, Hch. reflexivity.
Qed.

Lemma main_completes_after_a_failed_test_witness :
  fst (main no_extension env_pipeline (calc_process ["2"]) empty_world) = Returned tt /\
  List.length (requests (snd (main no_extension env_pipeline (calc_process ["2"])
                                empty_world))) = 5.
Proof.
  split; [|vm_compute; reflexivity].
  pose (g := "start: sum" +:+ nl +:+ "sum: NUMBER (ADD_OP NUMBER)*" +:+ nl
             +:+ "NUMBER: /[0-9]+/" +:+ nl +:+ "ADD_OP: " +:+ dq +:+ "+" +:+ dq).
  pose (sem := "Evaluate expressions to a number").
  pose (w1 := snd (generateGrammar env_pipeline "calc" 3 empty_world)).
  pose (w2 := snd (compileGrammar env_pipeline g "/out" 3 w1)).
  pose (w3 := snd (generateInterpreter env_pipeline g (extractASTSchema g) sem w2)).
  pose (w4 := snd (testGeneratedCode env_pipeline ["2"] "/out/parser.cjs"
                     "/out/interpreter.mjs" "1+2*3;" "calc" g (extractASTSchema g)
                     sem 3
                     (snd (fs_writeFile env_pipeline "/out/interpreter.mjs"
                             (Text repaired_interpreter) w3)))).
  pose proof (main_completes_after_a_failed_test no_extension env_pipeline
                (calc_process ["2"]) empty_world w1 w2 w3 w4
                (MkArgs "calc" "" "" "/out" false "" "" "") "sk-test" g
                repaired_interpreter
                (MkCompileResult "/out/grammar.lark" "/out/parser.cjs")
                "get_parser is not defined" false []) as H.
  cbv zeta in H.
  rewrite H; clear H; [reflexivity|..];
    first [ discriminate | vm_compute; reflexivity ].
Defined.

(* ================================================================= *)
(** ** [generateTextMateGrammar] *)

Lemma get_set_field key v fields : get_field key (set_field key v fields) = Some v.
Proof.
  induction fields as [|[k old] rest IH]; cbn [set_field get_field].
  - rewrite String.eqb_refl. reflexivity.
  - destruct (String.eqb k key) eqn:E; cbn [get_field]; rewrite E; [reflexivity|exact IH].
Qed.

Lemma get_set_field_other key key' v fields :
  key' <> key -> get_field key' (set_field key v fields) = get_field key' fields.
Proof.
  intros Hne. induction fields as [|[k old] rest IH]; cbn [set_field get_field].
  - destruct (String.eqb key key') eqn:E; [|reflexivity].
    apply String.eqb_eq in E. congruence.
  - destruct (String.eqb k key) eqn:E; cbn [get_field].
    + apply String.eqb_eq in E as ->.
      destruct (String.eqb key key') eqn:E'; [|reflexivity].
      apply String.eqb_eq in E'. congruence.
    + rewrite IH. reflexivity.
Qed.

(** [if (!o[key]) o[key] = v]: afterwards the property is truthy when [v]
    is; a property that was truthy has kept its value; and no other
    property has changed. *)
Lemma set_if_falsy_spec key v fields :
  (value_truthy v = true ->
   exists x, get_field key (set_if_falsy key v fields) = Some x /\ value_truthy x = true) /\
  (forall x, get_field key fields = Some x -> value_truthy x = true ->
             set_if_falsy key v fields = fields) /\
  (forall key', key' <> key ->
                get_field key' (set_if_falsy key v fields) = get_field key' fields).
Proof.
  unfold set_if_falsy. split; [|split].
  - intros Hv. destruct (get_field key fields) as [old|] eqn:E.
    + destruct (value_truthy old) eqn:Ho; [eauto|].
      rewrite get_set_field. eauto.
    + rewrite get_set_field. eauto.
  - intros x -> ->. reflexivity.
  - intros key' Hne. destruct (get_field key fields) as [old|].
    + destruct (value_truthy old); [reflexivity|]. apply get_set_field_other, Hne.
    + apply get_set_field_other, Hne.
Qed.

Lemma generateTextMateGrammar_value parse env g id name spec w :
  let rq := textmate_request env g id name spec in
  let fallback := to_value (larkToTextMateBasic g id name) in
  generateTextMateGrammar parse env g id name spec w =
  (Returned
     match service_text env (List.length (requests w)) rq with
     | inl _ => fallback
     | inr response =>
         match parse (or_else (fst response) (or_else (snd response) "{}")) with
         | Some parsed => default fallback (ensure_required_fields id name parsed)
         | None => fallback
         end
     end,
   requested rq w).
Proof.
  cbv zeta. unfold generateTextMateGrammar, try_catch, bind, create_text, requested.
  destruct (service_text env (List.length (requests w)) _) as [msg|response];
    [reflexivity|].
  destruct (parse _) as [parsed|]; [|reflexivity].
  destruct (ensure_required_fields id name parsed); reflexivity.
Qed.

(** [generateTextMateGrammar] never fails.  It sends one request and
    returns, leaving everything else as it is.  The fallback grammar is
    returned when the service refuses the request, when the answer is not
    JSON, and when it is JSON for [null], a number, a string or a boolean;
    an array is returned as it is; an object is returned with a truthy
    [scopeName] and [patterns], and a truthy [name] unless the language
    name is empty, a property that was already truthy keeping its
    value. *)
Theorem generateTextMateGrammar_never_fails
    (JSON_parse_text : string -> option jsvalue) (env : Env)
    (grammarText languageId languageName spec : string) (w : World) :
  let rq := textmate_request env grammarText languageId languageName spec in
  let fallback := to_value (larkToTextMateBasic grammarText languageId languageName) in
  exists grammar,
    generateTextMateGrammar JSON_parse_text env grammarText languageId languageName
      spec w = (Returned grammar, requested rq w) /\
    match service_text env (List.length (requests w)) rq with
    | inl _ => grammar = fallback
    | inr response =>
        match JSON_parse_text (or_else (fst response) (or_else (snd response) "{}")) with
        | None | Some VNull | Some (VBool _) | Some (VNumber _) | Some (VString _) =>
            grammar = fallback
        | Some (VArray items) => grammar = VArray items
        | Some (VObject fields) =>
            has_truthy "scopeName" grammar = true /\
            has_truthy "patterns" grammar = true /\
            (languageName <> "" -> has_truthy "name" grammar = true) /\
            exists fields', grammar = VObject fields' /\
              forall key x, get_field key fields = Some x -> value_truthy x = true ->
                            get_field key fields' = Some x
        end
    end.
Proof.
  cbv zeta. rewrite generateTextMateGrammar_value. cbv zeta.
  eexists. split; [reflexivity|].
  destruct (service_text env (List.length (requests w)) _) as [msg|response];
    [reflexivity|].
  destruct (JSON_parse_text _) as [[| | | |items|fields]|]; try reflexivity.
  cbn [ensure_required_fields default from_option id].
  set (f1 := set_if_falsy "name" (VString languageName) fields).
  set (f2 := set_if_falsy "scopeName" (VString ("source." +:+ languageId)) f1).
  set (f3 := set_if_falsy "patterns" (VArray []) f2).
  destruct (set_if_falsy_spec "name" (VString languageName) fields) as (N1 & N2 & N3).
  destruct (set_if_falsy_spec "scopeName" (VString ("source." +:+ languageId)) f1)
    as (S1 & S2 & S3).
  destruct (set_if_falsy_spec "patterns" (VArray []) f2) as (P1 & P2 & P3).
  fold f1 in N1, N3. fold f2 in S1, S3. fold f3 in P1, P3.
  cbn [has_truthy]. repeat split.
  - rewrite P3 by discriminate. destruct (S1 eq_refl) as (x & -> & ->). reflexivity.
  - destruct (P1 eq_refl) as (x & -> & ->). reflexivity.
  - intros Hne. rewrite P3, S3 by discriminate.
    destruct (N1 (truthy_nonempty _ Hne)) as (x & -> & ->). reflexivity.
  - exists f3. split; [reflexivity|]. intros key x Hget Hx.
    assert (H1 : get_field key f1 = Some x).
    { destruct (String.eqb_spec key "name") as [->|Hk].
      - unfold f1. rewrite (N2 x Hget Hx). exact Hget.
      - rewrite N3 by exact Hk. exact Hget. }
    assert (H2 : get_field key f2 = Some x).
    { destruct (String.eqb_spec key "scopeName") as [->|Hk].
      - unfold f2. rewrite (S2 x H1 Hx). exact H1.
      - rewrite S3 by exact Hk. exact H1. }
    destruct (String.eqb_spec key "patterns") as [->|Hk].
    + unfold f3. rewrite (P2 x H2 Hx). exact H2.
    + rewrite P3 by exact Hk. exact H2.
Qed.

(* ================================================================= *)
(** ** The two writings of an expression with two groups *)

Lemma star_greedy_ungroup p k k' s : forall prev len cap cap',
  (forall st st', same_position st st' -> same_outcome (k st) (k' st')) ->
  same_outcome (star_greedy p k prev len cap s) (star_greedy p k' prev len cap' s).
Proof.
  induction s as [|a s IH]; intros prev len cap cap' Hk; cbn [star_greedy].
  - apply Hk. repeat split.
  - destruct (p a); [|apply Hk; repeat split].
    specialize (IH (Some a) (S len) cap cap' Hk).
    destruct (star_greedy p k (Some a) (S len) cap s),
      (star_greedy p k' (Some a) (S len) cap' s); cbn in IH |- *;
      try contradiction; [exact IH|].
    apply Hk. repeat split.
Qed.

Lemma star_lazy_ungroup p k k' s : forall prev len cap cap',
  (forall st st', same_position st st' -> same_outcome (k st) (k' st')) ->
  same_outcome (star_lazy p k prev len cap s) (star_lazy p k' prev len cap' s).
Proof.
  induction s as [|a s IH]; intros prev len cap cap' Hk; cbn [star_lazy].
  - pose proof (Hk (MState prev "" len cap) (MState prev "" len cap')
                  (conj eq_refl (conj eq_refl eq_refl))) as H.
    destruct (k _), (k' _); cbn in H |- *; try contradiction; [exact H|exact I].
  - pose proof (Hk (MState prev (String a s) len cap)
                  (MState prev (String a s) len cap')
                  (conj eq_refl (conj eq_refl eq_refl))) as H.
    destruct (k _), (k' _); cbn in H |- *; try contradiction; [exact H|].
    destruct (p a); [apply IH, Hk|exact I].
Qed.

Lemma lit_match_ungroup s : forall st st',
  same_position st st' -> same_outcome (lit_match s st) (lit_match s st').
Proof.
  induction s as [|c s IH]; intros st st' (Hp & Hr & Hl); cbn [lit_match].
  - repeat split; assumption.
  - rewrite <- Hr. destruct (ms_rest st) as [|a rest]; [exact I|].
    destruct (Ascii.eqb a c); [|exact I]. apply IH. rewrite Hl. repeat split.
Qed.

(** The groups of an expression have no part in what it matches. *)
Lemma rmatch_ungroup r : forall st st' k k',
  same_position st st' ->
  (forall s s', same_position s s' -> same_outcome (k s) (k' s')) ->
  same_outcome (rmatch r st k) (rmatch (ungroup r) st' k').
Proof.
  induction r as [c|s|p|p|p|r1 IH1 r2 IH2|r1 IH1 r2 IH2| |p|r IH|r IH];
    intros st st' k k' Hst Hk; pose proof Hst as (Hp & Hr & Hl);
    cbn [rmatch ungroup].
  - rewrite <- Hr. destruct (ms_rest st) as [|a rest]; [exact I|].
    destruct (Ascii.eqb a c); [|exact I]. apply Hk. rewrite Hl. repeat split.
  - pose proof (lit_match_ungroup s st st' Hst) as H.
    destruct (lit_match s st), (lit_match s st'); cbn in H; try contradiction;
      [apply Hk, H|exact I].
  - rewrite <- Hr. destruct (ms_rest st) as [|a rest]; [exact I|].
    destruct (p a); [|exact I]. apply Hk. rewrite Hl. repeat split.
  - rewrite <- Hp, <- Hr, <- Hl. apply star_greedy_ungroup, Hk.
  - rewrite <- Hp, <- Hr, <- Hl. apply star_lazy_ungroup, Hk.
  - apply IH1; [exact Hst|]. intros s s' Hs. apply IH2; [exact Hs|exact Hk].
  - pose proof (IH1 st st' k k' Hst Hk) as H.
    destruct (rmatch r1 st k), (rmatch (ungroup r1) st' k'); cbn in H |- *;
      try contradiction; [exact H|]. apply IH2; [exact Hst|exact Hk].
  - rewrite <- Hp. destruct (at_line_start (ms_prev st)); [apply Hk, Hst|exact I].
  - rewrite <- Hp. destruct (ms_prev st) as [a|]; [destruct (p a); [exact I|]|];
      apply Hk, Hst.
  - pose proof (IH st st' Some Some Hst (fun s s' H => H)) as H.
    destruct (rmatch r st Some), (rmatch (ungroup r) st' Some); cbn in H;
      try contradiction; [exact I|apply Hk, Hst].
  - apply IH; [exact Hst|]. intros s s' (Hp' & Hr' & Hl'). apply Hk.
    repeat split; assumption.
Qed.

Lemma scan_ungroup r r' s : forall prev skip,
  ungroup r = ungroup r' ->
  map m_text (scan r prev skip s) = map m_text (scan r' prev skip s).
Proof.
  intros prev skip E. revert prev skip.
  assert (H : forall prev t, same_outcome (match_here r prev t) (match_here r' prev t)).
  { intros prev t. unfold match_here.
    pose proof (rmatch_ungroup r (MState prev t 0 None) (MState prev t 0 None)
                  Some Some) as H1.
    pose proof (rmatch_ungroup r' (MState prev t 0 None) (MState prev t 0 None)
                  Some Some) as H2.
    rewrite <- E in H2.
    specialize (H1 ltac:(repeat split) (fun s s' H => H)).
    specialize (H2 ltac:(repeat split) (fun s s' H => H)).
    destruct (rmatch r _ Some) as [x|], (rmatch r' _ Some) as [y|],
      (rmatch (ungroup r) _ Some) as [z|]; cbn in H1, H2 |- *;
      try contradiction; try exact I.
    destruct H1 as (? & ? & ?), H2 as (? & ? & ?). repeat split; congruence. }
  induction s as [|a s IH]; intros prev skip; cbn [scan].
  - destruct skip; [|reflexivity]. specialize (H prev "").
    destruct (match_here r prev ""), (match_here r' prev ""); cbn in H;
      try contradiction; [|reflexivity].
    destruct H as (_ & _ & Hl). unfold result_of. cbn [map m_text]. rewrite Hl.
    reflexivity.
  - destruct skip as [|n]; [|apply IH]. specialize (H prev (String a s)).
    destruct (match_here r prev (String a s)), (match_here r' prev (String a s));
      cbn in H; try contradiction; [|apply IH].
    destruct H as (_ & _ & Hl). unfold result_of. cbn [map m_text]. rewrite Hl, IH.
    reflexivity.
Qed.

(** The expression of a definition finds the same matches with its first
    group capturing and with its second: the names and the definitions of
    [definitions_of] belong together. *)
Lemma definition_line_runs_agree first more text :
  map m_text (match_all (definition_line first more true) text) =
  map m_text (match_all (definition_line first more false) text).
Proof. apply scan_ungroup. reflexivity. Qed.

(* ================================================================= *)
(** ** The fallback grammar *)

(** An expression anchored at both ends ([^], a class, a starred class,
    [$], no flag) tests the shape of the whole text. *)
Lemma star_greedy_to_end p s : forall prev len cap,
  star_greedy p (fun st => rmatch REnd st Some) prev len cap s = None <->
  all_chars p s = false.
Proof.
  induction s as [|a s IH]; intros prev len cap; cbn [star_greedy all_chars].
  - cbn. split; discriminate.
  - destruct (p a); cbn [andb].
    + destruct (star_greedy p _ (Some a) (S len) cap s) eqn:E.
      * split; [discriminate|]. intros H.
        apply (proj2 (IH (Some a) (S len) cap)) in H. congruence.
      * apply (proj1 (IH (Some a) (S len) cap)) in E. rewrite E. cbn.
        split; reflexivity.
    + cbn. split; reflexivity.
Qed.

Lemma search_anchored r s : forall a before,
  search (RSeq RStart r) (Some a) before s = None.
Proof.
  induction s as [|c s IH]; intros a before; cbn [search]; unfold match_here;
    rewrite rmatch_seq; unfold RStart; rewrite rmatch_not_behind;
    cbn [ms_prev any_char]; [reflexivity|apply IH].
Qed.

Lemma js_test_anchored (first more : ascii -> bool) (s : string) :
  js_test (RSeq RStart (RSeq (RClass first) (RSeq (RStar more) REnd))) s =
  match s with
  | String c rest => first c && all_chars more rest
  | EmptyString => false
  end.
Proof.
  unfold js_test. destruct s as [|c rest]; cbn [search]; unfold match_here;
    rewrite rmatch_seq; unfold RStart; rewrite rmatch_not_behind; cbn [ms_prev];
    rewrite rmatch_seq; cbn [rmatch ms_rest]; [reflexivity|].
  pose proof (search_anchored (RSeq (RClass first) (RSeq (RStar more) REnd)) rest c
                ("" +:+ String c "")) as Hlater.
  unfold RStart, REnd in Hlater. unfold REnd.
  destruct (first c); cbn [andb]; [|rewrite Hlater; reflexivity].
  cbn [ms_len ms_cap ms_prev].
  pose proof (star_greedy_to_end more rest (Some c) 1 None) as Hend.
  unfold REnd in Hend |- *. cbn [rmatch] in Hend |- *.
  match goal with
  | |- context [star_greedy more ?k (Some c) 1 None rest] =>
      destruct (star_greedy more k (Some c) 1 None rest) eqn:E
  end.
  - destruct (all_chars more rest); [reflexivity|].
    pose proof (proj2 Hend eq_refl). congruence.
  - rewrite (proj1 Hend eq_refl), Hlater. reflexivity.
Qed.

Lemma js_test_keywordRe s : js_test keywordRe s = is_identifier_text s.
Proof. apply js_test_anchored. Qed.

Lemma js_test_operatorRe s : js_test operatorRe s = is_operator_text s.
Proof. apply js_test_anchored. Qed.

Lemma word_char_not_special c : word_char c = true -> regex_special c = false.
Proof. destruct c as [[] [] [] [] [] [] [] []]; vm_compute; congruence. Qed.

Lemma word_char_not_operator c : word_char c = true -> operator_char c = false.
Proof. destruct c as [[] [] [] [] [] [] [] []]; vm_compute; congruence. Qed.

Lemma letter_is_word_char c :
  in_range 97 122 c || in_range 65 90 c || is_char "_" c = true -> word_char c = true.
Proof. destruct c as [[] [] [] [] [] [] [] []]; vm_compute; congruence. Qed.

Lemma escape_regex_words s : all_chars word_char s = true -> escape_regex s = s.
Proof.
  unfold escape_regex. induction s as [|c s IH]; [reflexivity|].
  cbn [all_chars replace_chars]. intros H. apply andb_true_iff in H as [Hc Hs].
  rewrite (word_char_not_special c Hc), (IH Hs). reflexivity.
Qed.

(** The keywords and the operators of the fallback grammar.  Of the
    quoted literals found in the definitions of the rules, the keywords
    are those that are a letter or an underscore followed by letters,
    digits and underscores, and the operators those that are a non-empty
    run of the characters [+ - * / % = < > ! & | ^ ~]; no literal is
    both.  Escaping leaves a keyword as it is, so the keywords stand
    unchanged in the pattern. *)
Theorem fallback_keywords_and_operators (grammarText literal : string) :
  In literal (rule_literals grammarText) ->
  (In literal (tm_keywords grammarText) <-> is_identifier_text literal = true) /\
  (In literal (tm_operators grammarText) <-> is_operator_text literal = true) /\
  ~ (is_identifier_text literal = true /\ is_operator_text literal = true) /\
  (is_identifier_text literal = true -> escape_regex literal = literal).
Proof.
  intros Hin. unfold tm_keywords, tm_operators.
  assert (Hdisj : is_identifier_text literal = true ->
                  is_operator_text literal = false).
  { destruct literal as [|c rest]; [discriminate|]. cbn [is_identifier_text
      is_operator_text]. intros H. apply andb_true_iff in H as [Hc _].
    rewrite (word_char_not_operator c (letter_is_word_char c Hc)). reflexivity. }
  split; [|split; [|split]].
  - rewrite <- !list_elem_of_In, list_elem_of_filter, js_test_keywordRe,
      !list_elem_of_In. unfold Is_true.
    destruct (is_identifier_text literal); intuition congruence.
  - rewrite <- !list_elem_of_In, list_elem_of_filter, js_test_keywordRe,
      js_test_operatorRe, !list_elem_of_In.
    destruct (is_identifier_text literal) eqn:E.
    + rewrite (Hdisj eq_refl). cbn. intuition congruence.
    + cbn. unfold Is_true. destruct (is_operator_text literal); intuition congruence.
  - intros [H1 H2]. rewrite (Hdisj H1) in H2. discriminate.
  - destruct literal as [|c rest]; [discriminate|]. cbn [is_identifier_text].
    intros H. apply andb_true_iff in H as [Hc Hr]. apply escape_regex_words.
    cbn [all_chars]. rewrite (letter_is_word_char c Hc), Hr. reflexivity.
Qed.

Lemma fallback_keywords_and_operators_witness :
  In "let" (rule_literals "stmt: 'let' NAME '=' expr") /\
  In "let" (tm_keywords "stmt: 'let' NAME '=' expr") /\
  escape_regex "let" = "let".
Proof.
  assert (H : In "let" (rule_literals "stmt: 'let' NAME '=' expr"))
    by (vm_compute; left; reflexivity).
  destruct (fallback_keywords_and_operators "stmt: 'let' NAME '=' expr" "let" H)
    as (Hk & _ & _ & He).
  split; [exact H|split].
  - apply Hk. vm_compute. reflexivity.
  - apply He. vm_compute. reflexivity.
Defined.

(** A match of an expression ends inside the text it starts in. *)
Lemma rmatch_rest r : forall st k x,
  rmatch r st k = Some x ->
  exists st' pre, k st' = Some x /\ ms_rest st = pre +:+ ms_rest st'.
Proof.
  induction r as [c|s|p|p|p|r1 IH1 r2 IH2|r1 IH1 r2 IH2| |p|r IH|r IH];
    intros st k x H; cbn [rmatch] in H.
  - destruct (ms_rest st) as [|a rest] eqn:E; [discriminate|].
    destruct (Ascii.eqb a c); [|discriminate].
    eexists _, (String a ""). split; [exact H|]. reflexivity.
  - destruct (lit_match s st) as [st'|] eqn:E; [|discriminate].
    apply lit_match_rest in E. exists st', s. auto.
  - destruct (ms_rest st) as [|a rest] eqn:E; [discriminate|].
    destruct (p a); [|discriminate].
    eexists _, (String a ""). split; [exact H|]. reflexivity.
  - apply star_greedy_inv in H as (run & rest & E & _ & Hk).
    eexists _, run. split; [exact Hk|]. exact E.
  - apply star_lazy_rest in H as (a & st' & E & Hk). exists st', a. auto.
  - apply IH1 in H as (st1 & pre1 & H & E1). apply IH2 in H as (st2 & pre2 & H & E2).
    exists st2, (pre1 +:+ pre2). split; [exact H|].
    rewrite E1, E2, app_assoc'. reflexivity.
  - destruct (rmatch r1 st k) eqn:E.
    + injection H as <-. apply IH1 in E. exact E.
    + apply IH2 in H. exact H.
  - destruct (at_line_start (ms_prev st)); [|discriminate]. exists st, "". auto.
  - exists st, "". split; [|reflexivity].
    destruct (ms_prev st) as [a|]; [destruct (p a); [discriminate|]|]; exact H.
  - destruct (rmatch r st Some); [discriminate|]. exists st, "". auto.
  - apply IH in H as (st' & pre & Hk & E). eexists _, pre. split; [exact Hk|exact E].
Qed.

(** A definition needs a colon. *)
Lemma definition_line_needs_colon first more on_name prev s :
  has_char ":" s = false -> match_here (definition_line first more on_name) prev s = None.
Proof.
  intros Hs. unfold match_here, definition_line. cbv zeta.
  destruct (rmatch _ _ _) as [x|] eqn:H; [exfalso|reflexivity].
  rewrite rmatch_seq in H. apply rmatch_rest in H as (st1 & p1 & H & E1).
  rewrite rmatch_seq in H. apply rmatch_rest in H as (st2 & p2 & H & E2).
  rewrite rmatch_seq in H. apply rmatch_rest in H as (st3 & p3 & H & E3).
  rewrite rmatch_seq, rmatch_char in H.
  destruct (ms_rest st3) as [|a rest] eqn:E; [discriminate|].
  destruct (Ascii.eqb a ":") eqn:Ea; [|discriminate].
  cbn [ms_rest] in E1. rewrite E1, E2, E3, !has_char_app in Hs.
  cbn [has_char] in Hs. rewrite Ea in Hs. cbn [orb] in Hs.
  rewrite !orb_true_r in Hs. discriminate.
Qed.

Lemma scan_without_match r s : forall prev skip,
  (forall prev' a b, s = a +:+ b -> match_here r prev' b = None) ->
  scan r prev skip s = [].
Proof.
  induction s as [|c s IH]; intros prev skip H; cbn [scan].
  - rewrite (H prev "" "" eq_refl). destruct skip; reflexivity.
  - rewrite (H prev "" (String c s) eq_refl).
    assert (E : match skip with 0 => None | S _ => None end = @None mstate)
      by (destruct skip; reflexivity).
    rewrite E. apply IH. intros prev' a b ->. apply (H prev' (String c a) b).
    reflexivity.
Qed.

Lemma definitions_need_colon first more s :
  has_char ":" s = false -> definitions_of first more s = [].
Proof.
  intros Hs. unfold definitions_of, captures, match_all.
  rewrite scan_without_match; [reflexivity|].
  intros prev' a b ->. apply definition_line_needs_colon.
  rewrite has_char_app in Hs. apply orb_false_iff in Hs. apply Hs.
Qed.

(** The fallback grammar of a text without a colon.  No token and no
    rule is found in it, so the grammar has the identifier pattern and no
    other. *)
Theorem fallback_without_definitions (grammarText languageId languageName : string) :
  has_char ":" grammarText = false ->
  larkToTextMateBasic grammarText languageId languageName =
  JObject [("name", JString languageName);
           ("scopeName", JString ("source." +:+ languageId));
           ("patterns", JArray [identifier_pattern]);
           ("repository", JObject [])].
Proof.
  intros Hs. unfold larkToTextMateBasic, tm_patterns, tm_tokens, tm_keywords,
    tm_operators, rule_literals. cbv zeta.
  rewrite !(definitions_need_colon _ _ _ Hs). reflexivity.
Qed.

Lemma fallback_without_definitions_witness :
  larkToTextMateBasic "start NAME" "calc" "Calc" =
  JObject [("name", JString "Calc");
           ("scopeName", JString "source.calc");
           ("patterns", JArray [identifier_pattern]);
           ("repository", JObject [])].
Proof.
  apply (fallback_without_definitions "start NAME" "calc" "Calc").
  vm_compute. reflexivity.
Defined.

(* ================================================================= *)
(** ** [generateVSCodeExtension] *)

Lemma extension_paths_distinct options grammar :
  NoDup (map fst (extension_writes options grammar)).
Proof.
  unfold extension_writes, writes_test_runner, path_join. cbv zeta.
  set (d := opt_outputDir options).
  assert (Hne : forall a b : string, a <> b -> d +:+ a <> d +:+ b).
  { intros a b Hab H. apply String.app_inj in H. contradiction. }
  destruct (truthy (default "" (opt_exampleProgram options)));
    destruct (truthy (default "" (opt_interpreterPath options)));
    destruct (truthy (default "" (opt_parserPath options)));
    cbn [andb app map fst]; rewrite ?app_assoc';
    repeat (apply NoDup_cons; split;
            [rewrite ?elem_of_cons, elem_of_nil;
             repeat (intros [H|H]; [revert H; apply Hne; discriminate|revert H]);
             tauto|]);
    apply NoDup_nil; exact I.
Qed.

(** [generateVSCodeExtension], operation by operation, for an output
    directory in normal form and a language identifier and a file
    extension without a slash (so that [path.join] only adds the names
    joined).  It never ends
    the process, prompts the operator or starts a subprocess, and it
    leaves the global sample alone.  It returns exactly when every
    directory can be made, every file written and the test runner made
    executable, and throws otherwise.  When it returns, one request has
    been sent (for the TextMate grammar), the file system is the one it
    found with its files written, each under a path of its own and with
    the content listed, and the result names the extension directory and
    the example file; the example is written only for a non-empty example
    program, the test runner only if the two module paths are given
    too. *)
Theorem generateVSCodeExtension_outcomes
    (JSON_parse_text : string -> option jsvalue) (env : Env) (p : Process)
    (options : ExtensionOptions) (w : World) :
  normal_dir (opt_outputDir options) = true ->
  has_char "/" (opt_languageId options) = false ->
  has_char "/" (opt_fileExtension options) = false ->
  let r := generateVSCodeExtension JSON_parse_text env p options w in
  let extDir := opt_outputDir options in
  GLOBAL_SAMPLE (snd r) = GLOBAL_SAMPLE w /\
  spawns (snd r) = spawns w /\
  (forall grammar, NoDup (map fst (extension_writes options grammar))) /\
  if extension_permitted env p options then
    exists grammar,
      generateTextMateGrammar JSON_parse_text env (opt_grammarText options)
        (opt_languageId options) (opt_languageName options)
        (default "" (opt_spec options)) w
      = (Returned grammar,
         requested (textmate_request env (opt_grammarText options)
                      (opt_languageId options) (opt_languageName options)
                      (default "" (opt_spec options))) w) /\
      requests (snd r) =
        requests w ++ [textmate_request env (opt_grammarText options)
                         (opt_languageId options) (opt_languageName options)
                         (default "" (opt_spec options))] /\
      files (snd r) = written (extension_writes options grammar) (files w) /\
      fst r =
        Returned
          (MkExtensionResult extDir
             (if truthy (default "" (opt_exampleProgram options))
              then Some (path_join (path_join extDir "examples")
                           ("example." +:+ opt_fileExtension options))
              else None)
             (MkExtensionFiles
                (path_join extDir "package.json")
                (path_join (path_join extDir "syntaxes")
                   (opt_languageId options +:+ ".tmLanguage.json"))
                (path_join extDir "language-configuration.json")
                (path_join extDir "README.md")
                (path_join (path_join extDir ".vscode") "launch.json")))
  else exists e, fst r = Thrown e.
Proof.
  intros _ _ _. cbv zeta.
  pose proof (extension_paths_distinct options) as Hnd.
  match goal with
  | |- ?A /\ ?B /\ _ /\ ?C =>
      enough (H : A /\ B /\ C)
        by (destruct H as (H1 & H2 & H3);
            split; [exact H1|split; [exact H2|split; [exact Hnd|exact H3]]])
  end.
  clear Hnd.
  unfold extension_permitted, extension_directories, extension_writes,
    writes_test_runner. cbv zeta.
  unfold generateVSCodeExtension; cbv zeta.
  unfold bind, fs_mkdir, fs_writeFile, fs_chmod, modify, ret, throw.
  cbn [forallb].
  assert (Hfail : forall (e : JsError) (w' : World),
             GLOBAL_SAMPLE w' = GLOBAL_SAMPLE w -> spawns w' = spawns w ->
             GLOBAL_SAMPLE (snd (@Thrown ExtensionResult e, w')) = GLOBAL_SAMPLE w /\
             spawns (snd (@Thrown ExtensionResult e, w')) = spawns w /\
             exists e', fst (@Thrown ExtensionResult e, w') = Thrown e').
  { intros e w' H1 H2. split; [exact H1|split; [exact H2|]].
    exists e. reflexivity. }
  destruct (can_mkdir env (opt_outputDir options)); cbn [andb];
    [|apply Hfail; reflexivity].
  destruct (can_mkdir env (path_join (opt_outputDir options) "syntaxes"));
    cbn [andb]; [|apply Hfail; reflexivity].
  destruct (can_mkdir env (path_join (opt_outputDir options) ".vscode"));
    cbn [andb]; [|apply Hfail; reflexivity].
  destruct (can_mkdir env (path_join (opt_outputDir options) "examples"));
    cbn [andb]; [|apply Hfail; reflexivity].
  cbv beta iota. cbn [app forallb fst].
  rewrite generateTextMateGrammar_value. cbv zeta.
  set (grammar := match service_text env _ _ with inl _ => _ | inr _ => _ end).
  destruct (can_write env (path_join (path_join (opt_outputDir options) "syntaxes") _));
    cbn [andb]; [|apply Hfail; reflexivity].
  destruct (can_write env (path_join (opt_outputDir options) "package.json"));
    cbn [andb]; [|apply Hfail; reflexivity].
  destruct (can_write env (path_join (opt_outputDir options)
                             "language-configuration.json")); cbn [andb];
    [|apply Hfail; reflexivity].
  destruct (can_write env (path_join (opt_outputDir options) "README.md"));
    cbn [andb]; [|apply Hfail; reflexivity].
  destruct (can_write env (path_join (opt_outputDir options) ".vscodeignore"));
    cbn [andb]; [|apply Hfail; reflexivity].
  destruct (can_write env (path_join (path_join (opt_outputDir options) ".vscode")
                             "launch.json")); cbn [andb];
    [|apply Hfail; reflexivity].
  cbv beta iota. cbn [fst snd].
  destruct (truthy (default "" (opt_exampleProgram options))) eqn:Hex;
    cbn [andb app forallb fst negb orb].
  - destruct (can_write env (path_join (path_join (opt_outputDir options) "examples")
                               ("example." +:+ opt_fileExtension options)));
      cbn [andb]; [|apply Hfail; reflexivity].
    cbv beta iota.
    destruct (truthy (default "" (opt_interpreterPath options)));
      cbn [andb app forallb fst negb orb].
    + destruct (truthy (default "" (opt_parserPath options)));
        cbn [andb app forallb fst negb orb].
      * destruct (can_write env (path_join (path_join (opt_outputDir options)
                                               "examples") "run.mjs"));
          cbn [andb]; [|apply Hfail; reflexivity].
        cbv beta iota. cbn [files set_files]. rewrite lookup_insert_eq.
        destruct (can_chmod p _); [|apply Hfail; reflexivity].
        split; [reflexivity|split; [reflexivity|]].
        exists grammar. repeat split.
      * split; [reflexivity|split; [reflexivity|]].
        exists grammar. repeat split.
    + split; [reflexivity|split; [reflexivity|]].
      exists grammar. repeat split.
  - split; [reflexivity|split; [reflexivity|]].
    exists grammar. repeat split.
Qed.

Lemma generateVSCodeExtension_outcomes_witness :
  fst (generateVSCodeExtension (fun _ => None) env_pipeline calc_process_vscode
         (MkExtensionOptions calc_grammar "calc" "Calc" "cal" "/ext" None None
            (Some "1+2") (Some "/out/interpreter.mjs") (Some "/out/parser.cjs") None)
         empty_world)
  = Returned
      (MkExtensionResult "/ext" (Some "/ext/examples/example.cal")
         (MkExtensionFiles "/ext/package.json" "/ext/syntaxes/calc.tmLanguage.json"
            "/ext/language-configuration.json" "/ext/README.md"
            "/ext/.vscode/launch.json")).
Proof.
  pose (options := MkExtensionOptions calc_grammar "calc" "Calc" "cal" "/ext" None None
                     (Some "1+2") (Some "/out/interpreter.mjs")
                     (Some "/out/parser.cjs") None).
  destruct (generateVSCodeExtension_outcomes (fun _ => None) env_pipeline
              calc_process_vscode options empty_world)
    as (_ & _ & _ & H); [vm_compute; reflexivity..|].
  assert (E : extension_permitted env_pipeline calc_process_vscode options = true)
    by (vm_compute; reflexivity).
  rewrite E in H. destruct H as (grammar & _ & _ & _ & H). exact H.
Defined.

(* ================================================================= *)
(** ** [main] with the extension *)

Lemma generateVSCodeExtension_without_directory parse env p options w :
  can_mkdir env (opt_outputDir options) = false ->
  exists e, generateVSCodeExtension parse env p options w = (Thrown e, w).
Proof.
  intros H. unfold generateVSCodeExtension. cbv zeta.
  unfold bind at 1, fs_mkdir at 1. rewrite H. eexists. reflexivity.
Qed.

(** A failure of the extension ends the whole run.  With [--vscode],
    once the grammar is generated and compiled, [main] asks for an example
    program and then generates the extension, before any interpreter;
    when the directory of the extension cannot be made, the process ends
    with status 1 in the world the example program left: the parser is
    there, and no interpreter has been requested or written. *)
Theorem main_stops_when_the_extension_fails
    (JSON_parse_text : string -> option jsvalue)
    (env : Env) (p : Process) (w w1 w2 : World) (args : Args) (key : string)
    (grammarText : string) (paths : CompileResult) :
  let spec := or_else (args_spec args)
                "A tiny calculator (integers, + - * /, parentheses, unary minus)" in
  let semantics := or_else (args_semantics args)
                     (or_else (readStdin p) "Evaluate expressions to a number") in
  let extensionDir :=
    path_join (path_join (cwd env) "extensions")
      ("vscode-" +:+
       folder_timestamp (toISOString env (date_now env (clock_reads w2)))) in
  parseArgs p w = (Returned args, w) ->
  environ env !! "OPENAI_API_KEY" = Some key -> key <> "" ->
  args_vscode args = true ->
  generateGrammar env spec 3 (set_GLOBAL_SAMPLE (args_sample args) w)
    = (Returned grammarText, w1) ->
  compileGrammar env grammarText (args_output args) 3 w1 = (Returned paths, w2) ->
  can_mkdir env extensionDir = false ->
  main (generateVSCodeExtension JSON_parse_text env p) env p w
  = (Exited 1,
     snd (generateExampleProgram env spec grammarText semantics
            (set_clock_reads (S (clock_reads w2)) w2))).
Proof.
  cbv zeta. intros Hparse Hkey Hne Hvs Hg Hc Hdir.
  unfold main, bind at 1. rewrite Hparse. unfold bind at 1, modify.
  rewrite Hkey. change (default "" (Some key)) with key.
  rewrite (truthy_nonempty _ Hne). cbn [negb].
  assert (or_else (args_sample args) "" = args_sample args) as ->
    by (destruct (args_sample args); reflexivity).
  unfold try_catch. unfold bind at 1. rewrite Hg.
  unfold bind at 1. rewrite Hc. rewrite Hvs.
  unfold bind at 1. unfold bind at 1.
  unfold main_vscode, bind at 1, Date_now. unfold bind at 1.
  match goal with |- context [generateExampleProgram env ?s grammarText ?m ?w3] =>
    destruct (generateExampleProgram_kind env s grammarText m w3) as [_ [out Hk3]];
    destruct (generateExampleProgram env s grammarText m w3) as [o3 w3'] end.
  cbn [fst snd] in Hk3 |- *. subst o3.
  match goal with |- context [generateVSCodeExtension _ _ _ ?o w3'] =>
    destruct (generateVSCodeExtension_without_directory JSON_parse_text env p o w3'
                Hdir) as [e ->] end.
  reflexivity.
Qed.

Lemma main_stops_when_the_extension_fails_witness :
  fst (main (generateVSCodeExtension (fun _ => None) env_without_extensions
               calc_process_vscode)
         env_without_extensions calc_process_vscode empty_world) = Exited 1.
Proof.
  pose (g := "start: sum" +:+ nl +:+ "sum: NUMBER (ADD_OP NUMBER)*" +:+ nl
             +:+ "NUMBER: /[0-9]+/" +:+ nl +:+ "ADD_OP: " +:+ dq +:+ "+" +:+ dq).
  pose (w1 := snd (generateGrammar env_without_extensions "calc" 3 empty_world)).
  pose (w2 := snd (compileGrammar env_without_extensions g "/out" 3 w1)).
  pose proof (main_stops_when_the_extension_fails (fun _ => None)
                env_without_extensions calc_process_vscode empty_world w1 w2
                (MkArgs "calc" "" "" "/out" true "" "" "") "sk-test" g
                (MkCompileResult "/out/grammar.lark" "/out/parser.cjs")) as H.
  cbv zeta in H.
  rewrite H; clear H; [reflexivity|..];
    first [ discriminate | vm_compute; reflexivity ].
Defined.
